(** * llm-proxy: the request/response interception pipeline

    A shallow embedding of [loggingTransport.RoundTrip] and its helpers
    ([replaceBody], [isContentType], [fixStreamingResponse],
    [skipTextContainingSnapshot]) from [main.go], together with the
    properties of the request rewriter and of the SSE line filter; of
    the earlier version of [RoundTrip] that the file also holds; and of
    what [Handle] makes of the command line before it starts the proxy.

    Go strings and byte slices are modelled by [string] (a list of 8-bit
    characters, i.e. bytes); [map[string]T] by [gmap string T]; the
    [(value, error)] results of Go by sums; a call that may panic returns
    an [outcome].  Calls to [log.Printf] have no effect on the values
    computed and are left out. *)

From Stdlib Require Import ZArith Ascii String List Lia.
From Stdlib Require Import Floats.SpecFloat.
From Stdlib Require Import Numbers.DecimalString Numbers.DecimalZ
  Numbers.DecimalPos Numbers.DecimalFacts.
From Stdlib Require Import Sorting.Permutation.
From stdpp Require Import gmap strings.

Local Open Scope Z_scope.

(** ** The [strings] package, as far as the proxy uses it *)

Module strings.

(** [strings.HasPrefix(s, prefix)]. *)
Definition HasPrefix (s prefix : string) : bool := String.prefix prefix s.

(** [strings.TrimPrefix(s, prefix)]: [s] without the leading [prefix],
    or [s] itself when it does not start with it. *)
Definition TrimPrefix (s prefix : string) : string :=
  if HasPrefix s prefix
  then String.substring (String.length prefix)
         (String.length s - String.length prefix) s
  else s.

(** [strings.Contains(s, substr)]. *)
Fixpoint Contains (s substr : string) : bool :=
  String.prefix substr s ||
  match s with
  | EmptyString => false
  | String _ s' => Contains s' substr
  end.

(** [strings.Split(s, sep)] for a separator of one byte, which is the
    only way the proxy calls it (["\n"]).  The result is never empty:
    a string without separator is its own single field. *)
Fixpoint Split (s : string) (sep : ascii) : list string :=
  match s with
  | EmptyString => [EmptyString]
  | String c s' =>
      if Ascii.eqb c sep then EmptyString :: Split s' sep
      else match Split s' sep with
           | [] => [String c EmptyString]
           | l :: ls => String c l :: ls
           end
  end.

(** [strings.Join(elems, sep)]. *)
Fixpoint Join (elems : list string) (sep : string) : string :=
  match elems with
  | [] => EmptyString
  | [e] => e
  | e :: es => e +:+ sep +:+ Join es sep
  end.

(** [strings.SplitN(s, sep, n)] for a separator of one byte and
    [0 <= n]: at most [n] fields, the last of them the rest of [s]
    unsplit; no field at all for [n = 0]. *)
Fixpoint SplitN (s : string) (sep : ascii) (n : nat) {struct s} : list string :=
  match n with
  | O => []
  | S O => [s]
  | S (S _ as n') =>
      match s with
      | EmptyString => [EmptyString]
      | String c s' =>
          if Ascii.eqb c sep then EmptyString :: SplitN s' sep n'
          else match SplitN s' sep n with
               | [] => [String c EmptyString]
               | l :: ls => String c l :: ls
               end
      end
  end.

End strings.

(** The line feed byte and the one-byte string ["\n"]. *)
Definition LF : ascii := Ascii.ascii_of_nat 10.
Definition nl : string := String LF EmptyString.

(** A line: a string without line feed, which [strings.Split] leaves
    whole. *)
Definition isLine (l : string) : Prop := strings.Split l LF = [l].

(** ** Decoded JSON

    [json.Unmarshal] into a [map[string]interface{}] stores every value
    in its generic Go form: [nil], [bool], [float64], [string],
    [[]interface{}] and [map[string]interface{}].  [float64] is an IEEE-754
    binary64 number, here [spec_float] at precision 53. *)

Definition float64 : Type := spec_float.

#[local] Unset Elimination Schemes.
Inductive value : Type :=
  | JNull
  | JBool (b : bool)
  | JNumber (f : float64)
  | JString (s : string)
  | JArray (l : list value)
  | JObject (m : gmap string value).
#[local] Set Elimination Schemes.

(** The comma-ok type assertion [v.(string)] applied to the result of a
    map index expression [data[key]]: a missing key yields the nil
    interface, on which the assertion fails like on any non-string. *)
Definition assert_string (v : option value) : option string :=
  match v with
  | Some (JString s) => Some s
  | _ => None
  end.

(** Go's [error] values; only their identity matters here. *)
Definition error : Type := string.

(** ** The Go library, as far as the examples need it

    An executable model of [strconv.ParseFloat], of the shortest
    formatting of [strconv.AppendFloat], and of [json.Unmarshal] and
    [json.Marshal] at the type [map[string]interface{}].  The properties
    of the proxy below hold for any JSON codec; this one computes what the
    proxy does on concrete requests and responses. *)

(** [strconv.Itoa]: the decimal form of an integer. *)
Definition itoa (n : Z) : string :=
  NilEmpty.string_of_int (Z.to_int n).

(** [strconv.Atoi] on the decimal forms [itoa] writes. *)
Definition atoi (s : string) : option Z :=
  option_map Z.of_int (NilEmpty.int_of_string s).

Definition code (c : ascii) : Z := Z.of_N (N_of_ascii c).
Definition chr (z : Z) : ascii := ascii_of_N (Z.to_N z).

Definition is_digit (c : ascii) : bool := (48 <=? code c) && (code c <=? 57).

(** The longest prefix of decimal digits, and what follows it. *)
Fixpoint span_digits (s : string) : string * string :=
  match s with
  | String c s' =>
      if is_digit c then let '(d, r) := span_digits s' in (String c d, r)
      else (EmptyString, s)
  | EmptyString => (EmptyString, EmptyString)
  end.

(** The number a string of decimal digits denotes, most significant
    digit first. *)
Fixpoint digits_value (acc : Z) (s : string) : Z :=
  match s with
  | String c s' => digits_value (10 * acc + (code c - 48)) s'
  | EmptyString => acc
  end.

Module strconv.

Definition prec : Z := 53.
Definition emax : Z := 1024.

(** The binary64 number nearest to [(-1)^neg * D * 10^E], ties to
    even, for [0 <= D]: infinite when the magnitude is out of range. *)
Definition round_decimal (neg : bool) (D E : Z) : float64 :=
  if D =? 0 then S754_zero neg
  else if 0 <=? E then
    binary_normalize prec emax (cond_Zopp neg (D * 10 ^ E)) 0 neg
  else
    let d := 10 ^ (- E) in
    let n := D * 2 ^ 1074 in
    let q := n / d in
    let r := n mod d in
    let lx := if r =? 0 then loc_Exact else loc_Inexact (2 * r ?= d) in
    binary_round_aux prec emax neg q (-1074) lx.

(** A JSON number literal split into sign, integer digits, fraction
    digits and exponent, with the rest of the input. *)
Definition scan_number (s : string)
    : option (bool * string * string * Z * string) :=
  let '(neg, s) :=
    match s with
    | String "-" s' => (true, s')
    | _ => (false, s)
    end in
  let '(int, s) := span_digits s in
  let int_ok :=
    match int with
    | EmptyString => false
    | String "0" (String _ _) => false
    | _ => true
    end in
  if negb int_ok then None
  else
    let frac_part :=
      match s with
      | String "." s' =>
          let '(fr, s'') := span_digits s' in
          match fr with
          | EmptyString => None
          | _ => Some (fr, s'')
          end
      | _ => Some (EmptyString, s)
      end in
    match frac_part with
    | None => None
    | Some (fr, s) =>
        let exp_of (eneg : bool) (t : string) :=
          let '(ds, r) := span_digits t in
          match ds with
          | EmptyString => None
          | _ => Some (cond_Zopp eneg (digits_value 0 ds), r)
          end in
        let exp_part (t : string) :=
          match t with
          | String "+" t' => exp_of false t'
          | String "-" t' => exp_of true t'
          | _ => exp_of false t
          end in
        match s with
        | String "e" s' | String "E" s' =>
            match exp_part s' with
            | Some (e, r) => Some (neg, int, fr, e, r)
            | None => None
            end
        | _ => Some (neg, int, fr, 0, s)
        end
    end.

(** [strconv.ParseFloat(s, 64)] on a JSON number literal: the nearest
    binary64 number, ties to even, or a range error when that is
    infinite; a literal too small in magnitude gives zero. *)
Definition ParseFloat (s : string) : float64 + error :=
  match scan_number s with
  | Some (neg, int, fr, e, EmptyString) =>
      let f := round_decimal neg (digits_value 0 (int +:+ fr))
                 (e - Z.of_nat (String.length fr)) in
      match f with
      | S754_finite _ _ _ | S754_zero _ => inl f
      | _ => inr "value out of range"
      end
  | _ => inr "invalid syntax"
  end.

(** The number of decimal digits of a positive integer. *)
Definition ndigits (z : Z) : Z := Z.of_nat (String.length (itoa z)).

(** Whether [10^p <= num/den]. *)
Definition ge_pow10 (num den p : Z) : bool :=
  if 0 <=? p then 10 ^ p * den <=? num else den <=? num * 10 ^ (- p).

(** The [p] with [10^(p-1) <= num/den < 10^p]. *)
Definition decimal_point (num den : Z) : Z :=
  let p0 := ndigits num - ndigits den in
  if ge_pow10 num den p0 then p0 + 1 else p0.

(** The integer part of [num/den * 10^k]. *)
Definition scaled_floor (num den k : Z) : Z :=
  if 0 <=? k then (num * 10 ^ k) / den else num / (den * 10 ^ (- k)).

(** How [num/den] compares with [(c + 1/2) * 10^k]. *)
Definition compare_half (num den c k : Z) : comparison :=
  if 0 <=? k then (2 * num ?= (2 * c + 1) * den * 10 ^ k)
  else (2 * num * 10 ^ (- k) ?= (2 * c + 1) * den).

(** The shortest decimal [c * 10^k] that rounds to the positive
    number [f = num/den], by trying [n], [n+1], ... digits; of the two
    candidates of a length the nearer one is taken. *)
Fixpoint shortest (fuel : nat) (n : Z) (f : float64) (num den p : Z) : Z * Z :=
  let k := p - n in
  let lo := scaled_floor num den (- k) in
  let hi := lo + 1 in
  let oklo := SFeqb (round_decimal false lo k) f in
  let okhi := SFeqb (round_decimal false hi k) f in
  match fuel with
  | O => (lo, k)
  | S fuel =>
      match oklo, okhi with
      | true, true =>
          match compare_half num den lo k with
          | Gt => (hi, k)
          | _ => (lo, k)
          end
      | true, false => (lo, k)
      | false, true => (hi, k)
      | false, false => shortest fuel (n + 1) f num den p
      end
  end.

(** Drop the trailing zeros of the digits [c], moving them into the
    exponent. *)
Fixpoint strip_zeros (fuel : nat) (c k : Z) : Z * Z :=
  match fuel with
  | O => (c, k)
  | S fuel => if (c mod 10 =? 0) && negb (c =? 0) then strip_zeros fuel (c / 10) (k + 1) else (c, k)
  end.

(** The shortest digits of a positive finite number and the position
    of the decimal point: the value is [0.d1d2... * 10^dp]. *)
Definition shortest_digits (m : positive) (e : Z) : string * Z :=
  let num := if 0 <=? e then Zpos m * 2 ^ e else Zpos m in
  let den := if 0 <=? e then 1 else 2 ^ (- e) in
  let p := decimal_point num den in
  let '(c, k) := shortest 17 1 (S754_finite false m e) num den p in
  let '(c, k) := strip_zeros 18 c k in
  let ds := itoa c in
  (ds, Z.of_nat (String.length ds) + k).

Fixpoint zeros (n : nat) : string :=
  match n with O => EmptyString | S n => String "0" (zeros n) end.

(** The ['f'] format with the shortest digits. *)
Definition fmtF (neg : bool) (ds : string) (dp : Z) : string :=
  let nd := Z.of_nat (String.length ds) in
  let int :=
    if 0 <? dp then
      let m := Z.min nd dp in
      String.substring 0 (Z.to_nat m) ds +:+ zeros (Z.to_nat (dp - m))
    else "0" in
  let frac :=
    if dp <? nd then
      "." +:+ zeros (Z.to_nat (- dp))
          +:+ String.substring (Z.to_nat (Z.max dp 0)) (Z.to_nat (nd - Z.max dp 0)) ds
    else EmptyString in
  (if neg then "-" else EmptyString) +:+ int +:+ frac.

(** The ['e'] format with the shortest digits. *)
Definition fmtE (neg : bool) (ds : string) (dp : Z) : string :=
  let first := String.substring 0 1 ds in
  let rest := String.substring 1 (String.length ds - 1) ds in
  let exp := dp - 1 in
  let mag := Z.abs exp in
  (if neg then "-" else EmptyString)
  +:+ first
  +:+ (match rest with EmptyString => EmptyString | _ => "." +:+ rest end)
  +:+ "e" +:+ (if exp <? 0 then "-" else "+")
  +:+ (if mag <? 10 then "0" else EmptyString) +:+ itoa mag.

(** [strconv.AppendFloat(nil, f, fmt, -1, 64)] for a finite [f], with
    [fmt] either ['e'] or ['f']. *)
Definition FormatFloat (f : float64) (e_format : bool) : string :=
  match f with
  | S754_zero neg =>
      if e_format then fmtE neg "0" 1 else fmtF neg "0" 1
  | S754_finite neg m e =>
      let '(ds, dp) := shortest_digits m e in
      if e_format then fmtE neg ds dp else fmtF neg ds dp
  | S754_infinity neg => if neg then "-Inf" else "+Inf"
  | S754_nan => "NaN"
  end.

End strconv.

Module utf8.

(** Whether [c] is a byte between [lo] and [hi]. *)
Definition between (c : option ascii) (lo hi : Z) : bool :=
  match c with
  | Some c => (lo <=? code c) && (code c <=? hi)
  | None => false
  end.

(** The length of the well-formed UTF-8 sequence at the start of
    [s], for a first byte of [0x80] or more; [0] when there is none,
    which is when [utf8.DecodeRune] returns [(RuneError, 1)]. *)
Definition sequence_length (s : string) : nat :=
  match s with
  | EmptyString => 0%nat
  | String c0 _ =>
      let b0 := code c0 in
      let c1 := String.get 1 s in
      let c2 := String.get 2 s in
      let c3 := String.get 3 s in
      if (194 <=? b0) && (b0 <=? 223) then
        if between c1 128 191 then 2%nat else 0%nat
      else if (224 <=? b0) && (b0 <=? 239) then
        let lo := if b0 =? 224 then 160 else 128 in
        let hi := if b0 =? 237 then 159 else 191 in
        if between c1 lo hi && between c2 128 191 then 3%nat else 0%nat
      else if (240 <=? b0) && (b0 <=? 244) then
        let lo := if b0 =? 240 then 144 else 128 in
        let hi := if b0 =? 244 then 143 else 191 in
        if between c1 lo hi && between c2 128 191 && between c3 128 191
        then 4%nat else 0%nat
      else 0%nat
  end.

(** U+FFFD in UTF-8. *)
Definition RuneError : string :=
  String (chr 239) (String (chr 191) (String (chr 189) EmptyString)).

(** [utf8.EncodeRune]. *)
Definition EncodeRune (r : Z) : string :=
  if r <? 0 then RuneError
  else if r <=? 127 then String (chr r) EmptyString
  else if r <=? 2047 then
    String (chr (192 + r / 64)) (String (chr (128 + r mod 64)) EmptyString)
  else if (55296 <=? r) && (r <=? 57343) then RuneError
  else if r <=? 65535 then
    String (chr (224 + r / 4096))
      (String (chr (128 + (r / 64) mod 64))
         (String (chr (128 + r mod 64)) EmptyString))
  else if r <=? 1114111 then
    String (chr (240 + r / 262144))
      (String (chr (128 + (r / 4096) mod 64))
         (String (chr (128 + (r / 64) mod 64))
            (String (chr (128 + r mod 64)) EmptyString)))
  else RuneError.

End utf8.

(** [s] without its first [n] bytes. *)
Definition drop_string (n : nat) (s : string) : string :=
  String.substring n (String.length s - n) s.

Definition DQ : ascii := chr 34.

Module json.

Definition isSpace (c : ascii) : bool :=
  let n := code c in (n =? 32) || (n =? 9) || (n =? 13) || (n =? 10).

Fixpoint skip_space (s : string) : string :=
  match s with
  | String c s' => if isSpace c then skip_space s' else s
  | EmptyString => EmptyString
  end.

Definition hex_value (c : ascii) : option Z :=
  let n := code c in
  if (48 <=? n) && (n <=? 57) then Some (n - 48)
  else if (97 <=? n) && (n <=? 102) then Some (n - 87)
  else if (65 <=? n) && (n <=? 70) then Some (n - 55)
  else None.

(** Four hexadecimal digits at the start of [s], as a number. *)
Definition hex4 (s : string) : option (Z * string) :=
  match s with
  | String a (String b (String c (String d rest))) =>
      match hex_value a, hex_value b, hex_value c, hex_value d with
      | Some x, Some y, Some z, Some w =>
          Some (4096 * x + 256 * y + 16 * z + w, rest)
      | _, _, _, _ => None
      end
  | _ => None
  end.

(** [getu4]: the rune of a [\uXXXX] escape at the start of [s]. *)
Definition getu4 (s : string) : option (Z * string) :=
  match s with
  | String "\" (String "u" rest) => hex4 rest
  | _ => None
  end.

(** The byte a one-letter escape stands for. *)
Definition escape_byte (c : ascii) : option ascii :=
  let n := code c in
  if (n =? 34) || (n =? 92) || (n =? 47) then Some c
  else if n =? 98 then Some (chr 8)
  else if n =? 102 then Some (chr 12)
  else if n =? 110 then Some (chr 10)
  else if n =? 114 then Some (chr 13)
  else if n =? 116 then Some (chr 9)
  else None.

(** A string literal from just after its opening quote: the Go
    string it denotes (escapes resolved, ill-formed UTF-8 replaced by
    U+FFFD) and the input after the closing quote. *)
Fixpoint string_literal (fuel : nat) (s : string) : option (string * string) :=
  match fuel with
  | O => None
  | S fuel =>
      match s with
      | EmptyString => None
      | String c rest =>
          let n := code c in
          let more (pre : string) (t : string) :=
            match string_literal fuel t with
            | Some (str, r) => Some (pre +:+ str, r)
            | None => None
            end in
          if n =? 34 then Some (EmptyString, rest)
          else if n =? 92 then
            match rest with
            | EmptyString => None
            | String e rest1 =>
                match escape_byte e with
                | Some b => more (String b EmptyString) rest1
                | None =>
                    if code e =? 117 then
                      match hex4 rest1 with
                      | None => None
                      | Some (rr, rest2) =>
                          if (55296 <=? rr) && (rr <=? 57343) then
                            match getu4 rest2 with
                            | Some (rr1, rest3) =>
                                if (rr <? 56320) && (56320 <=? rr1) && (rr1 <=? 57343)
                                then more (utf8.EncodeRune
                                             (65536 + (rr - 55296) * 1024 + (rr1 - 56320)))
                                          rest3
                                else more utf8.RuneError rest2
                            | None => more utf8.RuneError rest2
                            end
                          else more (utf8.EncodeRune rr) rest2
                      end
                    else None
                end
            end
          else if n <? 32 then None
          else if n <? 128 then more (String c EmptyString) rest
          else
            match utf8.sequence_length s with
            | O => more utf8.RuneError rest
            | size => more (String.substring 0 size s) (drop_string size s)
            end
      end
  end.

(** [maxNestingDepth] of the scanner. *)
Definition maxNestingDepth : Z := 10000.

Definition starts_number (c : ascii) : bool :=
  (code c =? 45) || is_digit c.

(** A JSON value at the start of [s] (after white space), decoded
    the way [json.Unmarshal] stores it in an [interface{}], and the
    input after it.  [depth] counts the arrays and objects open around
    it.  A later duplicate of a key replaces the earlier entry. *)
Fixpoint parse_value (fuel : nat) (depth : Z) (s : string)
    : option (value * string) :=
  match fuel with
  | O => None
  | S fuel =>
      match skip_space s with
      | EmptyString => None
      | String c rest as s1 =>
          if code c =? 123 then
            if maxNestingDepth <? depth + 1 then None
            else
              match skip_space rest with
              | String "}" rest1 => Some (JObject ∅, rest1)
              | _ =>
                  match parse_members fuel (depth + 1) rest ∅ with
                  | Some (m, r) => Some (JObject m, r)
                  | None => None
                  end
              end
          else if code c =? 91 then
            if maxNestingDepth <? depth + 1 then None
            else
              match skip_space rest with
              | String "]" rest1 => Some (JArray [], rest1)
              | _ =>
                  match parse_elements fuel (depth + 1) rest with
                  | Some (l, r) => Some (JArray l, r)
                  | None => None
                  end
              end
          else if code c =? 34 then
            match string_literal (S (String.length rest)) rest with
            | Some (str, r) => Some (JString str, r)
            | None => None
            end
          else if String.prefix "true" s1 then Some (JBool true, drop_string 4 s1)
          else if String.prefix "false" s1 then Some (JBool false, drop_string 5 s1)
          else if String.prefix "null" s1 then Some (JNull, drop_string 4 s1)
          else if starts_number c then
            match strconv.scan_number s1 with
            | Some (neg, int, fr, e, r) =>
                match strconv.ParseFloat
                        (String.substring 0 (String.length s1 - String.length r) s1) with
                | inl f => Some (JNumber f, r)
                | inr _ => None
                end
            | None => None
            end
          else None
      end
  end
with parse_members (fuel : nat) (depth : Z) (s : string) (acc : gmap string value)
    : option (gmap string value * string) :=
  match fuel with
  | O => None
  | S fuel =>
      match skip_space s with
      | String c rest =>
          if code c =? 34 then
            match string_literal (S (String.length rest)) rest with
            | Some (key, rest) =>
                match skip_space rest with
                | String ":" rest =>
                    match parse_value fuel depth rest with
                    | Some (v, rest) =>
                        let acc := <[key := v]> acc in
                        match skip_space rest with
                        | String "," rest => parse_members fuel depth rest acc
                        | String "}" rest => Some (acc, rest)
                        | _ => None
                        end
                    | None => None
                    end
                | _ => None
                end
            | None => None
            end
          else None
      | _ => None
      end
  end
with parse_elements (fuel : nat) (depth : Z) (s : string)
    : option (list value * string) :=
  match fuel with
  | O => None
  | S fuel =>
      match parse_value fuel depth s with
      | Some (v, rest) =>
          match skip_space rest with
          | String "," rest =>
              match parse_elements fuel depth rest with
              | Some (l, r) => Some (v :: l, r)
              | None => None
              end
          | String "]" rest => Some ([v], rest)
          | _ => None
          end
      | None => None
      end
  end.

(** [json.Unmarshal(b, &data)] for a nil [data] of type
    [map[string]interface{}]: the input must be one JSON value between
    white space; an object fills the map, [null] leaves it nil (here
    empty), any other value is an [UnmarshalTypeError], as is a number
    outside the range of [float64]. *)
Definition Unmarshal (b : string) : gmap string value + error :=
  match parse_value (2 * String.length b + 2) 0 b with
  | Some (v, rest) =>
      match skip_space rest with
      | EmptyString =>
          match v with
          | JObject m => inl m
          | JNull => inl ∅
          | _ => inr "json: cannot unmarshal into Go value of type map[string]interface {}"
          end
      | _ => inr "invalid character after top-level value"
      end
  | None => inr "json: invalid input"
  end.


Definition hex : string := "0123456789abcdef".

Definition hex_digit (n : Z) : string :=
  String.substring (Z.to_nat n) 1 hex.

(** [htmlSafeSet]: the ASCII bytes written as they are. *)
Definition htmlSafe (n : Z) : bool :=
  (32 <=? n) && negb ((n =? 34) || (n =? 92) || (n =? 60) || (n =? 62) || (n =? 38)).

(** The body of [appendString] with [escapeHTML] set, between the
    quotes. *)
Fixpoint escape_string (fuel : nat) (src : string) : string :=
  match fuel with
  | O => EmptyString
  | S fuel =>
      match src with
      | EmptyString => EmptyString
      | String c rest =>
          let b := code c in
          if b <? 128 then
            (if htmlSafe b then String c EmptyString
             else if (b =? 92) || (b =? 34) then String "\" (String c EmptyString)
             else if b =? 8 then "\b"
             else if b =? 12 then "\f"
             else if b =? 10 then "\n"
             else if b =? 13 then "\r"
             else if b =? 9 then "\t"
             else "\u00" +:+ hex_digit (b / 16) +:+ hex_digit (b mod 16))
            +:+ escape_string fuel rest
          else
            match utf8.sequence_length src with
            | O => "\ufffd" +:+ escape_string fuel rest
            | size =>
                let seq := String.substring 0 size src in
                (if String.eqb seq (utf8.EncodeRune 8232) then "\u2028"
                 else if String.eqb seq (utf8.EncodeRune 8233) then "\u2029"
                 else seq)
                +:+ escape_string fuel (drop_string size src)
            end
      end
  end.

(** [appendString(dst, src, true)]. *)
Definition appendString (src : string) : string :=
  String DQ (escape_string (String.length src) src) +:+ String DQ EmptyString.

(** The [float64] encoder: [None] for the values JSON cannot
    represent. *)
Definition encodeFloat (f : float64) : option string :=
  match f with
  | S754_infinity _ | S754_nan => None
  | S754_zero _ => Some (strconv.FormatFloat f false)
  | S754_finite _ _ _ =>
      let abs := SFabs f in
      let small := strconv.round_decimal false 1 (-6) in
      let large := strconv.round_decimal false 1 21 in
      if SFltb abs small || negb (SFltb abs large) then
        let b := strconv.FormatFloat f true in
        let n := String.length b in
        (* clean up e-09 to e-9 *)
        if (4 <=? n)%nat
           && String.eqb (String.substring (n - 4) 1 b) "e"
           && (String.eqb (String.substring (n - 3) 1 b) "-"
               || String.eqb (String.substring (n - 3) 1 b) "+")
           && String.eqb (String.substring (n - 2) 1 b) "0"
        then Some (String.substring 0 (n - 2) b +:+ String.substring (n - 1) 1 b)
        else Some b
      else Some (strconv.FormatFloat f false)
  end.

(** Insert a member where its key belongs among members sorted by
    key, byte-wise. *)
Fixpoint insert_member (kv : string * option string) (l : list (string * option string))
    : list (string * option string) :=
  match l with
  | [] => [kv]
  | kv' :: l' =>
      if String.leb (fst kv) (fst kv') then kv :: l
      else kv' :: insert_member kv l'
  end.

Definition sort_members (l : list (string * option string))
    : list (string * option string) :=
  fold_right insert_member [] l.

(** The encodings joined with commas; [None] as soon as one is. *)
Fixpoint join_encoded (l : list (option string)) : option string :=
  match l with
  | [] => Some EmptyString
  | [x] => x
  | x :: l' =>
      match x, join_encoded l' with
      | Some a, Some b => Some (a +:+ "," +:+ b)
      | _, _ => None
      end
  end.

(** The encoding of a decoded value: object members sorted by key,
    no insignificant white space. *)
Fixpoint encode (v : value) : option string :=
  match v with
  | JNull => Some "null"
  | JBool true => Some "true"
  | JBool false => Some "false"
  | JNumber f => encodeFloat f
  | JString s => Some (appendString s)
  | JArray l =>
      match join_encoded (List.map encode l) with
      | Some s => Some ("[" +:+ s +:+ "]")
      | None => None
      end
  | JObject m =>
      let member (kv : string * option string) : option string :=
        match snd kv with
        | Some s => Some (appendString (fst kv) +:+ ":" +:+ s)
        | None => None
        end in
      match join_encoded
              (List.map member (sort_members (map_to_list (encode <$> m)))) with
      | Some s => Some ("{" +:+ s +:+ "}")
      | None => None
      end
  end.

(** [json.Marshal(data)] for [data] of type [map[string]interface{}]. *)
Definition Marshal (data : gmap string value) : string + error :=
  match encode (JObject data) with
  | Some s => inl s
  | None => inr "json: unsupported value"
  end.

(** Whether every number in a decoded value is finite: what
    [json.Unmarshal] produces, and what [json.Marshal] can encode. *)
Definition isFinite (f : float64) : bool :=
  match f with
  | S754_zero _ | S754_finite _ _ _ => true
  | S754_infinity _ | S754_nan => false
  end.

Fixpoint finite (v : value) : bool :=
  match v with
  | JNumber f => isFinite f
  | JArray l => forallb finite l
  | JObject m => forallb snd (map_to_list (finite <$> m))
  | _ => true
  end.

(** The number of nodes of a decoded value. *)
Fixpoint size (v : value) : nat :=
  match v with
  | JArray l => S (list_sum (List.map size l))
  | JObject m => S (list_sum (List.map snd (map_to_list (size <$> m))))
  | _ => 1%nat
  end.

End json.


(** ** Bodies, headers, requests and responses *)

(** A Go call returns, or it panics: reading through a nil interface
    is a nil dereference at run time. *)
Inductive outcome (A : Type) : Type :=
  | Returns (a : A)
  | Panics.

Arguments Returns {A} a.
Arguments Panics {A}.

Section Proxy.

(** A body handed over by the network (the client's request body, the
    upstream's response body) is a stream whose content is only known
    by reading it.  [stream_ReadAll s] is what [io.ReadAll] returns on
    it, bytes and error, together with the stream as the read leaves
    it. *)
Variable stream : Type.
Variable stream_ReadAll : stream -> string * option error * stream.

(** [json.Unmarshal(b, &data)] for [data] of type
    [map[string]interface{}], and [json.Marshal(data)].  The nil map
    left by a JSON [null] is the empty map: the proxy only reads it. *)
Variable json_Unmarshal : string -> gmap string value + error.
Variable json_Marshal : gmap string value -> string + error.

(** An [io.ReadCloser]: a network stream,
    [io.NopCloser(bytes.NewBuffer(b))], or nil.  A client request
    without body has a nil [Body]; [httputil.ReverseProxy] hands every
    request whose content length is 0 to its transport that way. *)
Inductive ReadCloser : Type :=
  | Stream (s : stream)
  | NopCloser_Buffer (b : string)
  | nilReadCloser.

(** [io.ReadAll]: everything up to end of file or the first error.
    A buffer never fails and is empty afterwards; on nil the call of
    [Read] panics. *)
Definition io_ReadAll (r : ReadCloser)
    : outcome (string * option error * ReadCloser) :=
  match r with
  | Stream s =>
      let '(b, err, s') := stream_ReadAll s in Returns (b, err, Stream s')
  | NopCloser_Buffer b => Returns (b, None, NopCloser_Buffer EmptyString)
  | nilReadCloser => Panics
  end.

(** [http.Header]: a map from keys to lists of values, or the nil
    map, [None].  [http.Transport] always makes the header map of a
    response, but a [RoundTripper] need not: the one of the repository's
    test leaves it nil.  The keys the proxy uses (["Content-Type"],
    ["Content-Length"], ["Transfer-Encoding"]) are in canonical form
    already, so the canonicalisation of [Get], [Set] and [Del] is the
    identity on them. *)
Definition Header : Type := option (gmap string (list string)).

(** The map index expression [h[key]]: a nil map has no entry. *)
#[global] Instance Header_lookup : Lookup string (list string) Header :=
  fun key h =>
    match h with
    | Some m => m !! key
    | None => None
    end.

(** [h.Get(key)]: the first value of [key], the empty string when
    there is none or [h] is nil. *)
Definition Header_Get (h : Header) (key : string) : string :=
  match h !! key with
  | Some (v :: _) => v
  | _ => EmptyString
  end.

(** [h.Set(key, val)], an assignment to an entry of the map: on the
    nil map it panics. *)
Definition Header_Set (h : Header) (key val : string) : outcome Header :=
  match h with
  | Some m => Returns (Some (<[key := [val]]> m))
  | None => Panics
  end.

(** [h.Del(key)], a [delete] on the map: nothing to do on the nil
    map. *)
Definition Header_Del (h : Header) (key : string) : Header :=
  match h with
  | Some m => Some (delete key m)
  | None => None
  end.

Record Request : Type := mkRequest {
  Method : string;
  URL : string;
  req_Header : Header;
  req_Body : ReadCloser;
  req_ContentLength : Z
}.

Record Response : Type := mkResponse {
  Status : string;
  StatusCode : Z;
  resp_Header : Header;
  resp_Body : ReadCloser;
  resp_ContentLength : Z
}.

(** The [http.RoundTripper] interface: a response or an error. *)
Definition RoundTripper : Type := Request -> outcome (Response + error).

Variable http_DefaultTransport : RoundTripper.

Record loggingTransport : Type := mkLoggingTransport {
  modelMap : gmap string string;
  filterTextSnapshot : bool;
  Transport : option RoundTripper
}.

Definition transport (t : loggingTransport) : RoundTripper :=
  match Transport t with
  | Some rt => rt
  | None => http_DefaultTransport
  end.

(** [fmt.Sprintf("%d", n)]. *)
Definition Sprintf_d (n : Z) : string := itoa n.

(** ** The SSE line filter *)

Definition skipTextContainingSnapshot (data : gmap string value) : bool :=
  match assert_string (data !! "type") with
  | Some dataType =>
      if String.eqb dataType "text" then
        match data !! "snapshot" with
        | Some snapshot => true
        | None => false
        end
      else false
  | None => false
  end.

(** One iteration of the loop over the lines: [newLines] and
    [modified] before and after. *)
Definition fixStreamingResponse_line
    (st : list string * bool) (line : string) : list string * bool :=
  let '(newLines, modified) := st in
  if negb (strings.HasPrefix line "data: ") then (newLines ++ [line], modified)
  else
    let jsonData := strings.TrimPrefix line "data: " in
    if String.eqb jsonData "[DONE]" || String.eqb jsonData EmptyString then
      (newLines ++ [line], modified)
    else
      match json_Unmarshal jsonData with
      | inr err => (newLines ++ [line], modified)
      | inl data =>
          if skipTextContainingSnapshot data then (newLines, true)
          else (newLines ++ [line], modified)
      end.

(** The loop of [fixStreamingResponse]: the kept lines and whether a
    line was dropped. *)
Definition fixStreamingResponse_loop (lines : list string) : list string * bool :=
  fold_left fixStreamingResponse_line lines ([], false).

Definition fixStreamingResponse (body : string) : string :=
  let lines := strings.Split body LF in
  let '(newLines, modified) := fixStreamingResponse_loop lines in
  if modified then strings.Join newLines nl else body.

(** ** The transport *)

Definition isContentType (contentType expected : string) : bool :=
  strings.Contains contentType expected
  || strings.HasPrefix contentType (expected +:+ ";").

(** [replaceBody] changes [resp] in place: the response as the call
    leaves it, or a panic when the header map is nil, which ends
    [RoundTrip] with nobody left to see the response half changed. *)
Definition replaceBody (resp : Response) (body : string) : outcome Response :=
  let newLen := Z.of_nat (String.length body) in
  match Header_Set (resp_Header resp) "Content-Length" (Sprintf_d newLen) with
  | Panics => Panics
  | Returns h =>
      Returns {| Status := Status resp;
                 StatusCode := StatusCode resp;
                 resp_Header := Header_Del h "Transfer-Encoding";
                 resp_Body := NopCloser_Buffer body;
                 resp_ContentLength := newLen |}
  end.

(** [req.Body = b]. *)
Definition setBody (req : Request) (b : ReadCloser) : Request :=
  {| Method := Method req;
     URL := URL req;
     req_Header := req_Header req;
     req_Body := b;
     req_ContentLength := req_ContentLength req |}.

(** [req.ContentLength = n]. *)
Definition setContentLength (req : Request) (n : Z) : Request :=
  {| Method := Method req;
     URL := URL req;
     req_Header := req_Header req;
     req_Body := req_Body req;
     req_ContentLength := n |}.

(** [resp.Body = b]. *)
Definition setResponseBody (resp : Response) (b : ReadCloser) : Response :=
  {| Status := Status resp;
     StatusCode := StatusCode resp;
     resp_Header := resp_Header resp;
     resp_Body := b;
     resp_ContentLength := resp_ContentLength resp |}.

(** The model remapping of [RoundTrip], from the read of the content
    type to the end of the [if] on method and content type: [req] is
    the request with its body already restored from [body]. *)
Definition remapModel (c : loggingTransport) (req : Request) (body : string)
    : Request :=
  let contentType := Header_Get (req_Header req) "Content-Type" in
  if String.eqb (Method req) "POST"
     && (String.eqb contentType "application/json"
         || strings.HasPrefix contentType "application/json;")
  then
    match json_Unmarshal body with
    | inl data =>
        match assert_string (data !! "model") with
        | Some model =>
            match modelMap c !! model with
            | Some newModel =>
                let data := <["model" := JString newModel]> data in
                match json_Marshal data with
                | inl modifiedBody =>
                    setContentLength
                      (setBody req (NopCloser_Buffer modifiedBody))
                      (Z.of_nat (String.length modifiedBody))
                | inr err => req
                end
            | None => req
            end
        | None => req
        end
    | inr err => req
    end
  else req.

(** The treatment of the response in [RoundTrip], from the test on
    the status code to the final [return resp, nil]. *)
Definition processResponse (c : loggingTransport) (resp : Response)
    : outcome (Response + error) :=
  if (200 <=? StatusCode resp) && (StatusCode resp <? 300) then
    let contentType := Header_Get (resp_Header resp) "Content-Type" in
    if filterTextSnapshot c then
      if isContentType contentType "text/event-stream" then
        match io_ReadAll (resp_Body resp) with
        | Panics => Panics
        | Returns (respBody, Some err, rest) =>
            Returns (inl (setResponseBody resp rest))
        | Returns (respBody, None, _) =>
            let modifiedBody := fixStreamingResponse respBody in
            match replaceBody resp modifiedBody with
            | Panics => Panics
            | Returns resp => Returns (inl resp)
            end
        end
      else Returns (inl resp)
    else Returns (inl resp)
  else if 300 <=? StatusCode resp then
    match io_ReadAll (resp_Body resp) with
    | Panics => Panics
    | Returns (body, Some err, _) => Returns (inr err)
    | Returns (body, None, _) =>
        match replaceBody resp body with
        | Panics => Panics
        | Returns resp => Returns (inl resp)
        end
    end
  else Returns (inl resp).

(** Hand [req] to the underlying transport and treat the response. *)
Definition exchange (c : loggingTransport) (req : Request)
    : outcome (Response + error) :=
  match transport c req with
  | Panics => Panics
  | Returns (inr err) => Returns (inr err)
  | Returns (inl resp) => processResponse c resp
  end.

Definition RoundTrip (c : loggingTransport) (req : Request)
    : outcome (Response + error) :=
  match io_ReadAll (req_Body req) with
  | Panics => Panics
  | Returns (body, Some err, rest) => transport c (setBody req rest)
  | Returns (body, None, _) =>
      let req := setBody req (NopCloser_Buffer body) in
      exchange c (remapModel c req body)
  end.

(** ** The contracts of the specification, in its words *)

(** A [data:] frame is a line that starts with the literal prefix
    ["data: "]; its payload is what follows the prefix. *)
Definition isDataFrame (line : string) : bool :=
  strings.HasPrefix line "data: ".

Definition payload (line : string) : string :=
  strings.TrimPrefix line "data: ".

(** The frames the line filter is specified to remove: [data:] frames
    whose payload is neither the sentinel [[DONE]] nor empty, parses as a
    JSON object, and is matched by the drop predicate. *)
Definition spec_dropped (line : string) : bool :=
  isDataFrame line
  && negb (String.eqb (payload line) "[DONE]" || String.eqb (payload line) EmptyString)
  && match json_Unmarshal (payload line) with
     | inl data => skipTextContainingSnapshot data
     | inr _ => false
     end.

(** The line filter as specified: the lines of the body without the
    dropped frames, joined again. *)
Definition spec_filter (body : string) : string :=
  strings.Join
    (List.filter (fun line => negb (spec_dropped line)) (strings.Split body LF))
    nl.

(** The number of [data:] frames among lines. *)
Definition count_data (lines : list string) : nat :=
  length (List.filter isDataFrame lines).

(** The preconditions of the model remapper: a POST whose content type
    is [application/json], bare or followed by parameters, and whose body
    is a JSON object with a string [model] that is a key of the mapping
    table. *)
Definition remap_applies (c : loggingTransport) (req : Request) (body : string)
    : Prop :=
  Method req = "POST"
  /\ (Header_Get (req_Header req) "Content-Type" = "application/json"
      \/ strings.HasPrefix (Header_Get (req_Header req) "Content-Type")
           "application/json;" = true)
  /\ exists data model newModel,
       json_Unmarshal body = inl data
       /\ data !! "model" = Some (JString model)
       /\ modelMap c !! model = Some newModel.

End Proxy.

Arguments Stream {stream} s.
Arguments NopCloser_Buffer {stream} b.
Arguments nilReadCloser {stream}.
Arguments io_ReadAll {stream} stream_ReadAll r.
Arguments mkRequest {stream}.
Arguments mkResponse {stream}.
Arguments mkLoggingTransport {stream}.
Arguments Method {stream} r.
Arguments URL {stream} r.
Arguments req_Header {stream} r.
Arguments req_Body {stream} r.
Arguments req_ContentLength {stream} r.
Arguments Status {stream} r.
Arguments StatusCode {stream} r.
Arguments resp_Header {stream} r.
Arguments resp_Body {stream} r.
Arguments resp_ContentLength {stream} r.
Arguments modelMap {stream} l.
Arguments filterTextSnapshot {stream} l.
Arguments Transport {stream} l.
Arguments transport {stream} http_DefaultTransport t.
Arguments replaceBody {stream} resp body.
Arguments setBody {stream} req b.
Arguments setContentLength {stream} req n.
Arguments setResponseBody {stream} resp b.
Arguments remapModel {stream} json_Unmarshal json_Marshal c req body.
Arguments processResponse {stream} stream_ReadAll json_Unmarshal c resp.
Arguments exchange {stream} stream_ReadAll json_Unmarshal http_DefaultTransport c req.
Arguments RoundTrip {stream} stream_ReadAll json_Unmarshal json_Marshal
  http_DefaultTransport c req.
Arguments remap_applies {stream} json_Unmarshal c req body.

(** ** The earlier version of the transport

    [main.go] holds two versions of the program.  The earlier
    [loggingTransport] has no filter flag, and its [RoundTrip] hands the
    answer of the upstream back as it is. *)

Section Legacy.

Variable stream : Type.
Variable stream_ReadAll : stream -> string * option error * stream.
Variable json_Unmarshal : string -> gmap string value + error.
Variable json_Marshal : gmap string value -> string + error.
Variable http_DefaultTransport : RoundTripper stream.

Record legacy_loggingTransport : Type := mkLegacyLoggingTransport {
  legacy_modelMap : gmap string string;
  legacy_Transport : option (RoundTripper stream)
}.

Definition legacy_transport (t : legacy_loggingTransport) : RoundTripper stream :=
  match legacy_Transport t with
  | Some rt => rt
  | None => http_DefaultTransport
  end.

Definition legacy_RoundTrip (t : legacy_loggingTransport) (req : Request stream)
    : outcome (Response stream + error) :=
  match io_ReadAll stream_ReadAll (req_Body req) with
  | Panics => Panics
  | Returns (body, Some err, rest) => legacy_transport t (setBody req rest)
  | Returns (body, None, _) =>
      let req := setBody req (NopCloser_Buffer body) in
      let contentType := Header_Get (req_Header req) "Content-Type" in
      let req :=
        if String.eqb (Method req) "POST"
           && (String.eqb contentType "application/json"
               || strings.HasPrefix contentType "application/json;")
        then
          match json_Unmarshal body with
          | inl data =>
              match assert_string (data !! "model") with
              | Some model =>
                  match legacy_modelMap t !! model with
                  | Some newModel =>
                      let data := <["model" := JString newModel]> data in
                      match json_Marshal data with
                      | inl modifiedBody =>
                          setContentLength
                            (setBody req (NopCloser_Buffer modifiedBody))
                            (Z.of_nat (String.length modifiedBody))
                      | inr err => req
                      end
                  | None => req
                  end
              | None => req
              end
          | inr err => req
          end
        else req in
      match legacy_transport t req with
      | Panics => Panics
      | Returns (inr err) => Returns (inr err)
      | Returns (inl resp) => Returns (inl resp)
      end
  end.

End Legacy.

Arguments mkLegacyLoggingTransport {stream}.
Arguments legacy_modelMap {stream} l.
Arguments legacy_Transport {stream} l.
Arguments legacy_transport {stream} http_DefaultTransport t.
Arguments legacy_RoundTrip {stream} stream_ReadAll json_Unmarshal json_Marshal
  http_DefaultTransport t req.

(** The earlier transport with the mapping table and the upstream of
    [c]: what [newProxy] of the earlier version builds from the same
    flags. *)
Definition legacy_of {stream : Type} (c : loggingTransport stream)
    : legacy_loggingTransport stream :=
  {| legacy_modelMap := modelMap c; legacy_Transport := Transport c |}.

(** ** The settings of [Handle]

    [Handle] from the return of the flag parser to the call of
    [newProxy]: [args] is what the parser left over, [baseUrl],
    [modelMappings], [port] and [filterTextSnapshot] are the values of
    the flags. *)

Section Settings.

(** [*url.URL] and [url.Parse]. *)
Variable URL : Type.
Variable url_Parse : string -> URL + error.

(** The loop over [modelMappings], which fills [modelMap]. *)
Fixpoint Handle_modelMap (modelMappings : list string)
    (modelMap : gmap string string) : gmap string string + error :=
  match modelMappings with
  | [] => inl modelMap
  | m :: rest =>
      match strings.SplitN m "=" 2 with
      | [from; to] => Handle_modelMap rest (<[from := to]> modelMap)
      | _ => inr ("invalid model mapping: " +:+ m)
      end
  end.

(** What [newProxy] and [http.ListenAndServe] are called with. *)
Record settings : Type := mkSettings {
  set_target : URL;
  set_modelMap : gmap string string;
  set_filterTextSnapshot : bool;
  set_addr : string
}.

Definition Handle_settings (args : list string) (baseUrl : string)
    (modelMappings : list string) (port : string) (filterTextSnapshot : bool)
    : settings + error :=
  if (0 <? length args)%nat then
    inr ("unrecognized extra arguments: " +:+ strings.Join args " ")
  else if String.eqb baseUrl EmptyString then inr "missing --base-url"
  else
    let port := if String.eqb port EmptyString then "8080" else port in
    match Handle_modelMap modelMappings ∅ with
    | inr err => inr err
    | inl modelMap =>
        match url_Parse baseUrl with
        | inr err => inr ("invalid --base-url: " +:+ err)
        | inl target =>
            inl {| set_target := target;
                   set_modelMap := modelMap;
                   set_filterTextSnapshot := filterTextSnapshot;
                   set_addr := ":" +:+ port |}
        end
    end.

End Settings.

Arguments mkSettings {URL}.
Arguments set_target {URL} s.
Arguments set_modelMap {URL} s.
Arguments set_filterTextSnapshot {URL} s.
Arguments set_addr {URL} s.
Arguments Handle_settings {URL} url_Parse args baseUrl modelMappings port
  filterTextSnapshot.

(** The transport that [newProxy] gives the reverse proxy: the mapping
    table and the filter flag, and no upstream of its own, so that
    [transport] falls back on [http.DefaultTransport]. *)
Definition newProxy_Transport {stream : Type} (modelMap : gmap string string)
    (filterTextSnapshot : bool) : loggingTransport stream :=
  {| modelMap := modelMap;
     filterTextSnapshot := filterTextSnapshot;
     Transport := None |}.

(** ** A concrete runtime

    Streams with a canned outcome, the JSON codec above, and the
    transports of the repository's test. *)

Module Testbed.

(** A stream that delivers [pending] and then ends, or fails with
    [fault]. *)
Record canned : Type := mkCanned {
  pending : string;
  fault : option error
}.

Definition canned_ReadAll (s : canned) : string * option error * canned :=
  (pending s, fault s, {| pending := EmptyString; fault := fault s |}).

(** String literals write an apostrophe for the double quote of JSON. *)
Fixpoint dq (s : string) : string :=
  match s with
  | String c s' => String (if Ascii.eqb c "'" then DQ else c) (dq s')
  | EmptyString => EmptyString
  end.

(** [mockRoundTripper] of the test file: it reads the request body and
    answers with that body under the status code it was given; the
    response it builds has no header map. *)
Definition mockRoundTripper (statusCode : Z) : RoundTripper canned :=
  fun req =>
    match io_ReadAll canned_ReadAll (req_Body req) with
    | Panics => Panics
    | Returns (body, Some err, _) => Returns (inr err)
    | Returns (body, None, _) =>
        Returns (inl {| Status := EmptyString;
                        StatusCode := statusCode;
                        resp_Header := None;
                        resp_Body := NopCloser_Buffer body;
                        resp_ContentLength := 0 |})
    end.

(** An upstream that answers every request with [resp]. *)
Definition answering (resp : Response canned) : RoundTripper canned :=
  fun _ => Returns (inl resp).

(** The mapping table of the test file. *)
Definition testModelMap : gmap string string :=
  {[ "some-dangerous-model" := "less-safe-model" ]}.

Definition testTransport : loggingTransport canned :=
  {| modelMap := testModelMap;
     filterTextSnapshot := false;
     Transport := Some (mockRoundTripper 200) |}.

(** [httptest.NewRequest("POST", "/", body)] with the content type
    set. *)
Definition testRequest (contentType body : string) : Request canned :=
  {| Method := "POST";
     URL := "/";
     req_Header := Some {[ "Content-Type" := [contentType] ]};
     req_Body := Stream {| pending := body; fault := None |};
     req_ContentLength := Z.of_nat (String.length body) |}.

(** The proxy with the given flag in front of an upstream that answers
    with [resp]. *)
Definition proxyBefore (flag : bool) (resp : Response canned)
    : loggingTransport canned :=
  {| modelMap := testModelMap;
     filterTextSnapshot := flag;
     Transport := Some (answering resp) |}.

(** A streaming response with chunked framing. *)
Definition sseResponse (statusCode : Z) (body : canned) : Response canned :=
  {| Status := EmptyString;
     StatusCode := statusCode;
     resp_Header := Some {[ "Content-Type" := ["text/event-stream"];
                            "Transfer-Encoding" := ["chunked"] ]};
     resp_Body := Stream body;
     resp_ContentLength := -1 |}.

(** [RoundTrip] and its parts on the concrete runtime. *)
Definition runRoundTrip (c : loggingTransport canned) (req : Request canned)
    : outcome (Response canned + error) :=
  RoundTrip canned_ReadAll json.Unmarshal json.Marshal
    (mockRoundTripper 200) c req.

Definition runExchange (c : loggingTransport canned) (req : Request canned)
    : outcome (Response canned + error) :=
  exchange canned_ReadAll json.Unmarshal (mockRoundTripper 200) c req.


(** The response of [mockRoundTripper 200] to a request with body
    [body]. *)
Definition echo (body : string) : outcome (Response canned + error) :=
  Returns (inl {| Status := EmptyString; StatusCode := 200; resp_Header := None;
                  resp_Body := NopCloser_Buffer body;
                  resp_ContentLength := 0 |}).

(** A drained stream that had no fault. *)
Definition drained : ReadCloser canned :=
  Stream {| pending := EmptyString; fault := None |}.

(** The cases of the test. *)
Definition dangerousBody : string := dq "{'model':'some-dangerous-model'}".
Definition lessSafeBody : string := dq "{'model':'less-safe-model'}".
Definition otherModelBody : string := dq "{'model':'some-other-model'}".
Definition numberModelBody : string := dq "{'model':123}".
Definition otherFieldBody : string := dq "{'other_field':'some-value'}".
Definition dangerousRequest : Request canned :=
  testRequest "application/json" dangerousBody.
Definition invalidTypeRequest : Request canned :=
  testRequest "application/jsoninvalid" dangerousBody.

(** Two requests that differ in the integer of the field [id]. *)
Definition oddIdBody : string :=
  dq "{'model':'some-dangerous-model','id':9007199254740993}".
Definition evenIdBody : string :=
  dq "{'model':'some-dangerous-model','id':9007199254740992}".
Definition forwardedIdBody : string :=
  dq "{'id':9007199254740992,'model':'less-safe-model'}".

(** A stream of one sentinel frame: nothing for the filter to drop. *)
Definition doneBody : string := "data: [DONE]" +:+ nl.

(** A stream with a text frame that carries a snapshot, and one with
    a text frame that does not. *)
Definition snapshotBody : string :=
  dq "data: {'type':'text','text':'open','snapshot':'open'}" +:+ nl +:+ doneBody.
Definition textBody : string :=
  dq "data: {'type':'text','text':'hi'}" +:+ nl.
Definition snapshotResponse : Response canned :=
  sseResponse 200 {| pending := snapshotBody; fault := None |}.

(** What the proxy makes of [snapshotResponse] with the filter on. *)
Definition filteredResponse : Response canned :=
  {| Status := EmptyString;
     StatusCode := 200;
     resp_Header := Some {[ "Content-Type" := ["text/event-stream"];
                            "Content-Length" := ["13"] ]};
     resp_Body := NopCloser_Buffer doneBody;
     resp_ContentLength := 13 |}.

(** A stream that breaks while it is read. *)
Definition brokenStream : canned :=
  {| pending := "data: "; fault := Some "unexpected EOF" |}.
Definition brokenResponse : Response canned := sseResponse 200 brokenStream.

(** The scenario of the specification: status 404 with a JSON body. *)
Definition notFoundBody : string := dq "{'error':'not found'}".
Definition notFoundResponse : Response canned :=
  {| Status := "404 Not Found";
     StatusCode := 404;
     resp_Header := Some {[ "Content-Type" := ["application/json"];
                            "Transfer-Encoding" := ["chunked"] ]};
     resp_Body := Stream {| pending := notFoundBody; fault := None |};
     resp_ContentLength := -1 |}.



(** An error response whose body breaks while it is read. *)
Definition brokenErrorResponse : Response canned :=
  {| Status := "502 Bad Gateway";
     StatusCode := 502;
     resp_Header := Some ∅;
     resp_Body := Stream brokenStream;
     resp_ContentLength := -1 |}.

(** A request whose body is there but empty, not a POST. *)
Definition getRequest : Request canned :=
  {| Method := "GET";
     URL := "/v1/models";
     req_Header := Some ∅;
     req_Body := Stream {| pending := EmptyString; fault := None |};
     req_ContentLength := -1 |}.

(** The same request as [httputil.ReverseProxy] hands it over when the
    client sent no body: content length 0 and a nil [Body]. *)
Definition bodilessRequest : Request canned :=
  {| Method := "GET";
     URL := "/v1/models";
     req_Header := Some ∅;
     req_Body := nilReadCloser;
     req_ContentLength := 0 |}.

(** A stream of three frames, the first with a snapshot, and its
    text frame without snapshot, alone and decoded. *)
Definition mixedBody : string := snapshotBody +:+ textBody.
Definition textLine : string := dq "data: {'type':'text','text':'hi'}".
Definition textData : gmap string value :=
  {[ "type" := JString "text"; "text" := JString "hi" ]}.

(** [--model] flags: the one of the README, and one whose value holds
    an ["="]. *)
Definition readmeMappings : list string :=
  ["model-alias=actual-model"; "a=b=c"].
Definition readmeModelMap : gmap string string :=
  {[ "model-alias" := "actual-model"; "a" := "b=c" ]}.

(** A stand-in for [url.Parse] that takes every string as it is. *)
Definition keepURL (rawURL : string) : string + error := inl rawURL.

(** The settings of
    [--base-url http://localhost:8081
     --model some-dangerous-model=less-safe-model --model a=b=c]. *)
Definition testSettings : settings string :=
  {| set_target := "http://localhost:8081";
     set_modelMap := {[ "some-dangerous-model" := "less-safe-model";
                        "a" := "b=c" ]};
     set_filterTextSnapshot := false;
     set_addr := ":8080" |}.

End Testbed.

(** ** Decoded values and number literals

    The vocabulary of the round trip of the codec: well-formed UTF-8,
    the values [json.Unmarshal] makes, the literals [json.Marshal]
    writes for numbers, and the rational arithmetic behind the rounding
    of [strconv.ParseFloat]. *)

(** Well-formed UTF-8, what [utf8.ValidString] accepts: ASCII bytes
    and well-formed sequences of two to four bytes. *)
Inductive ValidString : string -> Prop :=
  | Valid_empty : ValidString EmptyString
  | Valid_ascii (c : ascii) (s : string) :
      code c < 128 -> ValidString s -> ValidString (String c s)
  | Valid_sequence (q s : string) :
      q <> EmptyString ->
      utf8.sequence_length q = String.length q ->
      ValidString s -> ValidString (q +:+ s).

(** A string of decimal digits. *)
Fixpoint all_digits (s : string) : bool :=
  match s with
  | EmptyString => true
  | String c s' => is_digit c && all_digits s'
  end.

(** What does not start with a digit ends a run of digits. *)
Definition no_digit_first (t : string) : Prop :=
  match t with
  | EmptyString => True
  | String c _ => is_digit c = false
  end.

(** Where [P/Q] lies between [P/Q] rounded down and the next
    integer. *)
Definition loc_of (P Q : Z) : location :=
  if P mod Q =? 0 then loc_Exact else loc_Inexact (2 * (P mod Q) ?= Q).

(** A shift record stands for the non-negative rational [P/Q]: its
    integer part, whether the rest is at least one half, and whether
    the rest is neither zero nor one half. *)
Definition Rep (mrs : shr_record) (P Q : Z) : Prop :=
  shr_m mrs = P / Q
  /\ shr_r mrs = (Q <=? 2 * (P mod Q))
  /\ shr_s mrs = negb ((P mod Q =? 0) || (2 * (P mod Q) =? Q)).

(** The second half of [binary_round_aux]: the rounded mantissa is
    brought back to 53 bits and the exponent checked. *)
Definition finish (sx : bool) (M e1 : Z) : float64 :=
  let '(mrs, e2) := shr_fexp strconv.prec strconv.emax M e1 loc_Exact in
  match shr_m mrs with
  | Z0 => S754_zero sx
  | Zpos m =>
      if e2 <=? strconv.emax - strconv.prec then S754_finite sx m e2
      else S754_infinity sx
  | _ => S754_nan
  end.

(** [P/Q], in units of [2^-1074], lies strictly within half the gap to
    the neighbours of the number [m * 2^e]: the gap below a power of two
    is half the gap above it. *)
Definition near (m : positive) (e P Q : Z) : Prop :=
  2 * P < (2 * Zpos m + 1) * (2 ^ (e + 1074) * Q)
  /\ if (Zpos m =? 2 ^ 52) && (-1074 <? e)
     then (4 * Zpos m - 1) * (2 ^ (e + 1074) * Q) < 4 * P
     else (2 * Zpos m - 1) * (2 ^ (e + 1074) * Q) < 2 * P.

(** The numerator and the denominator of [D * 10^E], in units of
    [2^-1074]. *)
Definition numerator (D E : Z) : Z := D * 2 ^ 1074 * 10 ^ Z.max E 0.
Definition denominator (E : Z) : Z := 10 ^ Z.max (- E) 0.

(** What may follow a value in the output of [json.Marshal]: the end,
    a comma, or a closing bracket or brace. *)
Definition delimited (rest : string) : Prop :=
  match rest with
  | EmptyString => True
  | String c _ => c = ","%char \/ c = "}"%char \/ c = "]"%char
  end.

(** A number is read back when its literal is scanned up to what
    delimits it and parsed to the number itself. *)
Definition reads_back_number (f : float64) : Prop :=
  exists (lit : string) (c : ascii) (lit' : string),
    json.encodeFloat f = Some lit
    /\ lit = String c lit'
    /\ json.starts_number c = true
    /\ strconv.ParseFloat lit = inl f
    /\ forall rest, delimited rest ->
         exists neg int fr e,
           strconv.scan_number (lit +:+ rest) = Some (neg, int, fr, e, rest).

(** A finite binary64 number in its canonical form. *)
Definition binary64 (f : float64) : Prop :=
  valid_binary strconv.prec strconv.emax f = true /\ json.isFinite f = true.

(** The decoded values: what [json.Unmarshal] makes at depth [d], and
    what [json.Marshal] writes so that it is read back. *)
Fixpoint decoded (v : value) (d : Z) {struct v} : Prop :=
  match v with
  | JNull | JBool _ => True
  | JNumber f => binary64 f
  | JString s => ValidString s
  | JArray l =>
      d + 1 <= json.maxNestingDepth
      /\ fold_right and True (List.map (fun v => decoded v (d + 1)) l)
  | JObject m =>
      d + 1 <= json.maxNestingDepth
      /\ map_Forall (fun k P => ValidString k /\ P)
           ((fun v => decoded v (d + 1)) <$> m)
  end.

(** The parts of [strconv.scan_number], named. *)
Definition int_ok (int : string) : bool :=
  match int with
  | EmptyString => false
  | String "0" (String _ _) => false
  | _ => true
  end.

Definition scan_frac (s : string) : option (string * string) :=
  match s with
  | String "." s' =>
      let '(fr, s'') := span_digits s' in
      match fr with
      | EmptyString => None
      | _ => Some (fr, s'')
      end
  | _ => Some (EmptyString, s)
  end.

Definition scan_exp_of (eneg : bool) (t : string) : option (Z * string) :=
  let '(ds, r) := span_digits t in
  match ds with
  | EmptyString => None
  | _ => Some (cond_Zopp eneg (digits_value 0 ds), r)
  end.

Definition scan_exp_part (t : string) : option (Z * string) :=
  match t with
  | String "+" t' => scan_exp_of false t'
  | String "-" t' => scan_exp_of true t'
  | _ => scan_exp_of false t
  end.

Definition scan_unsigned (neg : bool) (s : string)
    : option (bool * string * string * Z * string) :=
  let '(int, s) := span_digits s in
  if negb (int_ok int) then None
  else
    match scan_frac s with
    | None => None
    | Some (fr, s) =>
        match s with
        | String "e" s' | String "E" s' =>
            match scan_exp_part s' with
            | Some (e, r) => Some (neg, int, fr, e, r)
            | None => None
            end
        | _ => Some (neg, int, fr, 0, s)
        end
    end.

(** A number literal: sign, integer digits, fraction digits and
    exponent. *)
Definition sign_string (neg : bool) : string :=
  if neg then "-" else EmptyString.

Definition frac_string (fr : string) : string :=
  match fr with
  | EmptyString => EmptyString
  | _ => "." +:+ fr
  end.

Definition exp_string (ex : option (bool * string)) : string :=
  match ex with
  | None => EmptyString
  | Some (eneg, ed) => "e" +:+ (if eneg then "-" else "+") +:+ ed
  end.

Definition exp_value (ex : option (bool * string)) : Z :=
  match ex with
  | None => 0
  | Some (eneg, ed) => cond_Zopp eneg (digits_value 0 ed)
  end.

Definition literal (neg : bool) (int fr : string) (ex : option (bool * string))
    : string :=
  sign_string neg +:+ int +:+ frac_string fr +:+ exp_string ex.

(** A well-formed literal. *)
Definition literal_ok (int fr : string) (ex : option (bool * string)) : Prop :=
  all_digits int = true /\ int_ok int = true
  /\ all_digits fr = true
  /\ match ex with
     | None => True
     | Some (_, ed) => all_digits ed = true /\ ed <> EmptyString
     end.

(** The clean-up of the encoder: [e-09] becomes [e-9]. *)
Definition clean_exponent (b : string) : string :=
  let n := String.length b in
  if (4 <=? n)%nat
     && String.eqb (String.substring (n - 4) 1 b) "e"
     && (String.eqb (String.substring (n - 3) 1 b) "-"
         || String.eqb (String.substring (n - 3) 1 b) "+")
     && String.eqb (String.substring (n - 2) 1 b) "0"
  then String.substring 0 (n - 2) b +:+ String.substring (n - 1) 1 b
  else b.

Fixpoint no_e (s : string) : bool :=
  match s with
  | EmptyString => true
  | String c s' => negb (Ascii.eqb c "e") && no_e s'
  end.

(** The encoding of [v] is read, at depth [d] and up to what delimits
    it, as [w]. *)
Definition reads_as (d : Z) (v w : value) : Prop :=
  exists (s : string) (c : ascii) (s' : string),
    json.encode v = Some s
    /\ s = String c s'
    /\ json.isSpace c = false /\ c <> "]"%char /\ c <> "}"%char
    /\ (json.size v <= String.length s)%nat
    /\ forall fuel rest,
         (2 * json.size v <= fuel)%nat -> delimited rest ->
         json.parse_value fuel d (s +:+ rest) = Some (w, rest).

(** The encoding of [v] is read back as [v] itself. *)
Definition reads_back (d : Z) (v : value) : Prop := reads_as d v v.

(** * Properties *)

(** ** Splitting and joining lines *)

Lemma Split_nonempty (s : string) (sep : ascii) : strings.Split s sep <> [].
Proof.
  destruct s as [|c s]; simpl; [discriminate|].
  destruct (Ascii.eqb c sep); [discriminate|].
  destruct (strings.Split s sep); discriminate.
Qed.

Lemma Join_cons_char (c : ascii) (l : string) (ls : list string) (sep : string) :
  strings.Join (String c l :: ls) sep = String c (strings.Join (l :: ls) sep).
Proof. destruct ls; reflexivity. Qed.

Lemma Join_Split (s : string) : strings.Join (strings.Split s LF) nl = s.
Proof.
  induction s as [|c s IH]; simpl; [reflexivity|].
  destruct (Ascii.eqb_spec c LF) as [->|Hc].
  - pose proof (Split_nonempty s LF) as Hne.
    destruct (strings.Split s LF) as [|l ls]; [contradiction|].
    simpl in *. now rewrite IH.
  - pose proof (Split_nonempty s LF) as Hne.
    destruct (strings.Split s LF) as [|l ls]; [contradiction|].
    rewrite Join_cons_char. now rewrite IH.
Qed.

Lemma isLine_cons (c : ascii) (l : string) :
  c <> LF -> isLine l -> isLine (String c l).
Proof.
  unfold isLine. intros Hc Hl. simpl.
  destruct (Ascii.eqb_spec c LF); [contradiction|]. now rewrite Hl.
Qed.

Lemma Split_lines (s : string) : Forall isLine (strings.Split s LF).
Proof.
  induction s as [|c s IH]; simpl.
  - constructor; [reflexivity|constructor].
  - destruct (Ascii.eqb_spec c LF) as [->|Hc].
    + constructor; [reflexivity|exact IH].
    + destruct (strings.Split s LF) as [|l ls].
      * constructor; [|constructor]. apply isLine_cons; [exact Hc|reflexivity].
      * inversion IH; subst. constructor; [|assumption].
        now apply isLine_cons.
Qed.

Lemma Split_app_line (l t : string) :
  isLine l -> strings.Split (l +:+ String LF t) LF = l :: strings.Split t LF.
Proof.
  induction l as [|c l IH]; intros Hl; simpl.
  - reflexivity.
  - unfold isLine in Hl. simpl in Hl.
    destruct (Ascii.eqb_spec c LF) as [->|Hc]; [discriminate|].
    assert (isLine l) as Hl'.
    { unfold isLine. destruct (strings.Split l LF) as [|x xs] eqn:E.
      - now apply Split_nonempty in E.
      - now inversion Hl; subst. }
    now rewrite (IH Hl').
Qed.

Lemma Split_Join (ls : list string) :
  ls <> [] -> Forall isLine ls -> strings.Split (strings.Join ls nl) LF = ls.
Proof.
  induction ls as [|l ls IH]; intros Hne Hall; [contradiction|].
  inversion Hall as [|? ? Hl Hls]; subst.
  destruct ls as [|l' ls].
  - exact Hl.
  - change (strings.Join (l :: l' :: ls) nl)
      with (l +:+ String LF (strings.Join (l' :: ls) nl)).
    rewrite (Split_app_line _ _ Hl). f_equal. now apply IH.
Qed.

(** ** The drop predicate and the line filter *)

(** C2: the drop predicate signals drop exactly when the [type] field
    of the object is the string ["text"] and the object has a field
    named [snapshot], whatever the value of that field; every other
    object is kept. *)
Theorem skipTextContainingSnapshot_iff (data : gmap string value) :
  skipTextContainingSnapshot data = true
  <-> data !! "type" = Some (JString "text") /\ is_Some (data !! "snapshot").
Proof.
  unfold skipTextContainingSnapshot, assert_string.
  destruct (data !! "type") as [[| | |s| |]|] eqn:Ht;
    try (split; [discriminate | intros [? _]; discriminate]).
  destruct (String.eqb_spec s "text") as [->|Hs].
  - destruct (data !! "snapshot") as [v|] eqn:Hsn.
    + split; [intros _; split; [reflexivity|eauto] | reflexivity].
    + split; [discriminate | intros [_ [? ?]]; discriminate].
  - split; [discriminate | intros [Heq _]; congruence].
Qed.

Section LineFilter.

Variable json_Unmarshal : string -> gmap string value + error.

Local Abbreviation dropped := (spec_dropped json_Unmarshal).
Local Abbreviation kept_of lines :=
  (List.filter (fun line => negb (spec_dropped json_Unmarshal line)) lines).

Lemma fixStreamingResponse_line_spec (st : list string * bool) (line : string) :
  fixStreamingResponse_line json_Unmarshal st line
  = if dropped line then (fst st, true) else (fst st ++ [line], snd st).
Proof.
  destruct st as [newLines modified].
  unfold fixStreamingResponse_line, spec_dropped, isDataFrame, payload. simpl.
  destruct (strings.HasPrefix line "data: "); simpl; [|reflexivity].
  destruct (String.eqb (strings.TrimPrefix line "data: ") "[DONE]"
            || String.eqb (strings.TrimPrefix line "data: ") EmptyString);
    simpl; [reflexivity|].
  destruct (json_Unmarshal (strings.TrimPrefix line "data: ")) as [data|err];
    [|reflexivity].
  destruct (skipTextContainingSnapshot data); reflexivity.
Qed.

Lemma fixStreamingResponse_loop_from
    (lines newLines : list string) (modified : bool) :
  fold_left (fixStreamingResponse_line json_Unmarshal) lines (newLines, modified)
  = (newLines ++ kept_of lines, modified || existsb dropped lines).
Proof.
  revert newLines modified.
  induction lines as [|line lines IH]; intros newLines modified;
    cbn [fold_left List.filter existsb].
  - now rewrite app_nil_r, orb_false_r.
  - rewrite fixStreamingResponse_line_spec. cbn [fst snd].
    destruct (dropped line); cbn [negb orb]; rewrite IH.
    + now rewrite orb_true_r.
    + now rewrite <- app_assoc.
Qed.

Lemma fixStreamingResponse_loop_spec (lines : list string) :
  fixStreamingResponse_loop json_Unmarshal lines
  = (kept_of lines, existsb dropped lines).
Proof. unfold fixStreamingResponse_loop. now rewrite fixStreamingResponse_loop_from. Qed.

Lemma kept_all (lines : list string) :
  existsb dropped lines = false -> kept_of lines = lines.
Proof.
  induction lines as [|line lines IH]; simpl; [reflexivity|].
  destruct (dropped line); simpl; [discriminate|].
  intros H. now rewrite IH.
Qed.

Lemma kept_not_dropped (lines : list string) :
  existsb dropped (kept_of lines) = false.
Proof.
  induction lines as [|line lines IH]; simpl; [reflexivity|].
  destruct (dropped line) eqn:E; simpl; [exact IH|]. now rewrite E.
Qed.

Lemma kept_sublist (lines : list string) : sublist (kept_of lines) lines.
Proof.
  induction lines as [|line lines IH]; simpl; [constructor|].
  destruct (dropped line); simpl; now constructor.
Qed.

Lemma kept_count_data (lines : list string) :
  (count_data (kept_of lines) + length (List.filter dropped lines)
   = count_data lines)%nat.
Proof.
  unfold count_data.
  induction lines as [|line lines IH]; simpl; [reflexivity|].
  destruct (dropped line) eqn:E; simpl.
  - assert (isDataFrame line = true) as ->.
    { unfold spec_dropped in E. destruct (isDataFrame line); [reflexivity|discriminate]. }
    simpl. lia.
  - destruct (isDataFrame line); simpl; lia.
Qed.

Lemma fixStreamingResponse_spec (body : string) :
  fixStreamingResponse json_Unmarshal body = spec_filter json_Unmarshal body.
Proof.
  unfold fixStreamingResponse, spec_filter.
  rewrite fixStreamingResponse_loop_spec.
  destruct (existsb dropped (strings.Split body LF)) eqn:E; [reflexivity|].
  rewrite (kept_all _ E). symmetry. apply Join_Split.
Qed.

(** The lines of the filter's output: the kept lines, or the single
    empty line of an empty output when every line was dropped. *)
Lemma fixStreamingResponse_lines (body : string) :
  strings.Split (fixStreamingResponse json_Unmarshal body) LF
  = match kept_of (strings.Split body LF) with
    | [] => [EmptyString]
    | kept => kept
    end.
Proof.
  rewrite fixStreamingResponse_spec. unfold spec_filter.
  destruct (kept_of (strings.Split body LF)) as [|l ls] eqn:E; [reflexivity|].
  apply Split_Join; [discriminate|].
  rewrite <- E. apply List.Forall_forall. intros x Hx.
  apply List.filter_In in Hx as [Hx _].
  exact (proj1 (List.Forall_forall _ _) (Split_lines body) x Hx).
Qed.

(** C1: the output of the line filter is the sequence of the input's
    lines, split on line feeds, without the [data:] frames whose payload
    parses as a JSON object matched by the drop predicate, joined again
    with line feeds: the kept lines are verbatim and in their order, and
    of [N] [data:] frames of which [K] match the output has [N - K]. *)
Theorem fixStreamingResponse_exact (body : string) :
  let lines := strings.Split body LF in
  let kept := kept_of lines in
  let out := fixStreamingResponse json_Unmarshal body in
  out = strings.Join kept nl
  /\ (kept <> [] -> strings.Split out LF = kept)
  /\ sublist kept lines
  /\ (count_data (strings.Split out LF) + length (List.filter dropped lines)
      = count_data lines)%nat.
Proof.
  intros lines kept out. subst lines kept out.
  split; [apply fixStreamingResponse_spec|].
  split.
  { intros Hne. rewrite fixStreamingResponse_lines.
    destruct (kept_of (strings.Split body LF)); [contradiction|reflexivity]. }
  split; [apply kept_sublist|].
  rewrite <- (kept_count_data (strings.Split body LF)).
  rewrite fixStreamingResponse_lines.
  destruct (kept_of (strings.Split body LF)); reflexivity.
Qed.

(** C8: the line filter is idempotent on its own output: filtering the
    bytes it produced gives those bytes back, and the second pass drops
    no line. *)
Theorem fixStreamingResponse_idempotent (body : string) :
  let out := fixStreamingResponse json_Unmarshal body in
  fixStreamingResponse json_Unmarshal out = out
  /\ snd (fixStreamingResponse_loop json_Unmarshal (strings.Split out LF)) = false.
Proof.
  intros out. subst out.
  assert (existsb dropped
            (strings.Split (fixStreamingResponse json_Unmarshal body) LF) = false) as E.
  { rewrite fixStreamingResponse_lines.
    destruct (kept_of (strings.Split body LF)) as [|l ls] eqn:Ek.
    - reflexivity.
    - rewrite <- Ek. apply kept_not_dropped. }
  split.
  - unfold fixStreamingResponse at 1.
    rewrite fixStreamingResponse_loop_spec, E. reflexivity.
  - rewrite fixStreamingResponse_loop_spec. exact E.
Qed.

End LineFilter.

(** ** The codec: what is decoded can be encoded *)

Lemma list_sum_ge (l : list nat) (n : nat) : In n l -> (n <= list_sum l)%nat.
Proof.
  induction l as [|x l IH]; simpl; [contradiction|].
  intros [->|H]; [lia|]. specialize (IH H). lia.
Qed.

Lemma size_element (l : list value) (v : value) :
  In v l -> (json.size v < json.size (JArray l))%nat.
Proof.
  intros H. simpl. apply Nat.lt_succ_r, list_sum_ge, in_map, H.
Qed.

Lemma size_member (m : gmap string value) (k : string) (v : value) :
  m !! k = Some v -> (json.size v < json.size (JObject m))%nat.
Proof.
  intros H. simpl. apply Nat.lt_succ_r, list_sum_ge.
  apply (in_map snd _ (k, json.size v)).
  apply list_elem_of_In, elem_of_map_to_list.
  rewrite lookup_fmap, H. reflexivity.
Qed.

(** Induction on decoded values, through arrays and objects. *)
Lemma value_ind (P : value -> Prop) :
  P JNull ->
  (forall b, P (JBool b)) ->
  (forall f, P (JNumber f)) ->
  (forall s, P (JString s)) ->
  (forall l, (forall v, In v l -> P v) -> P (JArray l)) ->
  (forall m, (forall k v, m !! k = Some v -> P v) -> P (JObject m)) ->
  forall v, P v.
Proof.
  intros Hnull Hbool Hnum Hstr Harr Hobj v.
  remember (json.size v) as n eqn:Hn.
  revert v Hn. induction n as [n IH] using lt_wf_ind. intros v ->.
  destruct v as [|b|f|s|l|m]; auto.
  - apply Harr. intros v Hv. apply (IH (json.size v)); [|reflexivity].
    now apply size_element.
  - apply Hobj. intros k v Hv. apply (IH (json.size v)); [|reflexivity].
    now apply (size_member m k).
Qed.

Lemma finite_object (m : gmap string value) :
  json.finite (JObject m) = true
  <-> forall k v, m !! k = Some v -> json.finite v = true.
Proof.
  cbn [json.finite]. rewrite forallb_forall. split.
  - intros H k v Hkv.
    apply (H (k, json.finite v)).
    apply list_elem_of_In, elem_of_map_to_list.
    now rewrite lookup_fmap, Hkv.
  - intros H [k b] Hin.
    apply list_elem_of_In, elem_of_map_to_list in Hin.
    rewrite lookup_fmap in Hin.
    destruct (m !! k) as [v|] eqn:Hkv; [|discriminate].
    cbn in Hin. injection Hin as <-. now apply (H k).
Qed.

Lemma join_encoded_Some (l : list (option string)) :
  (forall x, In x l -> is_Some x) -> is_Some (json.join_encoded l).
Proof.
  induction l as [|x l IH]; intros H; [now eexists|].
  destruct (H x (or_introl eq_refl)) as [a ->].
  destruct l as [|y l]; [now eexists|].
  destruct IH as [b Hb]; [intros z Hz; apply H; now right|].
  change (json.join_encoded (Some a :: y :: l))
    with (match json.join_encoded (y :: l) with
          | Some b => Some (a +:+ "," +:+ b)
          | None => None
          end).
  rewrite Hb. now eexists.
Qed.

Lemma insert_member_In kv l x :
  In x (json.insert_member kv l) -> x = kv \/ In x l.
Proof.
  induction l as [|kv' l IH]; simpl.
  - intros [<-|[]]. now left.
  - destruct (String.leb (fst kv) (fst kv')); simpl.
    + intros [<-|H]; auto.
    + intros [<-|H]; [auto|]. destruct (IH H); auto.
Qed.

Lemma sort_members_In l x : In x (json.sort_members l) -> In x l.
Proof.
  unfold json.sort_members.
  induction l as [|kv l IH]; simpl; [auto|].
  intros H. apply insert_member_In in H as [->|H]; auto.
Qed.

Lemma encodeFloat_Some (f : float64) :
  json.isFinite f = true -> is_Some (json.encodeFloat f).
Proof.
  destruct f as [s|s| |s m e]; try discriminate; intros _.
  - now eexists.
  - unfold json.encodeFloat.
    destruct (_ || _); [|now eexists].
    destruct (_ && _); now eexists.
Qed.

(** A value whose numbers are finite has an encoding. *)
Lemma encode_Some (v : value) :
  json.finite v = true -> is_Some (json.encode v).
Proof.
  induction v as [|b|f|s|l IH|m IH] using value_ind; intros Hfin.
  - now eexists.
  - destruct b; now eexists.
  - now apply encodeFloat_Some.
  - now eexists.
  - cbn [json.finite] in Hfin. rewrite forallb_forall in Hfin.
    assert (is_Some (json.join_encoded (List.map json.encode l))) as [s Hs].
    { apply join_encoded_Some. intros x Hx.
      apply in_map_iff in Hx as (v & <- & Hv). apply IH; auto. }
    cbn [json.encode]. rewrite Hs. now eexists.
  - rewrite finite_object in Hfin.
    cbn [json.encode].
    match goal with
    | |- is_Some (match ?j with _ => _ end) => assert (is_Some j) as [s Hs]
    end.
    { apply join_encoded_Some. intros x Hx.
      apply in_map_iff in Hx as ([k o] & <- & Hin).
      apply sort_members_In, list_elem_of_In, elem_of_map_to_list in Hin.
      rewrite lookup_fmap in Hin.
      destruct (m !! k) as [v|] eqn:Hkv; [|discriminate].
      cbn in Hin. injection Hin as <-.
      destruct (IH k v Hkv (Hfin k v Hkv)) as [enc Henc].
      cbn. rewrite Henc. now eexists. }
    rewrite Hs. now eexists.
Qed.

Lemma ParseFloat_finite (s : string) (f : float64) :
  strconv.ParseFloat s = inl f -> json.isFinite f = true.
Proof.
  unfold strconv.ParseFloat. intros H.
  repeat case_match; simplify_eq; reflexivity.
Qed.

Lemma finite_insert (acc : gmap string value) (key : string) (v : value) :
  json.finite v = true ->
  (forall k x, acc !! k = Some x -> json.finite x = true) ->
  forall k x, <[key := v]> acc !! k = Some x -> json.finite x = true.
Proof.
  intros Hv Hacc k x. rewrite lookup_insert.
  case_decide; [intros [= <-]; exact Hv | apply Hacc].
Qed.

(** Every number the parser decodes is finite. *)
Lemma parse_finite (fuel : nat) :
  (forall depth s v r,
     json.parse_value fuel depth s = Some (v, r) -> json.finite v = true)
  /\ (forall depth s acc m r,
        (forall k x, acc !! k = Some x -> json.finite x = true) ->
        json.parse_members fuel depth s acc = Some (m, r) ->
        forall k x, m !! k = Some x -> json.finite x = true)
  /\ (forall depth s l r,
        json.parse_elements fuel depth s = Some (l, r) ->
        forall v, In v l -> json.finite v = true).
Proof.
  induction fuel as [|fuel (IHv & IHm & IHe)];
    [repeat split; intros; discriminate|].
  split; [|split].
  - intros depth s v r H. cbn [json.parse_value] in H.
    repeat case_match; simplify_eq; try reflexivity.
    all: try (apply finite_object; eapply IHm; [|eassumption];
              intros k x Hk; now rewrite lookup_empty in Hk).
    all: try (cbn [json.finite]; apply forallb_forall; eapply IHe; eassumption).
    cbn [json.finite]. eapply ParseFloat_finite. eassumption.
  - intros depth s acc m r Hacc H. cbn [json.parse_members] in H.
    repeat case_match; simplify_eq.
    all: try (eapply IHm; [|eassumption]).
    all: apply finite_insert; [|exact Hacc]; eapply IHv; eassumption.
  - intros depth s l r H. cbn [json.parse_elements] in H.
    repeat case_match; simplify_eq.
    all: intros v' [<-|Hin]; [eapply IHv; eassumption|].
    all: try contradiction.
    all: eapply IHe; eassumption.
Qed.

(** What [json.Unmarshal] decodes, [json.Marshal] encodes, also after
    an entry has been set to a string. *)
Lemma Unmarshal_finite (b : string) (data : gmap string value) :
  json.Unmarshal b = inl data ->
  forall k v, data !! k = Some v -> json.finite v = true.
Proof.
  unfold json.Unmarshal. intros H.
  repeat case_match; simplify_eq.
  - intros k v Hk. now rewrite lookup_empty in Hk.
  - apply finite_object.
    eapply (proj1 (parse_finite _)). eassumption.
Qed.

Theorem Marshal_after_Unmarshal
    (b : string) (data : gmap string value) (key s : string) :
  json.Unmarshal b = inl data ->
  exists out, json.Marshal (<[key := JString s]> data) = inl out.
Proof.
  intros H. unfold json.Marshal.
  destruct (encode_Some (JObject (<[key := JString s]> data))) as [out Hout].
  - apply finite_object. apply finite_insert; [reflexivity|].
    exact (Unmarshal_finite b data H).
  - exists out. now rewrite Hout.
Qed.

(** ** The codec: what is encoded is decoded again *)

Lemma string_app_assoc (a b c : string) : (a +:+ b) +:+ c = a +:+ (b +:+ c).
Proof.
  induction a as [|x a IH]; [reflexivity|].
  change (String x ((a +:+ b) +:+ c) = String x (a +:+ (b +:+ c))).
  now rewrite IH.
Qed.

Lemma string_app_nil_r (a : string) : a +:+ EmptyString = a.
Proof.
  induction a as [|x a IH]; [reflexivity|].
  change (String x (a +:+ EmptyString) = String x a). now rewrite IH.
Qed.

Lemma string_app_length (a b : string) :
  String.length (a +:+ b) = (String.length a + String.length b)%nat.
Proof.
  induction a as [|x a IH]; [reflexivity|].
  change (S (String.length (a +:+ b))
          = S (String.length a + String.length b)).
  now rewrite IH.
Qed.

Lemma String_prefix_nil (s : string) : String.prefix EmptyString s = true.
Proof. now destruct s. Qed.

Lemma code_range (c : ascii) : 0 <= code c < 256.
Proof.
  unfold code. pose proof (N_ascii_bounded c) as H. lia.
Qed.

Lemma chr_code (c : ascii) : chr (code c) = c.
Proof. unfold chr, code. rewrite N2Z.id. apply ascii_N_embedding. Qed.

Lemma code_chr (z : Z) : 0 <= z < 256 -> code (chr z) = z.
Proof.
  intros H. unfold chr, code.
  rewrite N_ascii_embedding by lia. lia.
Qed.

Lemma code_inj (c c' : ascii) : code c = code c' -> c = c'.
Proof. intros H. rewrite <- (chr_code c), <- (chr_code c'). now rewrite H. Qed.

Lemma string_app_cons (c : ascii) (s t : string) :
  String c s +:+ t = String c (s +:+ t).
Proof. reflexivity. Qed.

Lemma string_app_nil_l (t : string) : EmptyString +:+ t = t.
Proof. reflexivity. Qed.

Lemma ValidString_app (a b : string) :
  ValidString a -> ValidString b -> ValidString (a +:+ b).
Proof.
  intros Ha Hb. induction Ha as [|c s Hc Hs IH|q s Hq Hl Hs IH].
  - exact Hb.
  - change (String c s +:+ b) with (String c (s +:+ b)). now constructor.
  - rewrite string_app_assoc. now constructor.
Qed.

(** A well-formed sequence is two to four bytes, the first of them
    not ASCII, and it is read the same before any other bytes. *)
Lemma sequence_first (q : string) :
  q <> EmptyString -> utf8.sequence_length q = String.length q ->
  exists c q', q = String c q' /\ 194 <= code c.
Proof.
  intros Hq Hl. destruct q as [|c q']; [contradiction|].
  exists c, q'. split; [reflexivity|].
  unfold utf8.sequence_length in Hl.
  destruct ((194 <=? code c) && (code c <=? 223)) eqn:H2; [lia|].
  destruct ((224 <=? code c) && (code c <=? 239)) eqn:H3; [lia|].
  destruct ((240 <=? code c) && (code c <=? 244)) eqn:H4; [lia|].
  discriminate.
Qed.

Lemma sequence_app (q t : string) :
  q <> EmptyString -> utf8.sequence_length q = String.length q ->
  utf8.sequence_length (q +:+ t) = String.length q
  /\ String.substring 0 (String.length q) (q +:+ t) = q
  /\ drop_string (String.length q) (q +:+ t) = t.
Proof.
  intros Hq Hl.
  assert (forall n s, String.substring 0 n (s +:+ t) = s -> True) as _ by auto.
  assert (forall s, String.substring 0 (String.length s) (s +:+ t) = s) as Hsub.
  { induction s as [|x s IH]; [now destruct t|].
    change (String x s +:+ t) with (String x (s +:+ t)).
    cbn [String.length String.substring]. now rewrite IH. }
  assert (forall s, drop_string (String.length s) (s +:+ t) = t) as Hdrop.
  { unfold drop_string. intros s. rewrite string_app_length.
    replace (String.length s + String.length t - String.length s)%nat
      with (String.length t) by lia.
    induction s as [|x s IH]; [|exact IH].
    change (String.substring 0 (String.length t) t = t).
    clear. induction t as [|y t IH]; [reflexivity|].
    cbn. now rewrite IH. }
  split; [|split; [apply Hsub|apply Hdrop]].
  destruct q as [|c0 [|c1 [|c2 [|c3 [|c4 q]]]]]; try contradiction;
    revert Hl; cbn; repeat case_match; intros;
    try discriminate; try lia; try reflexivity.
  all: rewrite !string_app_cons, string_app_nil_l; cbn;
    repeat match goal with
           | H : _ = true |- _ => rewrite H
           | H : _ = false |- _ => rewrite H
           end; reflexivity.
Qed.

(** One ASCII byte through [appendString] and back. *)
Lemma string_literal_ascii (c : ascii) (fuel n : nat) (s t : string) :
  code c < 128 ->
  json.string_literal (S fuel) (json.escape_string (S n) (String c s) +:+ t)
  = match json.string_literal fuel (json.escape_string n s +:+ t) with
    | Some (str, r) => Some (String c str, r)
    | None => None
    end.
Proof.
  intros Hc.
  destruct c as [[] [] [] [] [] [] [] []];
    try (vm_compute in Hc; discriminate); reflexivity.
Qed.

(** What [appendString] writes for a well-formed sequence: the
    sequence itself, but for U+2028 and U+2029. *)
Lemma escape_string_sequence (q : string) (n : nat) (s : string) :
  q <> EmptyString -> utf8.sequence_length q = String.length q ->
  json.escape_string (S n) (q +:+ s)
  = (if String.eqb q (utf8.EncodeRune 8232) then "\" +:+ "u2028"
     else if String.eqb q (utf8.EncodeRune 8233) then "\" +:+ "u2029"
     else q)
    +:+ json.escape_string n s.
Proof.
  intros Hq Hl.
  destruct (sequence_first q Hq Hl) as (c & q' & -> & Hc).
  destruct (sequence_app (String c q') s Hq Hl) as (Hs1 & Hs2 & Hs3).
  assert ((code c <? 128) = false) as Hasc by (apply Z.ltb_ge; lia).
  rewrite string_app_cons. cbn [json.escape_string]. rewrite Hasc.
  rewrite <- string_app_cons, Hs1.
  change (String.length (String c q')) with (S (String.length q')).
  cbv iota beta zeta.
  change (S (String.length q')) with (String.length (String c q')).
  rewrite Hs2, Hs3. reflexivity.
Qed.

(** One well-formed sequence through [appendString] and back. *)
Lemma string_literal_sequence (q : string) (fuel n : nat) (s t : string) :
  q <> EmptyString -> utf8.sequence_length q = String.length q ->
  json.string_literal (S fuel) (json.escape_string (S n) (q +:+ s) +:+ t)
  = match json.string_literal fuel (json.escape_string n s +:+ t) with
    | Some (str, r) => Some (q +:+ str, r)
    | None => None
    end.
Proof.
  intros Hq Hl. rewrite (escape_string_sequence q n s Hq Hl).
  destruct (sequence_first q Hq Hl) as (c & q' & -> & Hc).
  assert ((code c <? 128) = false) as Hasc by (apply Z.ltb_ge; lia).
  destruct (String.eqb_spec (String c q') (utf8.EncodeRune 8232)) as [->|_];
    [reflexivity|].
  destruct (String.eqb_spec (String c q') (utf8.EncodeRune 8233)) as [->|_];
    [reflexivity|].
  rewrite string_app_assoc.
  destruct (sequence_app (String c q') (json.escape_string n s +:+ t) Hq Hl)
    as (Ht1 & Ht2 & Ht3).
  rewrite string_app_cons in *. cbn [json.string_literal].
  assert ((code c =? 34) = false) as -> by (apply Z.eqb_neq; lia).
  assert ((code c =? 92) = false) as -> by (apply Z.eqb_neq; lia).
  assert ((code c <? 32) = false) as -> by (apply Z.ltb_ge; lia).
  rewrite Hasc, Ht1.
  change (String.length (String c q')) with (S (String.length q')).
  cbv iota beta zeta.
  change (S (String.length q')) with (String.length (String c q')).
  rewrite Ht2, Ht3. reflexivity.
Qed.

(** A well-formed string through [appendString] and back: the
    literal is read as the string, whatever follows its closing
    quote. *)
Lemma string_literal_escape_string (s : string) :
  ValidString s ->
  forall (fuel n : nat) (rest : string),
    (String.length s <= n)%nat ->
    (String.length s < fuel)%nat ->
    json.string_literal fuel (json.escape_string n s +:+ String DQ rest)
    = Some (s, rest).
Proof.
  induction 1 as [|c s Hc Hs IH|q s Hq Hl Hs IH]; intros fuel n rest Hn Hf.
  - destruct fuel as [|fuel]; [cbn in Hf; lia|].
    destruct n; reflexivity.
  - cbn [String.length] in Hn, Hf.
    destruct fuel as [|fuel]; [lia|]. destruct n as [|n]; [lia|].
    rewrite (string_literal_ascii c fuel n s _ Hc).
    rewrite IH by lia. reflexivity.
  - rewrite string_app_length in Hn, Hf.
    destruct (sequence_first q Hq Hl) as (c & q' & Hqq & _).
    assert (0 < String.length q)%nat by (rewrite Hqq; cbn; lia).
    destruct fuel as [|fuel]; [lia|]. destruct n as [|n]; [lia|].
    rewrite (string_literal_sequence q fuel n s _ Hq Hl).
    rewrite IH by lia. reflexivity.
Qed.

(** ** What the decoder makes is well-formed UTF-8 *)

Lemma ValidString_sequence (q : string) :
  q <> EmptyString -> utf8.sequence_length q = String.length q ->
  ValidString q.
Proof.
  intros Hq Hl. rewrite <- (string_app_nil_r q).
  apply Valid_sequence; [exact Hq|exact Hl|constructor].
Qed.

Lemma ValidString_RuneError : ValidString utf8.RuneError.
Proof. apply ValidString_sequence; [discriminate|reflexivity]. Qed.

Lemma ValidString_EncodeRune (r : Z) : ValidString (utf8.EncodeRune r).
Proof.
  unfold utf8.EncodeRune.
  destruct (Z.ltb_spec r 0); [apply ValidString_RuneError|].
  destruct (Z.leb_spec r 127).
  { apply Valid_ascii; [rewrite code_chr; lia|constructor]. }
  destruct (Z.leb_spec r 2047).
  { apply ValidString_sequence; [discriminate|].
    unfold utf8.sequence_length, utf8.between. cbn [String.get Nat.eqb Nat.pred String.length].
    rewrite !code_chr by (Z.to_euclidean_division_equations; lia).
    assert ((194 <=? 192 + r / 64) && (192 + r / 64 <=? 223) = true) as ->.
    { apply andb_true_iff. split; apply Z.leb_le;
        Z.to_euclidean_division_equations; lia. }
    assert ((128 <=? 128 + r mod 64) && (128 + r mod 64 <=? 191) = true) as ->.
    { apply andb_true_iff. split; apply Z.leb_le;
        Z.to_euclidean_division_equations; lia. }
    reflexivity. }
  destruct ((55296 <=? r) && (r <=? 57343)) eqn:Hsur;
    [apply ValidString_RuneError|].
  destruct (Z.leb_spec r 65535).
  { apply ValidString_sequence; [discriminate|].
    unfold utf8.sequence_length, utf8.between. cbn [String.get Nat.eqb Nat.pred String.length].
    rewrite !code_chr by (Z.to_euclidean_division_equations; lia).
    assert ((194 <=? 224 + r / 4096) && (224 + r / 4096 <=? 223) = false) as ->.
    { apply andb_false_iff. right. apply Z.leb_gt.
      Z.to_euclidean_division_equations; lia. }
    assert ((224 <=? 224 + r / 4096) && (224 + r / 4096 <=? 239) = true) as ->.
    { apply andb_true_iff. split; apply Z.leb_le;
        Z.to_euclidean_division_equations; lia. }
    assert (r < 55296 \/ 57343 < r) as Hns.
    { apply andb_false_iff in Hsur as [Hs|Hs]; [left|right];
        [apply Z.leb_gt in Hs|apply Z.leb_gt in Hs]; lia. }
    match goal with
    | |- (if ?b then _ else _) = _ => assert (b = true) as ->; [|reflexivity]
    end.
    apply andb_true_iff. split; apply andb_true_iff; split; apply Z.leb_le.
    - destruct (Z.eqb_spec (224 + r / 4096) 224);
        Z.to_euclidean_division_equations; lia.
    - destruct (Z.eqb_spec (224 + r / 4096) 237);
        Z.to_euclidean_division_equations; lia.
    - Z.to_euclidean_division_equations; lia.
    - Z.to_euclidean_division_equations; lia. }
  destruct (Z.leb_spec r 1114111); [|apply ValidString_RuneError].
  apply ValidString_sequence; [discriminate|].
  unfold utf8.sequence_length, utf8.between. cbn [String.get Nat.eqb Nat.pred String.length].
  rewrite !code_chr by (Z.to_euclidean_division_equations; lia).
  assert ((194 <=? 240 + r / 262144) && (240 + r / 262144 <=? 223) = false) as ->.
  { apply andb_false_iff. right. apply Z.leb_gt.
    Z.to_euclidean_division_equations; lia. }
  assert ((224 <=? 240 + r / 262144) && (240 + r / 262144 <=? 239) = false) as ->.
  { apply andb_false_iff. right. apply Z.leb_gt.
    Z.to_euclidean_division_equations; lia. }
  assert ((240 <=? 240 + r / 262144) && (240 + r / 262144 <=? 244) = true) as ->.
  { apply andb_true_iff. split; apply Z.leb_le;
      Z.to_euclidean_division_equations; lia. }
  match goal with
  | |- (if ?b then _ else _) = _ => assert (b = true) as ->; [|reflexivity]
  end.
  repeat (apply andb_true_iff; split); apply Z.leb_le.
  - destruct (Z.eqb_spec (240 + r / 262144) 240);
      Z.to_euclidean_division_equations; lia.
  - destruct (Z.eqb_spec (240 + r / 262144) 244);
      Z.to_euclidean_division_equations; lia.
  - Z.to_euclidean_division_equations; lia.
  - Z.to_euclidean_division_equations; lia.
  - Z.to_euclidean_division_equations; lia.
  - Z.to_euclidean_division_equations; lia.
Qed.

Lemma escape_byte_ascii (e b : ascii) :
  json.escape_byte e = Some b -> code b < 128.
Proof.
  unfold json.escape_byte. intros H.
  repeat case_match; simplify_eq; try (rewrite code_chr; lia).
  match goal with
  | H : _ || _ = true |- _ =>
      rewrite !orb_true_iff, !Z.eqb_eq in H; lia
  end.
Qed.

Lemma sequence_prefix (s : string) (k : nat) :
  utf8.sequence_length s = S k ->
  String.substring 0 (S k) s <> EmptyString
  /\ utf8.sequence_length (String.substring 0 (S k) s)
     = String.length (String.substring 0 (S k) s).
Proof.
  intros H.
  destruct s as [|c0 [|c1 [|c2 [|c3 s]]]]; destruct k as [|[|[|[|k]]]];
    (split; [try discriminate|]);
    revert H; unfold utf8.sequence_length, utf8.between; simpl;
    repeat case_match; intros; simplify_eq;
    rewrite ?andb_false_r in *; try discriminate; try reflexivity.
  all: now destruct s.
Qed.

(** The strings of the decoder are well-formed UTF-8: what is not is
    replaced by U+FFFD. *)
Lemma string_literal_valid (fuel : nat) :
  forall s str r,
    json.string_literal fuel s = Some (str, r) -> ValidString str.
Proof.
  induction fuel as [|fuel IH]; intros s str r H; [discriminate|].
  cbn [json.string_literal] in H.
  repeat case_match; simplify_eq; try exact Valid_empty.
  all: try (apply ValidString_app;
            [|eapply IH; eassumption]).
  all: try apply ValidString_EncodeRune.
  all: try apply ValidString_RuneError.
  all: try (apply Valid_ascii; [|constructor]).
  all: try (eapply escape_byte_ascii; eassumption).
  all: try (match goal with H : (_ <? 128) = true |- _ => apply Z.ltb_lt in H; exact H end).
  all: try (match goal with
            | H : utf8.sequence_length _ = S _ |- _ =>
                destruct (sequence_prefix _ _ H) as [Hne Hl];
                now apply ValidString_sequence
            end).
Qed.

(** The literal is at least as long as the string. *)
Lemma escape_string_ascii_length (c : ascii) (n : nat) (s : string) :
  code c < 128 ->
  (S (String.length (json.escape_string n s))
   <= String.length (json.escape_string (S n) (String c s)))%nat.
Proof.
  intros Hc.
  assert (exists chunk,
            json.escape_string (S n) (String c s)
            = chunk +:+ json.escape_string n s
            /\ (1 <= String.length chunk)%nat) as (chunk & -> & Hlen).
  { cbn [json.escape_string].
    rewrite (proj2 (Z.ltb_lt _ _) Hc).
    eexists. split; [reflexivity|]. clear n s.
    destruct c as [[] [] [] [] [] [] [] []];
      try (vm_compute in Hc; discriminate); vm_compute; lia. }
  rewrite string_app_length. lia.
Qed.

Lemma escape_string_length (s : string) :
  ValidString s ->
  forall n, (String.length s <= n)%nat ->
    (String.length s <= String.length (json.escape_string n s))%nat.
Proof.
  induction 1 as [|c s Hc Hs IH|q s Hq Hl Hs IH]; intros n Hn.
  - cbn. lia.
  - cbn [String.length] in *. destruct n as [|n]; [lia|].
    pose proof (escape_string_ascii_length c n s Hc).
    specialize (IH n ltac:(lia)). lia.
  - rewrite string_app_length in *.
    destruct (sequence_first q Hq Hl) as (c & q' & Hqq & _).
    assert (0 < String.length q)%nat by (rewrite Hqq; cbn; lia).
    destruct n as [|n]; [lia|].
    rewrite (escape_string_sequence q n s Hq Hl), string_app_length.
    specialize (IH n ltac:(lia)).
    destruct (String.eqb_spec q (utf8.EncodeRune 8232)) as [->|_].
    { change (String.length (utf8.EncodeRune 8232)) with 3%nat in *.
      change (String.length ("\" +:+ "u2028")) with 6%nat. lia. }
    destruct (String.eqb_spec q (utf8.EncodeRune 8233)) as [->|_].
    { change (String.length (utf8.EncodeRune 8233)) with 3%nat in *.
      change (String.length ("\" +:+ "u2029")) with 6%nat. lia. }
    lia.
Qed.

(** ** Any string through [appendString] and back *)

Lemma sequence_length_le (s : string) :
  (utf8.sequence_length s <= String.length s)%nat.
Proof.
  destruct s as [|c0 [|c1 [|c2 [|c3 s]]]];
    unfold utf8.sequence_length, utf8.between; simpl;
    repeat case_match; simpl; try lia; simplify_eq;
    rewrite ?andb_false_r in *; try discriminate.
Qed.

Lemma substring_drop (n : nat) (s : string) :
  (n <= String.length s)%nat ->
  s = String.substring 0 n s +:+ drop_string n s
  /\ String.length (String.substring 0 n s) = n.
Proof.
  unfold drop_string. revert n.
  induction s as [|c s IH]; intros n Hn.
  - cbn in Hn. assert (n = 0%nat) as -> by lia. now split.
  - destruct n as [|n].
    + change (String.substring 0 0 (String c s)) with EmptyString.
      rewrite Nat.sub_0_r.
      assert (forall t, String.substring 0 (String.length t) t = t) as Hall.
      { induction t as [|x t IHt]; [reflexivity|]. cbn. now rewrite IHt. }
      rewrite Hall. now split.
    + cbn [String.length] in Hn. destruct (IH n ltac:(lia)) as [H1 H2].
      cbn [String.substring String.length Nat.sub]. rewrite string_app_cons.
      split; [now rewrite <- H1|]. cbn [String.length]. now rewrite H2.
Qed.

(** One byte that starts no well-formed sequence: written as the
    escape of U+FFFD, read as U+FFFD. *)
Lemma string_literal_invalid (c : ascii) (fuel n : nat) (s t : string) :
  128 <= code c -> utf8.sequence_length (String c s) = 0%nat ->
  json.string_literal (S fuel) (json.escape_string (S n) (String c s) +:+ t)
  = match json.string_literal fuel (json.escape_string n s +:+ t) with
    | Some (str, r) => Some (utf8.RuneError +:+ str, r)
    | None => None
    end
  /\ (S (String.length (json.escape_string n s))
      <= String.length (json.escape_string (S n) (String c s)))%nat.
Proof.
  intros Hc Hl.
  assert ((code c <? 128) = false) as Hasc by (apply Z.ltb_ge; lia).
  cbn [json.escape_string]. rewrite Hasc, Hl. split.
  - reflexivity.
  - rewrite string_app_length. cbn. lia.
Qed.

(** Whatever the string, the literal [appendString] writes for it is
    read back as a string, and it is at least as long. *)
Lemma string_literal_escape_any (n : nat) :
  forall s, (String.length s <= n)%nat ->
    (String.length s <= String.length (json.escape_string n s))%nat
    /\ exists s',
         forall (fuel : nat) (rest : string),
           (String.length s < fuel)%nat ->
           json.string_literal fuel (json.escape_string n s +:+ String DQ rest)
           = Some (s', rest).
Proof.
  induction n as [n IH] using lt_wf_ind. intros s Hn.
  destruct s as [|c t].
  - split; [cbn; lia|]. exists EmptyString. intros fuel rest Hf.
    destruct fuel as [|fuel]; [cbn in Hf; lia|]. now destruct n.
  - cbn [String.length] in Hn. destruct n as [|n]; [lia|].
    destruct (Z.lt_ge_cases (code c) 128) as [Hasc|Hhigh].
    + (* an ASCII byte *)
      destruct (IH n ltac:(lia) t ltac:(lia)) as (Hlen & s' & Hs').
      pose proof (escape_string_ascii_length c n t Hasc) as Hl.
      split; [cbn [String.length]; lia|].
      exists (String c s'). intros fuel rest Hf. cbn [String.length] in Hf.
      destruct fuel as [|fuel]; [lia|].
      rewrite (string_literal_ascii c fuel n t _ Hasc).
      now rewrite Hs' by lia.
    + destruct (utf8.sequence_length (String c t)) as [|k] eqn:Hseq.
      * (* a byte that starts no sequence *)
        destruct (IH n ltac:(lia) t ltac:(lia)) as (Hlen & s' & Hs').
        split.
        { pose proof (proj2 (string_literal_invalid c 0 n t EmptyString Hhigh Hseq)).
          cbn [String.length]. lia. }
        exists (utf8.RuneError +:+ s'). intros fuel rest Hf.
        cbn [String.length] in Hf. destruct fuel as [|fuel]; [lia|].
        rewrite (proj1 (string_literal_invalid c fuel n t _ Hhigh Hseq)).
        now rewrite Hs' by lia.
      * (* a well-formed sequence *)
        pose proof (sequence_length_le (String c t)) as Hle. rewrite Hseq in Hle.
        destruct (sequence_prefix (String c t) k Hseq) as [Hq Hql].
        destruct (substring_drop (S k) (String c t) Hle) as [Hsplit Hqlen].
        set (q := String.substring 0 (S k) (String c t)) in *.
        set (t' := drop_string (S k) (String c t)) in *.
        assert (String.length (String c t)
                = (String.length q + String.length t')%nat) as Hlens
          by (rewrite Hsplit at 1; apply string_app_length).
        cbn [String.length] in Hlens.
        destruct (IH n ltac:(lia) t' ltac:(lia)) as (Hlen & s' & Hs').
        rewrite Hsplit. clearbody q t'.
        split.
        { rewrite (escape_string_sequence q n t' Hq Hql), !string_app_length.
          destruct (String.eqb_spec q (utf8.EncodeRune 8232)) as [->|_].
          { change (String.length (utf8.EncodeRune 8232)) with 3%nat in *.
            change (String.length ("\" +:+ "u2028")) with 6%nat. lia. }
          destruct (String.eqb_spec q (utf8.EncodeRune 8233)) as [->|_].
          { change (String.length (utf8.EncodeRune 8233)) with 3%nat in *.
            change (String.length ("\" +:+ "u2029")) with 6%nat. lia. }
          lia. }
        exists (q +:+ s'). intros fuel rest Hf.
        rewrite string_app_length in Hf.
        destruct fuel as [|fuel]; [lia|].
        rewrite (string_literal_sequence q fuel n t' _ Hq Hql).
        now rewrite Hs' by lia.
Qed.

(** ** The rounding of [strconv.ParseFloat] *)

Lemma fexp_eq (x : Z) :
  fexp strconv.prec strconv.emax x = Z.max (x - 53) (-1074).
Proof. reflexivity. Qed.

Lemma binary_round_aux_finish (sx : bool) (mx ex : Z) (lx : location) :
  binary_round_aux strconv.prec strconv.emax sx mx ex lx
  = let '(mrs, e1) := shr_fexp strconv.prec strconv.emax mx ex lx in
    finish sx (round_nearest_even (shr_m mrs) (loc_of_shr_record mrs)) e1.
Proof. reflexivity. Qed.

Ltac zbool :=
  repeat match goal with
    | |- context [?a =? ?b] => destruct (Z.eqb_spec a b)
    | |- context [?a <=? ?b] => destruct (Z.leb_spec a b)
    | |- context [?a <? ?b] => destruct (Z.ltb_spec a b)
    | |- context [?a ?= ?b] => destruct (Z.compare_spec a b)
    end.

Lemma Rep_of_loc (P Q : Z) :
  0 < Q -> Rep (shr_record_of_loc (P / Q) (loc_of P Q)) P Q.
Proof.
  intros HQ. unfold Rep, loc_of.
  pose proof (Z.mod_pos_bound P Q HQ) as Hr.
  destruct (Z.eqb_spec (P mod Q) 0) as [H0|H0].
  - cbn. repeat split; zbool; try reflexivity; lia.
  - destruct (Z.compare_spec (2 * (P mod Q)) Q); cbn; repeat split;
      zbool; try reflexivity; lia.
Qed.

Lemma shr_1_spec (m : Z) (r s : bool) :
  0 <= m ->
  shr_1 {| shr_m := m; shr_r := r; shr_s := s |}
  = {| shr_m := m / 2; shr_r := Z.odd m; shr_s := r || s |}.
Proof.
  intros Hm. destruct m as [|[p|p|]|]; try lia; cbn [shr_1 Z.odd];
    try reflexivity; f_equal.
  - apply (Z.div_unique _ 2 _ 1); lia.
  - apply (Z.div_unique _ 2 _ 0); lia.
Qed.

Lemma Rep_shr_1 (mrs : shr_record) (P Q : Z) :
  0 <= P -> 0 < Q -> Rep mrs P Q -> Rep (shr_1 mrs) P (Q * 2).
Proof.
  intros HP HQ (Hm & Hr & Hs). destruct mrs as [m r s]. cbn in Hm, Hr, Hs.
  assert (0 <= m) by (subst m; apply Z.div_pos; lia).
  rewrite shr_1_spec by assumption. unfold Rep. cbn.
  pose proof (Z.mod_pos_bound P Q HQ) as Hb.
  pose proof (Z.mod_pos_bound (P / Q) 2 ltac:(lia)) as Hb2.
  rewrite Z.rem_mul_r by lia.
  rewrite <- Z.div_div by lia. rewrite <- Hm in *.
  rewrite Zmod_odd, Hr, Hs.
  destruct (Z.odd m); repeat split; zbool; try reflexivity; lia.
Qed.

Lemma iter_pos_Rep (n : positive) (mrs : shr_record) (P Q : Z) :
  0 <= P -> 0 < Q -> Rep mrs P Q ->
  Rep (SpecFloat.iter_pos shr_1 n mrs) P (Q * 2 ^ Zpos n).
Proof.
  intros HP. revert mrs Q.
  induction n as [n IH|n IH|]; intros mrs Q HQ H; cbn [SpecFloat.iter_pos].
  - replace (Q * 2 ^ Z.pos n~1) with (Q * 2 * 2 ^ Z.pos n * 2 ^ Z.pos n).
    + assert (0 < 2 ^ Z.pos n) by (apply Z.pow_pos_nonneg; lia).
      apply IH; [nia|]. apply IH; [lia|]. now apply Rep_shr_1.
    + rewrite (Pos2Z.inj_xI n).
      replace (2 * Z.pos n + 1) with (1 + Z.pos n + Z.pos n) by lia.
      rewrite !Z.pow_add_r, Z.pow_1_r by lia. ring.
  - replace (Q * 2 ^ Z.pos n~0) with (Q * 2 ^ Z.pos n * 2 ^ Z.pos n).
    + assert (0 < 2 ^ Z.pos n) by (apply Z.pow_pos_nonneg; lia).
      apply IH; [nia|]. now apply IH.
    + rewrite (Pos2Z.inj_xO n).
      replace (2 * Z.pos n) with (Z.pos n + Z.pos n) by lia.
      rewrite !Z.pow_add_r by lia. ring.
  - rewrite Z.pow_1_r. now apply Rep_shr_1.
Qed.

(** Shifting the record of [P/Q] right by [n] bits gives the record
    of [P/(Q*2^n)]. *)
Lemma shr_Rep (P Q ex n : Z) :
  0 <= P -> 0 < Q -> 0 <= n ->
  exists mrs,
    shr (shr_record_of_loc (P / Q) (loc_of P Q)) ex n = (mrs, ex + n)
    /\ Rep mrs P (Q * 2 ^ n).
Proof.
  intros HP HQ Hn. pose proof (Rep_of_loc P Q HQ) as H.
  destruct n as [|n|n]; [| |lia]; cbn [shr].
  - eexists. split; [now rewrite Z.add_0_r|]. now rewrite Z.mul_1_r.
  - eexists. split; [reflexivity|]. now apply iter_pos_Rep.
Qed.

Lemma near_unique (Q m rho M : Z) :
  0 < Q -> 0 <= rho < Q ->
  (2 * M - 1) * Q < 2 * (Q * m + rho) < (2 * M + 1) * Q ->
  (2 * rho < Q /\ m = M) \/ (Q < 2 * rho /\ m + 1 = M).
Proof.
  intros HQ Hrho Hnear.
  assert (m < M - 1 \/ m = M - 1 \/ m = M \/ M < m) as [H|[H|[H|H]]] by lia.
  - exfalso. assert (Q * (M - 1 - m) >= Q) by nia. nia.
  - right. subst m. split; [nia|lia].
  - left. subst m. split; [nia|lia].
  - exfalso. assert (Q * (m - M) >= Q) by nia. nia.
Qed.

(** Rounding to nearest: a record of [P/Q] rounds to the integer [M]
    that [P/Q] is nearer to than one half. *)
Lemma round_Rep (mrs : shr_record) (P Q M : Z) :
  0 < Q -> Rep mrs P Q ->
  (2 * M - 1) * Q < 2 * P < (2 * M + 1) * Q ->
  round_nearest_even (shr_m mrs) (loc_of_shr_record mrs) = M.
Proof.
  intros HQ (Hm & Hr & Hs) Hnear. destruct mrs as [m r s].
  cbn in Hm, Hr, Hs. cbn [shr_m].
  pose proof (Z.mod_pos_bound P Q HQ) as Hb.
  pose proof (Z.div_mod P Q ltac:(lia)) as Hdm. rewrite <- Hm in Hdm.
  rewrite Hdm in Hnear at 1 2.
  destruct (near_unique Q m (P mod Q) M HQ Hb Hnear) as [[H1 H2]|[H1 H2]];
    revert Hr Hs; zbool; intros -> ->; cbn; lia.
Qed.

Lemma Rep_unique (a b : shr_record) (P Q : Z) :
  Rep a P Q -> Rep b P Q -> a = b.
Proof.
  intros (H1 & H2 & H3) (H4 & H5 & H6).
  destruct a, b; cbn in *. congruence.
Qed.

Lemma Rep_scale (mrs : shr_record) (P Q c : Z) :
  0 < Q -> 0 < c -> Rep mrs P Q -> Rep mrs (P * c) (Q * c).
Proof.
  intros HQ Hc (H1 & H2 & H3). unfold Rep.
  rewrite Z.div_mul_cancel_r, Z.mul_mod_distr_r by lia.
  rewrite H1, H2, H3.
  pose proof (Z.mod_pos_bound P Q HQ) as Hb.
  repeat split; zbool; try reflexivity; nia.
Qed.

(** *** The number of bits *)

Lemma digits2_pos_bounds (p : positive) :
  2 ^ (Zpos (digits2_pos p) - 1) <= Zpos p < 2 ^ Zpos (digits2_pos p).
Proof.
  induction p as [p IH|p IH|]; cbn [digits2_pos].
  - rewrite Pos2Z.inj_succ.
    replace (Z.succ (Z.pos (digits2_pos p)) - 1)
      with (Z.succ (Z.pos (digits2_pos p) - 1)) by lia.
    rewrite !Z.pow_succ_r by lia. lia.
  - rewrite Pos2Z.inj_succ.
    replace (Z.succ (Z.pos (digits2_pos p)) - 1)
      with (Z.succ (Z.pos (digits2_pos p) - 1)) by lia.
    rewrite !Z.pow_succ_r by lia. lia.
  - cbn. lia.
Qed.

Lemma Zdigits2_bounds (q : Z) :
  0 < q -> 2 ^ (Zdigits2 q - 1) <= q < 2 ^ Zdigits2 q.
Proof.
  destruct q as [|p|p]; try lia. intros _. apply digits2_pos_bounds.
Qed.

Lemma Zdigits2_pos (q : Z) : 0 < q -> 0 < Zdigits2 q.
Proof. destruct q; cbn; lia. Qed.

Lemma Zdigits2_unique (q d : Z) :
  0 < q -> 2 ^ (d - 1) <= q < 2 ^ d -> Zdigits2 q = d.
Proof.
  intros Hq Hd. pose proof (Zdigits2_bounds q Hq) as Hb.
  pose proof (Zdigits2_pos q Hq) as Hp.
  assert (Zdigits2 q < d \/ Zdigits2 q = d \/ d < Zdigits2 q) as [H|[H|H]]
    by lia; [exfalso|assumption|exfalso].
  - assert (2 ^ Zdigits2 q <= 2 ^ (d - 1)) by (apply Z.pow_le_mono_r; lia).
    lia.
  - assert (0 <= d \/ d < 0) as [Hd0|Hd0] by lia.
    + assert (2 ^ d <= 2 ^ (Zdigits2 q - 1)) by (apply Z.pow_le_mono_r; lia).
      lia.
    + rewrite (Z.pow_neg_r 2 d) in Hd by lia. lia.
Qed.

Lemma Zdigits2_le (q d : Z) : 0 <= d -> 0 <= q < 2 ^ d -> Zdigits2 q <= d.
Proof.
  intros Hd Hq. destruct (Z.eq_dec q 0) as [->|Hne]; [cbn; lia|].
  pose proof (Zdigits2_bounds q ltac:(lia)) as Hb.
  destruct (Z.le_gt_cases (Zdigits2 q) d) as [H|H]; [assumption|exfalso].
  assert (2 ^ d <= 2 ^ (Zdigits2 q - 1)) by (apply Z.pow_le_mono_r; lia).
  lia.
Qed.

(** *** Numbers in canonical form *)

Lemma bounded_spec (m : positive) (e : Z) :
  bounded strconv.prec strconv.emax m e = true
  <-> Z.max (Zpos (digits2_pos m) + e - 53) (-1074) = e /\ e <= 971.
Proof.
  unfold bounded, canonical_mantissa. rewrite andb_true_iff, fexp_eq.
  rewrite Z.eqb_eq, Z.leb_le. reflexivity.
Qed.

(** A number in canonical form: the mantissa has 53 bits, or fewer
    at the least exponent. *)
Lemma bounded_cases (m : positive) (e : Z) :
  bounded strconv.prec strconv.emax m e = true ->
  -1074 <= e <= 971
  /\ Zpos m < 2 ^ 53
  /\ (-1074 < e -> 2 ^ 52 <= Zpos m).
Proof.
  intros H. apply bounded_spec in H as [H1 H2].
  pose proof (digits2_pos_bounds m) as Hb.
  assert (Zpos (digits2_pos m) <= 53) as Hd by lia.
  repeat split; try lia.
  - assert (2 ^ Zpos (digits2_pos m) <= 2 ^ 53) by (apply Z.pow_le_mono_r; lia).
    lia.
  - intros He. assert (Zpos (digits2_pos m) = 53) as Heq by lia.
    rewrite Heq in Hb. exact (proj1 Hb).
Qed.

(** *** The second half of the rounding *)

Lemma shr_fexp_exact_keep (M e1 : Z) :
  0 < M -> Z.max (Zdigits2 M + e1 - 53) (-1074) <= e1 ->
  shr_fexp strconv.prec strconv.emax M e1 loc_Exact
  = ({| shr_m := M; shr_r := false; shr_s := false |}, e1).
Proof.
  intros HM H. unfold shr_fexp. rewrite fexp_eq.
  cbn [shr_record_of_loc]. unfold shr.
  destruct (Z.max (Zdigits2 M + e1 - 53) (-1074) - e1) eqn:E; try reflexivity.
  lia.
Qed.

(** A mantissa that fits is kept. *)
Lemma finish_keep (sx : bool) (m : positive) (e : Z) :
  bounded strconv.prec strconv.emax m e = true ->
  finish sx (Zpos m) e = S754_finite sx m e.
Proof.
  intros H. apply bounded_spec in H as [H1 H2].
  unfold finish. rewrite shr_fexp_exact_keep by (cbn [Zdigits2]; lia).
  cbn [shr_m].
  replace (e <=? strconv.emax - strconv.prec) with true; [reflexivity|].
  symmetry. apply Z.leb_le. exact H2.
Qed.

(** A mantissa rounded up to [2^53] moves to the next exponent. *)
Lemma finish_carry (sx : bool) (e : Z) :
  -1074 <= e -> e + 1 <= 971 ->
  finish sx (2 ^ 53) e = S754_finite sx 4503599627370496 (e + 1).
Proof.
  intros H1 H2. unfold finish, shr_fexp. rewrite fexp_eq.
  change (Zdigits2 (2 ^ 53)) with 54.
  replace (Z.max (54 + e - 53) (-1074) - e) with 1 by lia.
  cbn [shr_record_of_loc shr SpecFloat.iter_pos].
  change (shr_m (shr_1 {| shr_m := 2 ^ 53; shr_r := false; shr_s := false |}))
    with (Zpos 4503599627370496).
  cbv iota beta.
  replace (e + 1 <=? strconv.emax - strconv.prec) with true; [reflexivity|].
  symmetry. apply Z.leb_le. exact H2.
Qed.

(** *** A decimal near a number rounds to it *)

Lemma first_shift (P Q ex n : Z) :
  0 <= P -> 0 < Q -> 0 <= n ->
  Z.max (Zdigits2 (P / Q) + ex - 53) (-1074) - ex = n ->
  exists mrs,
    shr_fexp strconv.prec strconv.emax (P / Q) ex (loc_of P Q)
    = (mrs, ex + n)
    /\ Rep mrs P (Q * 2 ^ n).
Proof.
  intros HP HQ Hn Hd. unfold shr_fexp. rewrite fexp_eq, Hd.
  now apply shr_Rep.
Qed.

Theorem binary_round_aux_near (m : positive) (e P Q : Z) :
  bounded strconv.prec strconv.emax m e = true ->
  0 <= P -> 0 < Q -> near m e P Q ->
  binary_round_aux strconv.prec strconv.emax false (P / Q) (-1074) (loc_of P Q)
  = S754_finite false m e.
Proof.
  intros Hb HP HQ [Hup Hlow].
  pose proof (bounded_cases m e Hb) as (He & Hm53 & Hm52).
  rewrite binary_round_aux_finish.
  assert (0 <= P / Q) as Hq0 by (apply Z.div_pos; lia).
  assert (0 < 2 ^ (e + 1074)) as HT by (apply Z.pow_pos_nonneg; lia).
  change (2 ^ 53) with 9007199254740992 in *.
  change (2 ^ 52) with 4503599627370496 in *.
  destruct (Z.eq_dec e (-1074)) as [->|Hne].
  - (* the least exponent: nothing is shifted out *)
    change (2 ^ (-1074 + 1074)) with 1 in *.
    replace (-1074 <? -1074) with false in Hlow by reflexivity.
    rewrite andb_false_r in Hlow. rewrite Z.mul_1_l in *.
    assert (P / Q < Zpos m + 1) as Hq
      by (apply Z.div_lt_upper_bound; [lia|nia]).
    pose proof (Zdigits2_le (P / Q) 53 ltac:(lia)
                  ltac:(change (2 ^ 53) with 9007199254740992; lia)) as Hd.
    destruct (first_shift P Q (-1074) 0 HP HQ ltac:(lia) ltac:(lia))
      as (mrs & -> & HRep).
    rewrite (round_Rep mrs P (Q * 2 ^ 0) (Zpos m)); [|lia|assumption|].
    + now apply finish_keep.
    + change (2 ^ 0) with 1. lia.
  - assert (4503599627370496 <= Zpos m) as Hm by (apply Hm52; lia).
    remember (e + 1074) as t eqn:Ht.
    remember (2 ^ t) as T eqn:HTeq.
    destruct (Z.le_gt_cases (4503599627370496 * (T * Q)) P) as [Hbig|Hsmall].
    + (* the mantissa has 53 bits at the exponent of the number *)
      assert (0 < T * Q) as HA by nia.
      assert (P < 9007199254740992 * (T * Q)) as Hlt.
      { assert (Zpos m * (T * Q) <= 9007199254740991 * (T * Q))
          by (apply Z.mul_le_mono_nonneg_r; lia).
        lia. }
      assert (Zdigits2 (P / Q) = 53 + t) as Hd.
      { assert (0 < P / Q).
        { apply Z.div_str_pos. split; [lia|]. nia. }
        apply Zdigits2_unique; [assumption|].
        replace (53 + t - 1) with (52 + t) by lia.
        rewrite !Z.pow_add_r by lia. rewrite <- HTeq.
        change (2 ^ 53) with 9007199254740992.
        change (2 ^ 52) with 4503599627370496.
        split.
        - apply Z.div_le_lower_bound; [lia|]. lia.
        - apply Z.div_lt_upper_bound; [lia|]. lia. }
      destruct (first_shift P Q (-1074) t HP HQ ltac:(lia) ltac:(lia))
        as (mrs & -> & HRep).
      rewrite <- HTeq in HRep.
      rewrite (round_Rep mrs P (Q * T) (Zpos m)); [|nia|assumption|].
      * replace (-1074 + t) with e by lia. now apply finish_keep.
      * split; [|lia].
        destruct ((Zpos m =? 4503599627370496) && (-1074 <? e)); lia.
    + (* just below a power of two: one more bit, then a carry *)
      assert (0 < T * Q) as HA by nia.
      destruct (Z.eqb_spec (Zpos m) 4503599627370496) as [Hpow|Hpow];
        cbn [andb] in Hlow.
      2:{ exfalso.
          assert (4503599627370497 * (T * Q) <= Zpos m * (T * Q))
            by (apply Z.mul_le_mono_nonneg_r; lia).
          lia. }
      replace (-1074 <? e) with true in Hlow by (symmetry; apply Z.ltb_lt; lia).
      rewrite Hpow in *.
      assert (T = 2 * 2 ^ (t - 1)) as HT2.
      { rewrite HTeq. replace t with (Z.succ (t - 1)) at 1 by lia.
        rewrite Z.pow_succ_r by lia. reflexivity. }
      remember (2 ^ (t - 1)) as T' eqn:HT'.
      assert (0 < T') as HT'pos by lia.
      assert (0 < T' * Q) as HA' by nia.
      assert (Zdigits2 (P / Q) = 52 + t) as Hd.
      { assert (0 < P / Q).
        { apply Z.div_str_pos. split; [lia|]. nia. }
        apply Zdigits2_unique; [assumption|].
        replace (52 + t - 1) with (52 + (t - 1)) by lia.
        rewrite !Z.pow_add_r by lia. rewrite <- HTeq, <- HT'.
        change (2 ^ 52) with 4503599627370496.
        split.
        - apply Z.div_le_lower_bound; [lia|]. nia.
        - apply Z.div_lt_upper_bound; [lia|]. lia. }
      destruct (first_shift P Q (-1074) (t - 1) HP HQ ltac:(lia) ltac:(lia))
        as (mrs & -> & HRep).
      rewrite <- HT' in HRep.
      rewrite (round_Rep mrs P (Q * T') 9007199254740992); [|nia|assumption|].
      * change 9007199254740992 with (2 ^ 53).
        rewrite finish_carry by lia.
        replace (-1074 + (t - 1) + 1) with e by lia.
        injection Hpow as ->. reflexivity.
      * nia.
Qed.

(** *** Every result of the rounding is in canonical form *)

Lemma round_nearest_even_range (mrs : shr_record) :
  round_nearest_even (shr_m mrs) (loc_of_shr_record mrs) = shr_m mrs
  \/ round_nearest_even (shr_m mrs) (loc_of_shr_record mrs) = shr_m mrs + 1.
Proof.
  destruct mrs as [m [] []]; cbn; auto. destruct (Z.even m); auto.
Qed.

Lemma finish_valid (sx : bool) (M e1 : Z) :
  0 <= M <= 2 ^ 53 -> -1074 <= e1 -> (M < 2 ^ 52 -> e1 = -1074) ->
  valid_binary strconv.prec strconv.emax (finish sx M e1) = true.
Proof.
  intros HM He Hsub.
  change (2 ^ 53) with 9007199254740992 in *.
  change (2 ^ 52) with 4503599627370496 in *.
  assert (M = 0 \/ 0 < M < 9007199254740992 \/ M = 9007199254740992)
    as [-> | [H | ->]] by lia.
  - unfold finish, shr_fexp. rewrite fexp_eq. cbn [Zdigits2 shr_record_of_loc].
    unfold shr. destruct (Z.max (0 + e1 - 53) (-1074) - e1) eqn:E;
      try reflexivity. lia.
  - pose proof (Zdigits2_le M 53 ltac:(lia)
                  ltac:(change (2 ^ 53) with 9007199254740992; lia)) as Hd.
    unfold finish. rewrite shr_fexp_exact_keep by lia. cbn [shr_m].
    destruct M as [|m|m]; try lia.
    destruct (e1 <=? strconv.emax - strconv.prec) eqn:Hle; [|reflexivity].
    cbn [valid_binary]. apply bounded_spec. apply Z.leb_le in Hle.
    split; [|exact Hle]. cbn [Zdigits2] in Hd.
    destruct (Z.lt_ge_cases (Zpos m) 4503599627370496) as [Hlt|Hge].
    + rewrite (Hsub Hlt). lia.
    + pose proof (digits2_pos_bounds m) as Hb.
      assert (Zpos (digits2_pos m) = 53) as ->; [|lia].
      apply (Zdigits2_unique (Zpos m) 53); [lia|].
      change (2 ^ (53 - 1)) with 4503599627370496.
      change (2 ^ 53) with 9007199254740992. lia.
  - unfold finish, shr_fexp. rewrite fexp_eq.
    change (Zdigits2 9007199254740992) with 54.
    replace (Z.max (54 + e1 - 53) (-1074) - e1) with 1 by lia.
    cbn [shr_record_of_loc shr SpecFloat.iter_pos].
    change (shr_m (shr_1 {| shr_m := 9007199254740992; shr_r := false; shr_s := false |}))
      with (Zpos 4503599627370496).
    cbv iota beta.
    destruct (e1 + 1 <=? strconv.emax - strconv.prec) eqn:Hle; [|reflexivity].
    cbn [valid_binary]. apply bounded_spec. apply Z.leb_le in Hle.
    split; [|exact Hle].
    change (Zpos (digits2_pos 4503599627370496)) with 53. lia.
Qed.

Theorem binary_round_aux_valid (sx : bool) (P Q : Z) :
  0 <= P -> 0 < Q ->
  valid_binary strconv.prec strconv.emax
    (binary_round_aux strconv.prec strconv.emax sx (P / Q) (-1074) (loc_of P Q))
  = true.
Proof.
  intros HP HQ. rewrite binary_round_aux_finish.
  assert (0 <= P / Q) as Hq0 by (apply Z.div_pos; lia).
  pose proof (Z.le_max_r (Zdigits2 (P / Q) + -1074 - 53) (-1074)) as Hmax.
  destruct (first_shift P Q (-1074)
              (Z.max (Zdigits2 (P / Q) + -1074 - 53) (-1074) - -1074)
              HP HQ ltac:(lia) eq_refl) as (mrs & -> & HRep).
  remember (Z.max (Zdigits2 (P / Q) + -1074 - 53) (-1074) - -1074) as n eqn:Hn.
  assert (0 < 2 ^ n) as H2n by (apply Z.pow_pos_nonneg; lia).
  pose proof HRep as (Hm & _ & _).
  rewrite <- Z.div_div in Hm by lia.
  change (2 ^ 53) with 9007199254740992 in *.
  change (2 ^ 52) with 4503599627370496 in *.
  apply finish_valid; [|lia|].
  - (* the rounded mantissa has at most 53 bits, or is 2^53 *)
    change (2 ^ 53) with 9007199254740992.
    assert (0 <= shr_m mrs < 9007199254740992) as Hrange.
    { rewrite Hm. split; [apply Z.div_pos; lia|].
      apply Z.div_lt_upper_bound; [lia|].
      destruct (Z.eq_dec (P / Q) 0) as [->|Hne]; [lia|].
      pose proof (Zdigits2_bounds (P / Q) ltac:(lia)) as Hb.
      pose proof (Zdigits2_pos (P / Q) ltac:(lia)) as Hdp.
      destruct (Z.le_gt_cases (Zdigits2 (P / Q)) 53) as [Hd|Hd].
      - assert (2 ^ Zdigits2 (P / Q) <= 2 ^ 53) by (apply Z.pow_le_mono_r; lia).
        change (2 ^ 53) with 9007199254740992 in *. nia.
      - replace n with (Zdigits2 (P / Q) - 53) by lia.
        replace (Zdigits2 (P / Q)) with (53 + (Zdigits2 (P / Q) - 53)) in Hb
          at 2 by lia.
        rewrite Z.pow_add_r in Hb by lia.
        change (2 ^ 53) with 9007199254740992 in *. lia. }
    destruct (round_nearest_even_range mrs) as [-> | ->]; lia.
  - (* a short mantissa only at the least exponent *)
    change (2 ^ 52) with 4503599627370496.
    intros Hshort.
    destruct (Z.le_gt_cases (Zdigits2 (P / Q)) 53) as [Hd|Hd]; [lia|exfalso].
    assert (0 < P / Q) by (destruct (P / Q); cbn in Hd; lia).
    pose proof (Zdigits2_bounds (P / Q) ltac:(lia)) as Hb.
    assert (n = Zdigits2 (P / Q) - 53) as Hn' by lia.
    assert (4503599627370496 <= shr_m mrs).
    { rewrite Hm. apply Z.div_le_lower_bound; [lia|].
      replace (Zdigits2 (P / Q) - 1) with (n + 52) in Hb by lia.
      rewrite Z.pow_add_r in Hb by lia.
      change (2 ^ 52) with 4503599627370496 in *. lia. }
    destruct (round_nearest_even_range mrs) as [Hr|Hr]; rewrite Hr in Hshort; lia.
Qed.

(** *** The same number written with another denominator *)

Lemma loc_of_scale (P Q c : Z) :
  0 < Q -> 0 < c -> loc_of (P * c) (Q * c) = loc_of P Q.
Proof.
  intros HQ Hc. unfold loc_of. rewrite Z.mul_mod_distr_r by lia.
  pose proof (Z.mod_pos_bound P Q HQ) as Hb.
  destruct (Z.eqb_spec (P mod Q) 0) as [->|Hne]; [reflexivity|].
  destruct (Z.eqb_spec (P mod Q * c) 0) as [H0|H0]; [nia|].
  f_equal.
  destruct (Z.compare_spec (2 * (P mod Q)) Q);
    destruct (Z.compare_spec (2 * (P mod Q * c)) (Q * c));
    try reflexivity; nia.
Qed.

Lemma binary_round_aux_scale (sx : bool) (P Q c ex : Z) :
  0 < Q -> 0 < c ->
  binary_round_aux strconv.prec strconv.emax sx (P * c / (Q * c)) ex
    (loc_of (P * c) (Q * c))
  = binary_round_aux strconv.prec strconv.emax sx (P / Q) ex (loc_of P Q).
Proof.
  intros HQ Hc. now rewrite Z.div_mul_cancel_r, loc_of_scale by lia.
Qed.

Lemma binary_round_aux_sign (mx ex : Z) (lx : location) :
  binary_round_aux strconv.prec strconv.emax true mx ex lx
  = SFopp (binary_round_aux strconv.prec strconv.emax false mx ex lx).
Proof.
  unfold binary_round_aux.
  destruct (shr_fexp _ _ mx ex lx) as [mrs e1].
  destruct (shr_fexp _ _ _ e1 loc_Exact) as [mrs2 e2].
  destruct (shr_m mrs2); try reflexivity.
  now destruct (e2 <=? _).
Qed.

(** *** [round_decimal] as one rounding *)

Lemma Zdigits2_shift (q j : Z) :
  0 < q -> 0 <= j -> Zdigits2 (q * 2 ^ j) = Zdigits2 q + j.
Proof.
  intros Hq Hj. pose proof (Zdigits2_bounds q Hq) as Hb.
  pose proof (Zdigits2_pos q Hq) as Hp.
  assert (0 < 2 ^ j) by (apply Z.pow_pos_nonneg; lia).
  apply Zdigits2_unique; [nia|].
  replace (Zdigits2 q + j - 1) with (Zdigits2 q - 1 + j) by lia.
  rewrite !Z.pow_add_r by lia. nia.
Qed.

Lemma iter_xO (x d : positive) :
  Zpos (Pos.iter xO x d) = Zpos x * 2 ^ Zpos d.
Proof.
  induction d as [|d IH] using Pos.peano_ind.
  - cbn [Pos.iter]. rewrite Z.pow_1_r. lia.
  - rewrite Pos.iter_succ, Pos2Z.inj_succ, Z.pow_succ_r by lia.
    rewrite Pos2Z.inj_xO, IH. ring.
Qed.

Lemma loc_of_1 (P : Z) : loc_of P 1 = loc_Exact.
Proof. unfold loc_of. now rewrite Z.mod_1_r. Qed.

(** An integer rounded by [binary_round] is rounded the same way once
    written in units of [2^-1074]. *)
Lemma binary_round_units (sx : bool) (x : positive) :
  binary_round strconv.prec strconv.emax sx x 0
  = binary_round_aux strconv.prec strconv.emax sx
      (Zpos x * 2 ^ 1074) (-1074) loc_Exact.
Proof.
  unfold binary_round. rewrite fexp_eq, Z.add_0_r.
  pose proof (digits2_pos_bounds x) as Hb.
  set (dx := Zpos (digits2_pos x)) in *.
  assert (0 < dx) as Hdx by (unfold dx; lia).
  assert (0 < 2 ^ 1074) as H1074 by (apply Z.pow_pos_nonneg; lia).
  assert (Zdigits2 (Zpos x * 2 ^ 1074) = dx + 1074) as HdR
    by (rewrite Zdigits2_shift by lia; reflexivity).
  rewrite (binary_round_aux_finish _ (Zpos x * 2 ^ 1074)).
  (* the right-hand side *)
  destruct (first_shift (Zpos x * 2 ^ 1074) 1 (-1074) (dx - 53 + 1074))
    as (mrsR & HR & HRepR); [lia|lia|lia| |].
  { rewrite Z.div_1_r, HdR. lia. }
  rewrite Z.div_1_r, loc_of_1 in HR. rewrite HR.
  unfold shl_align.
  destruct (Z.max (dx - 53) (-1074) - 0) as [|d|d] eqn:Hshift;
    cbv iota beta; rewrite ?binary_round_aux_finish.
  - (* exactly 53 bits *)
    destruct (first_shift (Zpos x) 1 0 0) as (mrsL & HL & HRepL);
      [lia|lia|lia| |].
    { rewrite Z.div_1_r. cbn [Zdigits2]. fold dx. lia. }
    rewrite Z.div_1_r, loc_of_1 in HL. rewrite HL.
    replace (0 + 0) with (-1074 + (dx - 53 + 1074)) by lia.
    assert (mrsL = mrsR) as ->; [|reflexivity].
    apply (Rep_unique _ _ (Zpos x * 2 ^ 1074) (1 * 2 ^ (dx - 53 + 1074)));
      [|assumption].
    replace (dx - 53 + 1074) with 1074 by lia.
    replace (1 * 2 ^ 1074) with (1 * 2 ^ 0 * 2 ^ 1074) by (cbn; lia).
    apply Rep_scale; [cbn; lia|lia|assumption].
  - (* more than 53 bits: the right shift of the rounding *)
    destruct (first_shift (Zpos x) 1 0 (dx - 53)) as (mrsL & HL & HRepL);
      [lia|lia|lia| |].
    { rewrite Z.div_1_r. cbn [Zdigits2]. fold dx. lia. }
    rewrite Z.div_1_r, loc_of_1 in HL. rewrite HL.
    replace (0 + (dx - 53)) with (-1074 + (dx - 53 + 1074)) by lia.
    assert (mrsL = mrsR) as ->; [|reflexivity].
    apply (Rep_unique _ _ (Zpos x * 2 ^ 1074) (1 * 2 ^ (dx - 53 + 1074)));
      [|assumption].
    replace (1 * 2 ^ (dx - 53 + 1074)) with (1 * 2 ^ (dx - 53) * 2 ^ 1074)
      by (rewrite (Z.pow_add_r 2 (dx - 53) 1074) by lia; ring).
    assert (0 < 2 ^ (dx - 53)) by (apply Z.pow_pos_nonneg; lia).
    apply Rep_scale; [lia|lia|assumption].
  - (* fewer than 53 bits: the left shift of the alignment *)
    assert (Zpos d = 53 - dx) as Hd by lia.
    assert (0 < 2 ^ Zpos d) by (apply Z.pow_pos_nonneg; lia).
    assert (Zdigits2 (Zpos (Pos.iter xO x d)) = 53) as HdL.
    { rewrite iter_xO, Zdigits2_shift by lia. cbn [Zdigits2]. fold dx. lia. }
    destruct (first_shift (Zpos (Pos.iter xO x d)) 1 (Z.max (dx - 53) (-1074)) 0)
      as (mrsL & HL & HRepL); [lia|lia|lia| |].
    { rewrite Z.div_1_r, HdL. lia. }
    rewrite Z.div_1_r, loc_of_1 in HL. rewrite HL.
    replace (Z.max (dx - 53) (-1074) + 0) with (-1074 + (dx - 53 + 1074)) by lia.
    assert (mrsL = mrsR) as ->; [|reflexivity].
    apply (Rep_unique _ _ (Zpos x * 2 ^ 1074) (1 * 2 ^ (dx - 53 + 1074)));
      [|assumption].
    assert (0 < 2 ^ (dx - 53 + 1074)) by (apply Z.pow_pos_nonneg; lia).
    replace (Zpos x * 2 ^ 1074)
      with (Zpos (Pos.iter xO x d) * 2 ^ (dx - 53 + 1074)).
    + replace (1 * 2 ^ (dx - 53 + 1074))
        with (1 * 2 ^ 0 * 2 ^ (dx - 53 + 1074)) by (cbn; lia).
      apply Rep_scale; [cbn; lia|lia|assumption].
    + rewrite iter_xO, <- Z.mul_assoc, <- Z.pow_add_r by lia.
      f_equal. f_equal. lia.
Qed.

Lemma denominator_pos (E : Z) : 0 < denominator E.
Proof. apply Z.pow_pos_nonneg; lia. Qed.

Lemma numerator_nonneg (D E : Z) : 0 <= D -> 0 <= numerator D E.
Proof.
  intros HD. unfold numerator.
  assert (0 < 2 ^ 1074) by (apply Z.pow_pos_nonneg; lia).
  assert (0 < 10 ^ Z.max E 0) by (apply Z.pow_pos_nonneg; lia).
  nia.
Qed.

Theorem round_decimal_ratio (sx : bool) (D E : Z) :
  0 < D ->
  strconv.round_decimal sx D E
  = binary_round_aux strconv.prec strconv.emax sx
      (numerator D E / denominator E) (-1074)
      (loc_of (numerator D E) (denominator E)).
Proof.
  intros HD. unfold strconv.round_decimal, numerator, denominator.
  destruct (Z.eqb_spec D 0) as [|_]; [lia|].
  destruct (Z.leb_spec 0 E) as [HE|HE].
  - rewrite Z.max_l, Z.max_r by lia. change (10 ^ 0) with 1.
    rewrite Z.div_1_r, loc_of_1.
    assert (0 < 10 ^ E) by (apply Z.pow_pos_nonneg; lia).
    assert (0 < D * 10 ^ E) as HX by nia.
    destruct (D * 10 ^ E) as [|x|x] eqn:HDx; try lia.
    replace (D * 2 ^ 1074 * 10 ^ E) with (Zpos x * 2 ^ 1074) by (rewrite <- HDx; ring).
    destruct sx; cbn [cond_Zopp Z.opp binary_normalize];
      apply binary_round_units.
  - rewrite Z.max_r, Z.max_l by lia. change (10 ^ 0) with 1.
    rewrite Z.mul_1_r. reflexivity.
Qed.

Lemma round_decimal_valid (sx : bool) (D E : Z) :
  0 <= D ->
  valid_binary strconv.prec strconv.emax (strconv.round_decimal sx D E) = true.
Proof.
  intros HD. destruct (Z.eq_dec D 0) as [->|Hne]; [reflexivity|].
  rewrite round_decimal_ratio by lia.
  apply binary_round_aux_valid;
    [apply numerator_nonneg; lia|apply denominator_pos].
Qed.

Lemma round_decimal_sign (D E : Z) :
  0 <= D ->
  strconv.round_decimal true D E = SFopp (strconv.round_decimal false D E).
Proof.
  intros HD. destruct (Z.eq_dec D 0) as [->|Hne]; [reflexivity|].
  rewrite !round_decimal_ratio by lia. apply binary_round_aux_sign.
Qed.

(** Moving a factor ten between the digits and the exponent does not
    change the number. *)
Lemma round_decimal_shift (sx : bool) (D E : Z) :
  0 <= D ->
  strconv.round_decimal sx (D * 10) (E - 1) = strconv.round_decimal sx D E.
Proof.
  intros HD. destruct (Z.eq_dec D 0) as [->|Hne]; [reflexivity|].
  rewrite !round_decimal_ratio by lia.
  unfold numerator, denominator.
  destruct (Z.le_gt_cases 1 E) as [HE|HE].
  - rewrite (Z.max_l E 0), (Z.max_l (E - 1) 0), (Z.max_r (- E) 0),
      (Z.max_r (- (E - 1)) 0) by lia.
    replace (D * 10 * 2 ^ 1074 * 10 ^ (E - 1)) with (D * 2 ^ 1074 * 10 ^ E);
      [reflexivity|].
    replace E with (Z.succ (E - 1)) at 1 by lia.
    rewrite Z.pow_succ_r by lia. ring.
  - rewrite (Z.max_r E 0), (Z.max_r (E - 1) 0), (Z.max_l (- E) 0),
      (Z.max_l (- (E - 1)) 0) by lia.
    change (10 ^ 0) with 1.
    replace (- (E - 1)) with (Z.succ (- E)) by lia.
    rewrite Z.pow_succ_r by lia.
    assert (0 < 10 ^ (- E)) by (apply Z.pow_pos_nonneg; lia).
    replace (D * 10 * 2 ^ 1074 * 1) with (D * 2 ^ 1074 * 1 * 10) by ring.
    replace (10 * 10 ^ (- E)) with (10 ^ (- E) * 10) by ring.
    apply binary_round_aux_scale; lia.
Qed.

(** ** Decimal digits *)

Lemma is_digit_code (c : ascii) : is_digit c = true -> 0 <= code c - 48 <= 9.
Proof. unfold is_digit. rewrite andb_true_iff, !Z.leb_le. lia. Qed.

Lemma digits_value_app (acc : Z) (s t : string) :
  digits_value acc (s +:+ t) = digits_value (digits_value acc s) t.
Proof.
  revert acc. induction s as [|c s IH]; intros acc.
  - now rewrite string_app_nil_l.
  - rewrite string_app_cons. cbn [digits_value]. apply IH.
Qed.

Lemma digits_value_acc (acc : Z) (s : string) :
  digits_value acc s = acc * 10 ^ Z.of_nat (String.length s) + digits_value 0 s.
Proof.
  revert acc. induction s as [|c s IH]; intros acc.
  - cbn. lia.
  - cbn [digits_value String.length]. rewrite IH, (IH (10 * 0 + _)).
    rewrite Nat2Z.inj_succ, Z.pow_succ_r by lia. ring.
Qed.

Lemma digits_value_bound (s : string) :
  all_digits s = true -> 0 <= digits_value 0 s < 10 ^ Z.of_nat (String.length s).
Proof.
  induction s as [|c s IH]; intros H.
  - cbn. lia.
  - cbn [all_digits] in H. apply andb_true_iff in H as [Hc Hs].
    apply is_digit_code in Hc. specialize (IH Hs).
    cbn [digits_value String.length]. rewrite digits_value_acc.
    rewrite Nat2Z.inj_succ, Z.pow_succ_r by lia.
    assert (0 < 10 ^ Z.of_nat (String.length s)) by (apply Z.pow_pos_nonneg; lia).
    nia.
Qed.

Lemma digits_value_lower (c : ascii) (s : string) :
  all_digits (String c s) = true -> c <> "0"%char ->
  10 ^ Z.of_nat (String.length s) <= digits_value 0 (String c s).
Proof.
  intros H Hc. cbn [all_digits] in H. apply andb_true_iff in H as [Hd Hs].
  pose proof (digits_value_bound s Hs) as Hb.
  cbn [digits_value]. rewrite digits_value_acc.
  assert (1 <= code c - 48).
  { apply is_digit_code in Hd.
    assert (code c - 48 <> 0); [|lia].
    intros H0. apply Hc. apply code_inj. change (code "0") with 48. lia. }
  assert (0 < 10 ^ Z.of_nat (String.length s)) by (apply Z.pow_pos_nonneg; lia).
  nia.
Qed.

Lemma digits_value_zeros (acc : Z) (n : nat) :
  digits_value acc (strconv.zeros n) = acc * 10 ^ Z.of_nat n.
Proof.
  revert acc. induction n as [|n IH]; intros acc.
  - cbn. lia.
  - cbn [strconv.zeros digits_value]. rewrite IH.
    rewrite Nat2Z.inj_succ, Z.pow_succ_r by lia.
    change (code "0" - 48) with 0. ring.
Qed.

Lemma all_digits_app (s t : string) :
  all_digits (s +:+ t) = all_digits s && all_digits t.
Proof.
  induction s as [|c s IH].
  - now rewrite string_app_nil_l.
  - rewrite string_app_cons. cbn [all_digits]. now rewrite IH, andb_assoc.
Qed.

Lemma all_digits_zeros (n : nat) : all_digits (strconv.zeros n) = true.
Proof. induction n as [|n IH]; [reflexivity|exact IH]. Qed.

Lemma zeros_length (n : nat) : String.length (strconv.zeros n) = n.
Proof. induction n as [|n IH]; [reflexivity|]. cbn. now rewrite IH. Qed.

Lemma span_digits_app (s t : string) :
  all_digits s = true -> no_digit_first t -> span_digits (s +:+ t) = (s, t).
Proof.
  intros Hs Ht. induction s as [|c s IH].
  - rewrite string_app_nil_l. destruct t as [|c t]; [reflexivity|].
    cbn in Ht. cbn. now rewrite Ht.
  - cbn [all_digits] in Hs. apply andb_true_iff in Hs as [Hc Hs].
    rewrite string_app_cons. cbn [span_digits]. now rewrite Hc, IH.
Qed.

(** *** [itoa] *)

Lemma string_of_uint_digits (d : Decimal.uint) :
  all_digits (NilEmpty.string_of_uint d) = true.
Proof. induction d; cbn; auto. Qed.

Lemma digits_value_of_uint_acc (d : Decimal.uint) (acc : positive) :
  digits_value (Zpos acc) (NilEmpty.string_of_uint d)
  = Zpos (Pos.of_uint_acc d acc).
Proof.
  revert acc.
  induction d as [|d IH|d IH|d IH|d IH|d IH|d IH|d IH|d IH|d IH|d IH];
    intros acc; cbn [NilEmpty.string_of_uint digits_value Pos.of_uint_acc];
    [reflexivity|..];
    match goal with
    | |- digits_value ?a _ = _ =>
        match goal with
        | |- _ = Zpos (Pos.of_uint_acc _ ?b) =>
            replace a with (Zpos b)
              by (match goal with
                  | |- context [code ?ch] =>
                      let v := eval vm_compute in (code ch) in
                      change (code ch) with v
                  end; lia)
        end
    end; apply IH.
Qed.

Lemma digits_value_of_uint (d : Decimal.uint) :
  digits_value 0 (NilEmpty.string_of_uint d) = Z.of_N (Pos.of_uint d).
Proof.
  induction d as [|d IH|d IH|d IH|d IH|d IH|d IH|d IH|d IH|d IH|d IH];
    cbn [NilEmpty.string_of_uint digits_value Pos.of_uint];
    [reflexivity|exact IH|..];
    match goal with
    | |- digits_value ?a _ = Z.of_N (Npos (Pos.of_uint_acc _ ?b)) =>
        change a with (Zpos b)
    end; apply digits_value_of_uint_acc.
Qed.

Lemma itoa_pos (p : positive) :
  itoa (Zpos p) = NilEmpty.string_of_uint (Pos.to_uint p).
Proof. reflexivity. Qed.

Lemma to_uint_head (p : positive) (d : Decimal.uint) : Pos.to_uint p <> Decimal.D0 d.
Proof.
  pose proof (Unsigned.to_of (Pos.to_uint p)) as H.
  rewrite Unsigned.of_to in H. cbn [N.to_uint] in H.
  assert (Decimal.nzhead (Pos.to_uint p) <> Decimal.Nil) as Hnz.
  { intros Hnil. apply (Unsigned.to_uint_nonzero p). rewrite H.
    now apply unorm_0. }
  rewrite (unorm_nzhead _ Hnz) in H. rewrite H. apply nzhead_nonzero.
Qed.

(** The decimal form of a positive integer: digits, the first of them
    not zero, and the integer is their value. *)
Lemma itoa_spec (z : Z) :
  0 < z ->
  exists (c : ascii) (s : string),
    itoa z = String c s
    /\ all_digits (String c s) = true
    /\ c <> "0"%char
    /\ digits_value 0 (String c s) = z.
Proof.
  intros Hz. destruct z as [|p|p]; try lia. rewrite itoa_pos.
  pose proof (string_of_uint_digits (Pos.to_uint p)) as Hd.
  pose proof (digits_value_of_uint (Pos.to_uint p)) as Hv.
  rewrite Unsigned.of_to in Hv. cbn [Z.of_N] in Hv.
  pose proof (to_uint_head p) as Hh.
  pose proof (Unsigned.to_uint_nonnil p) as Hn.
  destruct (Pos.to_uint p) as [|d|d|d|d|d|d|d|d|d|d];
    [contradiction|exfalso; now apply (Hh d)|..];
    cbn [NilEmpty.string_of_uint] in *; eexists _, _;
    (split; [reflexivity|]); (split; [exact Hd|]); (split; [discriminate|exact Hv]).
Qed.

Lemma ndigits_bounds (z : Z) :
  0 < z -> 10 ^ (strconv.ndigits z - 1) <= z < 10 ^ strconv.ndigits z.
Proof.
  intros Hz. destruct (itoa_spec z Hz) as (c & s & Heq & Hd & Hc & Hv).
  unfold strconv.ndigits. rewrite Heq. cbn [String.length].
  rewrite Nat2Z.inj_succ.
  replace (Z.succ (Z.of_nat (String.length s)) - 1)
    with (Z.of_nat (String.length s)) by lia.
  pose proof (digits_value_lower c s Hd Hc) as Hl.
  pose proof (digits_value_bound (String c s) Hd) as Hb.
  cbn [String.length] in Hb. rewrite Nat2Z.inj_succ in Hb. lia.
Qed.

(** *** The shortest digits *)

Lemma SFeqb_finite (x : float64) (m : positive) (e : Z) :
  SFeqb x (S754_finite false m e) = true <-> x = S754_finite false m e.
Proof.
  split.
  - unfold SFeqb, SFcompare.
    destruct x as [s|s| |s m' e']; try (destruct s; discriminate).
    + discriminate.
    + destruct s; [discriminate|].
      destruct (Z.compare_spec e' e) as [->|?|?]; try discriminate.
      destruct (Pos.compare_cont Eq m' m) eqn:Hc; try discriminate.
      apply Pos.compare_eq in Hc. now subst.
  - intros ->. unfold SFeqb, SFcompare.
    now rewrite Z.compare_refl, Pos.compare_cont_refl.
Qed.

Section Shortest.

Variables (m : positive) (e : Z).
Hypothesis Hbounded : bounded strconv.prec strconv.emax m e = true.

Let f : float64 := S754_finite false m e.
Let num : Z := if 0 <=? e then Zpos m * 2 ^ e else Zpos m.
Let den : Z := if 0 <=? e then 1 else 2 ^ (- e).

Lemma num_den :
  0 < num /\ 0 < den /\ num * 2 ^ 1074 = Zpos m * 2 ^ (e + 1074) * den.
Proof.
  pose proof (bounded_cases m e Hbounded) as (He & _ & _).
  unfold num, den. destruct (Z.leb_spec 0 e) as [H|H].
  - assert (0 < 2 ^ e) by (apply Z.pow_pos_nonneg; lia).
    repeat split; try lia. rewrite Z.pow_add_r by lia. ring.
  - assert (0 < 2 ^ (- e)) by (apply Z.pow_pos_nonneg; lia).
    repeat split; try lia.
    replace 1074 with (e + 1074 + - e) at 1 by lia.
    rewrite (Z.pow_add_r 2 (e + 1074) (- e)) by lia. ring.
Qed.

Lemma scaled_floor_ratio (k : Z) :
  strconv.scaled_floor num den (- k)
  = (num * 10 ^ Z.max (- k) 0) / (den * 10 ^ Z.max k 0).
Proof.
  unfold strconv.scaled_floor. destruct (Z.leb_spec 0 (- k)) as [H|H].
  - rewrite (Z.max_l (- k) 0), (Z.max_r k 0) by lia.
    change (10 ^ 0) with 1. now rewrite Z.mul_1_r.
  - rewrite (Z.max_r (- k) 0), (Z.max_l k 0) by lia.
    change (10 ^ 0) with 1. rewrite Z.mul_1_r.
    now replace (- - k) with k by lia.
Qed.

Lemma ge_pow10_ratio (k : Z) :
  strconv.ge_pow10 num den (k + 16) = true ->
  10 ^ 16 * (den * 10 ^ Z.max k 0) <= num * 10 ^ Z.max (- k) 0.
Proof.
  destruct num_den as (Hnum & Hden & _).
  unfold strconv.ge_pow10.
  destruct (Z.leb_spec 0 (k + 16)) as [H|H]; rewrite Z.leb_le; intros Hle.
  - destruct (Z.le_gt_cases 0 k) as [Hk|Hk].
    + rewrite (Z.max_l k 0), (Z.max_r (- k) 0) by lia.
      change (10 ^ 0) with 1. rewrite Z.pow_add_r in Hle by lia. lia.
    + rewrite (Z.max_r k 0), (Z.max_l (- k) 0) by lia.
      change (10 ^ 0) with 1.
      assert (0 < 10 ^ (- k)) by (apply Z.pow_pos_nonneg; lia).
      replace (10 ^ 16) with (10 ^ (k + 16) * 10 ^ (- k))
        by (rewrite <- Z.pow_add_r by lia; f_equal; lia).
      nia.
  - rewrite (Z.max_r k 0), (Z.max_l (- k) 0) by lia.
    change (10 ^ 0) with 1.
    replace (- k) with (- (k + 16) + 16) by lia.
    rewrite Z.pow_add_r by lia.
    assert (0 < 10 ^ 16) by (apply Z.pow_pos_nonneg; lia).
    nia.
Qed.

(** The position of the decimal point is not too high:
    [10^(p-1) <= f]. *)
Lemma decimal_point_lower :
  strconv.ge_pow10 num den (strconv.decimal_point num den - 1) = true.
Proof.
  destruct num_den as (Hnum & Hden & _).
  unfold strconv.decimal_point.
  set (p0 := strconv.ndigits num - strconv.ndigits den).
  destruct (strconv.ge_pow10 num den p0) eqn:Hge.
  - now replace (p0 + 1 - 1) with p0 by lia.
  - pose proof (ndigits_bounds num Hnum) as [Hn _].
    pose proof (ndigits_bounds den Hden) as [_ Hd].
    assert (0 < strconv.ndigits num).
    { unfold strconv.ndigits. destruct (itoa_spec num Hnum) as (c & s & -> & _).
      cbn [String.length]. lia. }
    assert (0 < strconv.ndigits den).
    { unfold strconv.ndigits. destruct (itoa_spec den Hden) as (c & s & -> & _).
      cbn [String.length]. lia. }
    unfold strconv.ge_pow10.
    destruct (Z.leb_spec 0 (p0 - 1)) as [Hp|Hp]; apply Z.leb_le.
    + replace (strconv.ndigits num - 1) with (p0 - 1 + strconv.ndigits den) in Hn
        by (unfold p0; lia).
      rewrite Z.pow_add_r in Hn by lia.
      assert (0 < 10 ^ (p0 - 1)) by (apply Z.pow_pos_nonneg; lia).
      nia.
    + assert (10 ^ strconv.ndigits den
              = 10 ^ (strconv.ndigits num - 1) * 10 ^ (- (p0 - 1))) as Heq.
      { rewrite <- Z.pow_add_r by lia. f_equal. unfold p0. lia. }
      assert (0 < 10 ^ (- (p0 - 1))) by (apply Z.pow_pos_nonneg; lia).
      nia.
Qed.

(** With seventeen digits, the decimal below the number or the one
    above it rounds to the number. *)
Lemma seventeen_digits (k : Z) :
  strconv.ge_pow10 num den (k + 16) = true ->
  let lo := strconv.scaled_floor num den (- k) in
  0 < lo
  /\ (near m e (numerator lo k) (denominator k)
      \/ near m e (numerator (lo + 1) k) (denominator k)).
Proof.
  intros Hge lo.
  destruct num_den as (Hnum & Hden & Hratio).
  pose proof (bounded_cases m e Hbounded) as (He & Hm53 & Hm52).
  pose proof (ge_pow10_ratio k Hge) as Hk.
  unfold lo. rewrite scaled_floor_ratio.
  unfold near, numerator, denominator.
  set (a := 10 ^ Z.max (- k) 0) in *.
  set (b := 10 ^ Z.max k 0) in *.
  assert (0 < a) as Ha by (apply Z.pow_pos_nonneg; lia).
  assert (0 < b) as Hb by (apply Z.pow_pos_nonneg; lia).
  assert (0 < 2 ^ 1074) as HW by (apply Z.pow_pos_nonneg; lia).
  assert (0 < 2 ^ (e + 1074)) as HT by (apply Z.pow_pos_nonneg; lia).
  set (W := 2 ^ 1074) in *. set (T := 2 ^ (e + 1074)) in *.
  set (L := num * a / (den * b)).
  assert (0 < den * b) as HB by nia.
  pose proof (Z.mul_div_le (num * a) (den * b) HB) as HL1. fold L in HL1.
  pose proof (Z.mul_succ_div_gt (num * a) (den * b) HB) as HL2. fold L in HL2.
  change (10 ^ 16) with 10000000000000000 in Hk.
  change (2 ^ 53) with 9007199254740992 in *.
  change (2 ^ 52) with 4503599627370496 in *.
  (* everything in terms of X = T * a and Y = b * W *)
  set (X := T * a). set (Y := b * W).
  assert (0 < X) as HX by (unfold X; nia).
  assert (0 < Y) as HY by (unfold Y; nia).
  assert (num * a * W = den * (Zpos m * X)) as HA.
  { unfold X. replace (num * a * W) with (num * W * a) by ring.
    rewrite Hratio. ring. }
  assert (Y * 10000000000000000 <= Zpos m * X) as HK.
  { apply (Z.mul_le_mono_pos_l _ _ den Hden). rewrite <- HA.
    replace (den * (Y * 10000000000000000))
      with (10000000000000000 * (den * b) * W) by (unfold Y; ring).
    apply Z.mul_le_mono_nonneg_r; lia. }
  assert (Y * L <= Zpos m * X) as HLo.
  { apply (Z.mul_le_mono_pos_l _ _ den Hden). rewrite <- HA.
    replace (den * (Y * L)) with (den * b * L * W) by (unfold Y; ring).
    apply Z.mul_le_mono_nonneg_r; lia. }
  assert (Zpos m * X < Y * L + Y) as HHi.
  { apply (Z.mul_lt_mono_pos_l den _ _ Hden). rewrite <- HA.
    replace (den * (Y * L + Y)) with (den * b * Z.succ L * W) by (unfold Y; ring).
    apply Z.mul_lt_mono_pos_r; lia. }
  assert (Zpos m * X <= 9007199254740991 * X) as HmX
    by (apply Z.mul_le_mono_nonneg_r; lia).
  assert (Y < X) as HYX by lia.
  assert (10000000000000000 <= L) as HLbig.
  { unfold L. apply Z.div_le_lower_bound; lia. }
  split; [lia|].
  replace (L * W * b) with (Y * L) by (unfold Y; ring).
  replace ((L + 1) * W * b) with (Y * L + Y) by (unfold Y; ring).
  fold X.
  replace ((2 * Zpos m + 1) * X) with (2 * (Zpos m * X) + X) by ring.
  replace ((2 * Zpos m - 1) * X) with (2 * (Zpos m * X) - X) by ring.
  replace ((4 * Zpos m - 1) * X) with (4 * (Zpos m * X) - X) by ring.
  destruct (Z.eqb_spec (Zpos m) 4503599627370496) as [Hpow|Hpow];
    destruct (Z.ltb_spec (-1074) e) as [Hexp|Hexp]; cbn [andb].
  - (* just above a power of two: the gap below is half as wide *)
    assert (2 * Y < X) as H2Y.
    { assert (Zpos m * X = 4503599627370496 * X) by (now rewrite Hpow). lia. }
    destruct (Z.le_gt_cases (2 * (Zpos m * X)) (2 * (Y * L) + Y)); [left|right]; lia.
  - destruct (Z.le_gt_cases (2 * (Zpos m * X)) (2 * (Y * L) + Y)); [left|right]; lia.
  - destruct (Z.le_gt_cases (2 * (Zpos m * X)) (2 * (Y * L) + Y)); [left|right]; lia.
  - destruct (Z.le_gt_cases (2 * (Zpos m * X)) (2 * (Y * L) + Y)); [left|right]; lia.
Qed.

Lemma scaled_floor_nonneg (kk : Z) : 0 <= strconv.scaled_floor num den kk.
Proof.
  destruct num_den as (Hnum & Hden & _).
  unfold strconv.scaled_floor. destruct (Z.leb_spec 0 kk).
  - apply Z.div_pos; [|lia].
    assert (0 <= 10 ^ kk) by (apply Z.pow_nonneg; lia). nia.
  - apply Z.div_pos; [lia|].
    assert (0 < 10 ^ (- kk)) by (apply Z.pow_pos_nonneg; lia). nia.
Qed.

(** The search stops at a decimal that rounds to the number, as soon
    as one of the lengths it tries has one. *)
Lemma shortest_checked (p : Z) (fuel : nat) (n : Z) :
  (exists j : nat,
      (j < fuel)%nat
      /\ let k := p - (n + Z.of_nat j) in
         let lo := strconv.scaled_floor num den (- k) in
         SFeqb (strconv.round_decimal false lo k) f
         || SFeqb (strconv.round_decimal false (lo + 1) k) f = true) ->
  exists c k,
    strconv.shortest fuel n f num den p = (c, k)
    /\ 0 <= c
    /\ strconv.round_decimal false c k = f.
Proof.
  revert n. induction fuel as [|fuel IH]; intros n (j & Hj & Hok); [lia|].
  cbn [strconv.shortest].
  pose proof (scaled_floor_nonneg (- (p - n))) as Hlo.
  destruct (SFeqb (strconv.round_decimal false
                     (strconv.scaled_floor num den (- (p - n))) (p - n)) f)
    eqn:Hoklo;
    destruct (SFeqb (strconv.round_decimal false
                       (strconv.scaled_floor num den (- (p - n)) + 1) (p - n)) f)
      eqn:Hokhi.
  - destruct (strconv.compare_half _ _ _ _); eexists _, _;
      (split; [reflexivity|]); (split; [lia|]); now apply SFeqb_finite.
  - eexists _, _. split; [reflexivity|]. split; [lia|]. now apply SFeqb_finite.
  - eexists _, _. split; [reflexivity|]. split; [lia|]. now apply SFeqb_finite.
  - apply IH. destruct j as [|j].
    + exfalso. cbn zeta in Hok. rewrite Z.add_0_r in Hok.
      rewrite Hoklo, Hokhi in Hok. discriminate.
    + exists j. split; [lia|].
      replace (n + 1 + Z.of_nat j) with (n + Z.of_nat (S j)) by lia.
      exact Hok.
Qed.

End Shortest.

Lemma strip_zeros_spec (fuel : nat) (c k : Z) :
  0 < c ->
  exists c' k',
    strconv.strip_zeros fuel c k = (c', k')
    /\ 0 < c'
    /\ strconv.round_decimal false c' k' = strconv.round_decimal false c k.
Proof.
  revert c k. induction fuel as [|fuel IH]; intros c k Hc.
  - now eexists _, _.
  - cbn [strconv.strip_zeros].
    destruct (Z.eqb_spec (c mod 10) 0) as [H0|H0]; cbn [andb];
      [|now eexists _, _].
    destruct (Z.eqb_spec c 0) as [|_]; [lia|]. cbn [negb].
    pose proof (Z.div_mod c 10 ltac:(lia)) as Hdm. rewrite H0 in Hdm.
    destruct (IH (c / 10) (k + 1) ltac:(lia)) as (c' & k' & -> & Hc' & Hr).
    exists c', k'. repeat split; [assumption|]. rewrite Hr.
    rewrite <- (round_decimal_shift false (c / 10) (k + 1)) by lia.
    f_equal; lia.
Qed.

(** The shortest digits of a number in canonical form are the digits
    of a decimal that rounds to the number. *)
Theorem shortest_digits_spec (m : positive) (e : Z) :
  bounded strconv.prec strconv.emax m e = true ->
  exists c k,
    0 < c
    /\ strconv.shortest_digits m e
       = (itoa c, Z.of_nat (String.length (itoa c)) + k)
    /\ strconv.round_decimal false c k = S754_finite false m e.
Proof.
  intros Hb. unfold strconv.shortest_digits. cbv zeta.
  pose proof (shortest_checked m e Hb) as Hsearch.
  pose proof (decimal_point_lower m e Hb) as Hp.
  pose proof (seventeen_digits m e Hb) as Hseventeen.
  cbv zeta in Hsearch, Hp, Hseventeen.
  set (num := if 0 <=? e then Zpos m * 2 ^ e else Zpos m) in *.
  set (den := if 0 <=? e then 1 else 2 ^ (- e)) in *.
  set (p := strconv.decimal_point num den) in *.
  destruct (Hsearch p 17%nat 1) as (c & k & -> & Hc & Hr).
  { exists 16%nat. split; [lia|].
    change (1 + Z.of_nat 16) with 17.
    destruct (Hseventeen (p - 17)) as (Hlo & [Hnear|Hnear]).
    { now replace (p - 17 + 16) with (p - 1) by lia. }
    - apply orb_true_iff. left. apply SFeqb_finite.
      rewrite round_decimal_ratio by exact Hlo.
      apply binary_round_aux_near;
        [assumption|apply numerator_nonneg; lia|apply denominator_pos|assumption].
    - apply orb_true_iff. right. apply SFeqb_finite.
      rewrite round_decimal_ratio by lia.
      apply binary_round_aux_near;
        [assumption|apply numerator_nonneg; lia|apply denominator_pos|assumption]. }
  assert (0 < c) as Hcpos.
  { destruct (Z.eq_dec c 0) as [->|]; [discriminate Hr|lia]. }
  destruct (strip_zeros_spec 18 c k Hcpos) as (c' & k' & -> & Hc' & Hr').
  exists c', k'. repeat split; [assumption|congruence].
Qed.

(** ** Number literals and values through the codec *)

Lemma substring_all (s : string) : String.substring 0 (String.length s) s = s.
Proof. induction s as [|c s IH]; [reflexivity|]. cbn. now rewrite IH. Qed.

Lemma substring_app_l (s t : string) :
  String.substring 0 (String.length s) (s +:+ t) = s.
Proof.
  induction s as [|x s IH]; [now destruct t|].
  rewrite string_app_cons. cbn [String.length String.substring].
  now rewrite IH.
Qed.

Lemma drop_string_app (s t : string) :
  drop_string (String.length s) (s +:+ t) = t.
Proof.
  unfold drop_string. rewrite string_app_length.
  replace (String.length s + String.length t - String.length s)%nat
    with (String.length t) by lia.
  induction s as [|x s IH]; [apply substring_all|exact IH].
Qed.

Lemma skip_space_head (c : ascii) (s : string) :
  json.isSpace c = false -> json.skip_space (String c s) = String c s.
Proof. intros H. cbn. now rewrite H. Qed.

Lemma skip_space_delimited (rest : string) :
  delimited rest -> json.skip_space rest = rest.
Proof.
  destruct rest as [|c rest]; [reflexivity|].
  intros [-> | [-> | ->]]; reflexivity.
Qed.

Lemma scan_number_eq (s : string) :
  strconv.scan_number s
  = match s with
    | String "-" s' => scan_unsigned true s'
    | _ => scan_unsigned false s
    end.
Proof.
  destruct s as [|c s]; [reflexivity|].
  destruct c as [[] [] [] [] [] [] [] []]; reflexivity.
Qed.

Lemma scan_number_digit (c : ascii) (s : string) :
  is_digit c = true ->
  strconv.scan_number (String c s) = scan_unsigned false (String c s).
Proof.
  intros Hc. rewrite scan_number_eq.
  destruct c as [[] [] [] [] [] [] [] []]; try reflexivity;
    vm_compute in Hc; discriminate.
Qed.

Lemma delimited_tail (rest : string) :
  delimited rest ->
  no_digit_first rest
  /\ scan_frac rest = Some (EmptyString, rest)
  /\ forall (T : Type) (A : string -> T) (B : T),
       match rest with
       | String "e" s' | String "E" s' => A s'
       | _ => B
       end = B.
Proof.
  destruct rest as [|c rest]; [repeat split|].
  intros [-> | [-> | ->]]; repeat split.
Qed.

Lemma no_digit_first_frac (fr t : string) :
  fr <> EmptyString -> no_digit_first (frac_string fr +:+ t).
Proof. destruct fr; [contradiction|]. intros _. reflexivity. Qed.

Lemma no_digit_first_exp (eneg : bool) (ed t : string) :
  no_digit_first (exp_string (Some (eneg, ed)) +:+ t).
Proof. reflexivity. Qed.

(** Scanning a well-formed literal gives its parts back. *)
Lemma scan_unsigned_literal (neg : bool) (int fr : string)
    (ex : option (bool * string)) (rest : string) :
  literal_ok int fr ex -> delimited rest ->
  scan_unsigned neg (int +:+ frac_string fr +:+ exp_string ex +:+ rest)
  = Some (neg, int, fr, exp_value ex, rest).
Proof.
  intros (Hint & Hok & Hfr & Hex) Hrest.
  destruct (delimited_tail rest Hrest) as (Hnd & Hfrac & Hexp).
  assert (no_digit_first (exp_string ex +:+ rest)) as Hnd_exp.
  { destruct ex as [[eneg ed]|]; [reflexivity|].
    cbn [exp_string]. now rewrite string_app_nil_l. }
  assert (no_digit_first (frac_string fr +:+ exp_string ex +:+ rest)) as Hnd_frac.
  { destruct fr; [|reflexivity]. cbn [frac_string]. now rewrite string_app_nil_l. }
  unfold scan_unsigned. rewrite span_digits_app by assumption.
  rewrite Hok. cbn [negb].
  assert (scan_frac (frac_string fr +:+ exp_string ex +:+ rest)
          = Some (fr, exp_string ex +:+ rest)) as ->.
  { destruct fr as [|c fr].
    - cbn [frac_string]. rewrite string_app_nil_l.
      destruct ex as [[eneg ed]|].
      + reflexivity.
      + cbn [exp_string]. now rewrite string_app_nil_l.
    - change (frac_string (String c fr)) with ("." +:+ String c fr).
      rewrite string_app_assoc.
      change ("." +:+ (String c fr +:+ exp_string ex +:+ rest))
        with (String "." (String c fr +:+ exp_string ex +:+ rest)).
      cbn [scan_frac]. now rewrite span_digits_app by assumption. }
  destruct ex as [[eneg ed]|].
  - destruct Hex as [Hed Hne].
    change (exp_string (Some (eneg, ed)) +:+ rest)
      with (String "e" ((if eneg then "-" else "+") +:+ ed) +:+ rest).
    rewrite string_app_cons, string_app_assoc.
    assert (scan_exp_part ((if eneg then "-" else "+") +:+ (ed +:+ rest))
            = Some (cond_Zopp eneg (digits_value 0 ed), rest)) as Hpart.
    { destruct eneg.
      - change ("-" +:+ (ed +:+ rest)) with (String "-" (ed +:+ rest)).
        cbn [scan_exp_part]. unfold scan_exp_of.
        rewrite span_digits_app by assumption. now destruct ed.
      - change ("+" +:+ (ed +:+ rest)) with (String "+" (ed +:+ rest)).
        cbn [scan_exp_part]. unfold scan_exp_of.
        rewrite span_digits_app by assumption. now destruct ed. }
    cbv iota beta. rewrite Hpart. reflexivity.
  - cbn [exp_string exp_value]. rewrite string_app_nil_l. apply Hexp.
Qed.

Lemma scan_number_literal (neg : bool) (int fr : string)
    (ex : option (bool * string)) (rest : string) :
  literal_ok int fr ex -> delimited rest ->
  strconv.scan_number (literal neg int fr ex +:+ rest)
  = Some (neg, int, fr, exp_value ex, rest).
Proof.
  intros Hok Hrest. unfold literal, sign_string.
  pose proof Hok as (Hint & Hiok & _).
  destruct neg.
  - rewrite !string_app_assoc.
    change ("-" +:+ (int +:+ (frac_string fr +:+ (exp_string ex +:+ rest))))
      with (String "-" (int +:+ (frac_string fr +:+ (exp_string ex +:+ rest)))).
    rewrite scan_number_eq.
    now apply scan_unsigned_literal.
  - rewrite string_app_nil_l, !string_app_assoc.
    destruct int as [|c int]; [discriminate|].
    pose proof Hint as Hint'.
    cbn [all_digits] in Hint'. apply andb_true_iff in Hint' as [Hc _].
    rewrite (string_app_cons c). rewrite scan_number_digit by assumption.
    rewrite <- string_app_cons.
    now apply scan_unsigned_literal.
Qed.

Lemma scan_number_literal_end (neg : bool) (int fr : string)
    (ex : option (bool * string)) :
  literal_ok int fr ex ->
  strconv.scan_number (literal neg int fr ex)
  = Some (neg, int, fr, exp_value ex, EmptyString).
Proof.
  intros Hok. rewrite <- (string_app_nil_r (literal neg int fr ex)).
  now apply scan_number_literal.
Qed.

Lemma literal_head (neg : bool) (int fr : string) (ex : option (bool * string)) :
  literal_ok int fr ex ->
  exists c lit', literal neg int fr ex = String c lit'
                 /\ json.starts_number c = true.
Proof.
  intros (Hint & Hiok & _). unfold literal, sign_string. destruct neg.
  - eexists _, _. split; [reflexivity|reflexivity].
  - rewrite string_app_nil_l. destruct int as [|c int]; [discriminate|].
    cbn [all_digits] in Hint. apply andb_true_iff in Hint as [Hc _].
    rewrite string_app_cons. eexists _, _. split; [reflexivity|].
    unfold json.starts_number. now rewrite Hc, orb_true_r.
Qed.

(** A well-formed literal of a finite number is read back as the
    number its digits round to. *)
Lemma literal_reads_back (neg : bool) (int fr : string)
    (ex : option (bool * string)) (f : float64) :
  literal_ok int fr ex ->
  strconv.round_decimal neg (digits_value 0 (int +:+ fr))
    (exp_value ex - Z.of_nat (String.length fr)) = f ->
  json.isFinite f = true ->
  exists (c : ascii) (lit' : string),
    literal neg int fr ex = String c lit'
    /\ json.starts_number c = true
    /\ strconv.ParseFloat (literal neg int fr ex) = inl f
    /\ forall rest, delimited rest ->
         exists neg' int' fr' e,
           strconv.scan_number (literal neg int fr ex +:+ rest)
           = Some (neg', int', fr', e, rest).
Proof.
  intros Hok Hround Hfin.
  destruct (literal_head neg int fr ex Hok) as (c & lit' & Heq & Hc).
  exists c, lit'. repeat split; try assumption.
  - unfold strconv.ParseFloat. rewrite scan_number_literal_end by assumption.
    rewrite Hround. now destruct f.
  - intros rest Hrest. eexists _, _, _, _.
    now apply scan_number_literal.
Qed.

Lemma int_ok_nonzero (c : ascii) (s : string) :
  c <> "0"%char -> int_ok (String c s) = true.
Proof.
  intros Hc. destruct c as [[] [] [] [] [] [] [] []]; try reflexivity.
  now contradiction Hc.
Qed.

Lemma substring_split (n : nat) (s : string) :
  (n <= String.length s)%nat ->
  s = String.substring 0 n s +:+ String.substring n (String.length s - n) s
  /\ String.length (String.substring 0 n s) = n.
Proof.
  revert n. induction s as [|c s IH]; intros n Hn.
  - cbn in Hn. assert (n = 0%nat) as -> by lia. now split.
  - destruct n as [|n].
    + change (String.substring 0 0 (String c s)) with EmptyString.
      rewrite Nat.sub_0_r, substring_all. now split.
    + cbn [String.length] in Hn. destruct (IH n ltac:(lia)) as [H1 H2].
      cbn [String.substring String.length Nat.sub]. rewrite string_app_cons.
      split; [now rewrite <- H1|]. cbn [String.length]. now rewrite H2.
Qed.

Lemma round_decimal_int (neg : bool) (c k : Z) :
  0 < c -> 0 <= k ->
  strconv.round_decimal neg (c * 10 ^ k) 0 = strconv.round_decimal neg c k.
Proof.
  intros Hc Hk. unfold strconv.round_decimal.
  assert (0 < 10 ^ k) by (apply Z.pow_pos_nonneg; lia).
  destruct (Z.eqb_spec (c * 10 ^ k) 0) as [|_]; [nia|].
  destruct (Z.eqb_spec c 0) as [|_]; [lia|].
  destruct (Z.leb_spec 0 k) as [_|]; [|lia].
  change (0 <=? 0) with true. cbv iota. change (10 ^ 0) with 1.
  now rewrite Z.mul_1_r.
Qed.

Lemma all_digits_app_inv (s t : string) :
  all_digits (s +:+ t) = true -> all_digits s = true /\ all_digits t = true.
Proof. rewrite all_digits_app. apply andb_true_iff. Qed.

(** The ['f'] format of the digits of [c] with the exponent [k] is a
    well-formed literal of [c * 10^k]. *)
Lemma fmtF_literal (neg : bool) (c k : Z) :
  0 < c ->
  exists int fr,
    strconv.fmtF neg (itoa c) (Z.of_nat (String.length (itoa c)) + k)
    = literal neg int fr None
    /\ literal_ok int fr None
    /\ strconv.round_decimal neg (digits_value 0 (int +:+ fr))
         (exp_value None - Z.of_nat (String.length fr))
       = strconv.round_decimal neg c k.
Proof.
  intros Hc. destruct (itoa_spec c Hc) as (c0 & s0 & -> & Hd & Hc0 & Hv).
  set (ds := String c0 s0) in *.
  set (nd := Z.of_nat (String.length ds)).
  assert (1 <= nd) as Hnd by (unfold nd, ds; cbn [String.length]; lia).
  unfold strconv.fmtF. fold nd. cbv zeta.
  unfold literal. fold (sign_string neg). cbn [exp_string exp_value].
  destruct (Z.le_gt_cases nd (nd + k)) as [Hbig|Hsmall].
  - (* no fraction: the digits, then zeros *)
    exists (ds +:+ strconv.zeros (Z.to_nat k)), EmptyString.
    replace (0 <? nd + k) with true by (symmetry; apply Z.ltb_lt; lia).
    replace (nd + k <? nd) with false by (symmetry; apply Z.ltb_ge; lia).
    rewrite Z.min_l by lia. unfold nd at 1. rewrite Nat2Z.id, substring_all.
    replace (nd + k - nd) with k by lia.
    repeat split.
    + rewrite all_digits_app, Hd, all_digits_zeros. reflexivity.
    + unfold ds. rewrite string_app_cons. now apply int_ok_nonzero.
    + cbn [String.length frac_string]. rewrite string_app_nil_r.
      rewrite digits_value_app, Hv, digits_value_zeros.
      rewrite Z2Nat.id by lia. rewrite Z.sub_0_r.
      apply round_decimal_int; lia.
  - destruct (Z.lt_ge_cases 0 (nd + k)) as [Hpos|Hneg].
    + (* the decimal point inside the digits *)
      destruct (substring_split (Z.to_nat (nd + k)) ds) as [Hsplit Hlen].
      { unfold nd in *. lia. }
      set (x := String.substring 0 (Z.to_nat (nd + k)) ds) in *.
      set (y := String.substring (Z.to_nat (nd + k))
                  (String.length ds - Z.to_nat (nd + k)) ds) in *.
      assert (String.length ds = (String.length x + String.length y)%nat) as Hlens
        by (rewrite Hsplit at 1; apply string_app_length).
      exists x, y.
      replace (0 <? nd + k) with true by (symmetry; apply Z.ltb_lt; lia).
      replace (nd + k <? nd) with true by (symmetry; apply Z.ltb_lt; lia).
      rewrite Z.min_r, Z.max_l by lia.
      replace (nd + k - (nd + k)) with 0 by lia.
      replace (Z.to_nat (- (nd + k))) with 0%nat by lia.
      replace (Z.to_nat (nd - (nd + k)))
        with (String.length ds - Z.to_nat (nd + k))%nat by (unfold nd; lia).
      fold x y. cbn [Z.to_nat strconv.zeros].
      rewrite Hsplit in Hd. apply all_digits_app_inv in Hd as [Hx Hy].
      assert (y <> EmptyString) as Hy0.
      { intros E. rewrite E in Hlens.
        change (String.length EmptyString) with 0%nat in Hlens.
        clearbody x y ds. unfold nd in *. lia. }
      repeat split; try assumption.
      * destruct y; [contradiction|]. cbn [frac_string].
        now rewrite !string_app_nil_r, ?string_app_nil_l.
      * destruct x as [|cx x'] eqn:Ex; [cbn in Hlen; lia|].
        assert (cx = c0) as ->.
        { unfold ds in Hsplit. rewrite string_app_cons in Hsplit.
          now injection Hsplit as <- _. }
        now apply int_ok_nonzero.
      * rewrite <- Hsplit, Hv. f_equal. unfold nd in *. lia.
    + (* a zero before the decimal point *)
      exists "0", (strconv.zeros (Z.to_nat (- (nd + k))) +:+ ds).
      replace (0 <? nd + k) with false by (symmetry; apply Z.ltb_ge; lia).
      replace (nd + k <? nd) with true by (symmetry; apply Z.ltb_lt; lia).
      rewrite Z.max_r by lia. rewrite Z.sub_0_r.
      replace (Z.to_nat nd) with (String.length ds)
        by (unfold nd; symmetry; apply Nat2Z.id).
      change (Z.to_nat 0) with 0%nat. rewrite substring_all.
      assert (strconv.zeros (Z.to_nat (- (nd + k))) +:+ ds <> EmptyString) as Hne.
      { intros E. apply (f_equal String.length) in E.
        rewrite string_app_length in E. unfold ds in E. cbn in E. lia. }
      repeat split.
      * destruct (strconv.zeros (Z.to_nat (- (nd + k))) +:+ ds) eqn:E;
          [contradiction|]. cbn [frac_string].
        now rewrite !string_app_nil_r.
      * rewrite all_digits_app, all_digits_zeros, Hd. reflexivity.
      * rewrite digits_value_app.
        change (digits_value 0 "0") with 0.
        rewrite digits_value_app, digits_value_zeros, Z.mul_0_l, Hv.
        f_equal. rewrite string_app_length, zeros_length. unfold nd in *. lia.
Qed.

(** *** The ['e'] format and its exponent *)

Lemma encodeFloat_finite (s : bool) (m : positive) (e : Z) :
  json.encodeFloat (S754_finite s m e)
  = Some (clean_exponent (strconv.FormatFloat (S754_finite s m e) true))
  \/ json.encodeFloat (S754_finite s m e)
     = Some (strconv.FormatFloat (S754_finite s m e) false).
Proof.
  unfold json.encodeFloat, clean_exponent. cbv zeta.
  destruct (_ || _); [left|right; reflexivity].
  now destruct (_ && _).
Qed.

Lemma substring_app_r (x t : string) (i l : nat) :
  String.substring (String.length x + i) l (x +:+ t) = String.substring i l t.
Proof.
  induction x as [|c x IH]; [now rewrite string_app_nil_l|].
  rewrite string_app_cons. cbn [String.length Nat.add String.substring].
  exact IH.
Qed.

Lemma substring_no_e (w : string) (i : nat) :
  no_e w = true -> String.eqb (String.substring i 1 w) "e" = false.
Proof.
  revert i. induction w as [|c w IH]; intros i Hw.
  - now destruct i.
  - cbn [no_e] in Hw. apply andb_true_iff in Hw as [Hc Hw].
    destruct i as [|i]; [|now apply IH].
    cbn [String.substring]. 
    replace (String.substring 0 0 w) with EmptyString by (now destruct w).
    cbn [String.eqb]. apply negb_true_iff in Hc. now rewrite Hc.
Qed.

Lemma all_digits_no_e (s : string) : all_digits s = true -> no_e s = true.
Proof.
  induction s as [|c s IH]; [reflexivity|].
  cbn [all_digits no_e]. intros H. apply andb_true_iff in H as [Hc Hs].
  rewrite (IH Hs), andb_true_r. apply negb_true_iff.
  destruct (Ascii.eqb_spec c "e") as [->|]; [discriminate Hc|reflexivity].
Qed.

Lemma clean_exponent_spec (pre : string) (eneg : bool) (ed : string) :
  all_digits ed = true -> (2 <= String.length ed)%nat ->
  exists ed',
    clean_exponent (pre +:+ "e" +:+ (if eneg then "-" else "+") +:+ ed)
    = pre +:+ "e" +:+ (if eneg then "-" else "+") +:+ ed'
    /\ all_digits ed' = true
    /\ ed' <> EmptyString
    /\ digits_value 0 ed' = digits_value 0 ed.
Proof.
  intros Hd Hlen.
  set (sg := if eneg then "-" else "+").
  assert (String.length sg = 1%nat) as Hsg by (unfold sg; now destruct eneg).
  assert (no_e sg = true) as Hsge by (unfold sg; now destruct eneg).
  destruct ed as [|a [|z t]]; try (cbn in Hlen; lia).
  destruct t as [|z' t].
  - (* two digits: a leading zero goes *)
    set (y := pre +:+ "e" +:+ sg).
    replace (pre +:+ "e" +:+ sg +:+ String a (String z EmptyString))
      with (y +:+ String a (String z EmptyString))
      by (unfold y; now rewrite !string_app_assoc).
    unfold clean_exponent. cbv zeta.
    rewrite string_app_length. cbn [String.length].
    replace (String.length y + 2 - 2)%nat with (String.length y + 0)%nat by lia.
    replace (String.length y + 2 - 1)%nat with (String.length y + 1)%nat by lia.
    rewrite !substring_app_r.
    change (String.substring 0 1 (String a (String z EmptyString)))
      with (String a EmptyString).
    change (String.substring 1 1 (String a (String z EmptyString)))
      with (String z EmptyString).
    rewrite Nat.add_0_r, substring_app_l.
    cbn [all_digits] in Hd. apply andb_true_iff in Hd as [Ha Hz].
    destruct (_ && _ && _ && _) eqn:Hcond.
    + exists (String z EmptyString).
      apply andb_true_iff in Hcond as [_ Hzero].
      apply String.eqb_eq in Hzero. injection Hzero as ->.
      repeat split; try assumption; try discriminate.
      unfold y. now rewrite !string_app_assoc.
    + exists (String a (String z EmptyString)).
      repeat split; try discriminate.
      * unfold y. now rewrite !string_app_assoc.
      * cbn [all_digits]. now rewrite Ha, Hz.
  - (* three digits or more: nothing to clean *)
    set (ed := String a (String z (String z' t))) in *.
    exists ed. repeat split; try assumption; try discriminate.
    set (w := sg +:+ ed). rewrite <- !(string_app_assoc pre "e" w).
    set (x := pre +:+ "e").
    assert (4 <= String.length w)%nat as Hw.
    { unfold w. rewrite string_app_length, Hsg. unfold ed. cbn [String.length]. lia. }
    assert (no_e w = true) as Hwe.
    { unfold w, sg. pose proof (all_digits_no_e ed Hd) as He.
      destruct eneg; rewrite string_app_cons, string_app_nil_l; cbn [no_e];
        now rewrite He. }
    unfold clean_exponent. cbv zeta. rewrite string_app_length.
    replace (String.length x + String.length w - 4)%nat
      with (String.length x + (String.length w - 4))%nat by lia.
    rewrite substring_app_r, substring_no_e by assumption.
    now rewrite andb_false_r.
Qed.

Lemma itoa_digits (z : Z) :
  0 <= z ->
  all_digits (itoa z) = true /\ itoa z <> EmptyString
  /\ digits_value 0 (itoa z) = z.
Proof.
  intros Hz. destruct (Z.eq_dec z 0) as [->|Hne].
  - repeat split. discriminate.
  - destruct (itoa_spec z ltac:(lia)) as (c & s & -> & Hd & _ & Hv).
    repeat split; [assumption|discriminate|assumption].
Qed.

(** The ['e'] format, cleaned up, is a well-formed literal of
    [c * 10^k]. *)
Lemma fmtE_literal (neg : bool) (c k : Z) :
  0 < c ->
  exists int fr ex,
    clean_exponent
      (strconv.fmtE neg (itoa c) (Z.of_nat (String.length (itoa c)) + k))
    = literal neg int fr ex
    /\ literal_ok int fr ex
    /\ strconv.round_decimal neg (digits_value 0 (int +:+ fr))
         (exp_value ex - Z.of_nat (String.length fr))
       = strconv.round_decimal neg c k.
Proof.
  intros Hc. destruct (itoa_spec c Hc) as (c0 & s0 & -> & Hd & Hc0 & Hv).
  unfold strconv.fmtE. cbv zeta.
  change (String.substring 0 1 (String c0 s0))
    with (String c0 (String.substring 0 0 s0)).
  replace (String.substring 0 0 s0) with EmptyString by (now destruct s0).
  change (String.substring 1 (String.length (String c0 s0) - 1) (String c0 s0))
    with (String.substring 0 (String.length s0 - 0) s0).
  rewrite Nat.sub_0_r, substring_all.
  set (ex := Z.of_nat (String.length (String c0 s0)) + k - 1).
  set (mag := Z.abs ex).
  set (pad := if mag <? 10 then "0" else EmptyString).
  destruct (itoa_digits mag ltac:(unfold mag; lia)) as (Hmd & Hmne & Hmv).
  assert (all_digits (pad +:+ itoa mag) = true) as Hed.
  { rewrite all_digits_app, Hmd. unfold pad. now destruct (mag <? 10). }
  assert (2 <= String.length (pad +:+ itoa mag))%nat as Hlen.
  { rewrite string_app_length. unfold pad.
    destruct (Z.ltb_spec mag 10) as [Hlt|Hge].
    - destruct (itoa mag); [contradiction|]. cbn [String.length]. lia.
    - pose proof (ndigits_bounds mag ltac:(lia)) as [_ Hup].
      unfold strconv.ndigits in Hup.
      destruct (itoa mag) as [|d1 [|d2 t]]; cbn [String.length] in *;
        [cbn in Hup; lia|cbn in Hup; lia|lia]. }
  assert (digits_value 0 (pad +:+ itoa mag) = mag) as Hval.
  { rewrite digits_value_app. unfold pad.
    destruct (mag <? 10); exact Hmv. }
  destruct (clean_exponent_spec
              (sign_string neg +:+ String c0 EmptyString +:+ frac_string s0)
              (ex <? 0) (pad +:+ itoa mag) Hed Hlen)
    as (ed' & Hclean & Hed' & Hne' & Hval').
  exists (String c0 EmptyString), s0, (Some (ex <? 0, ed')).
  repeat split.
  - fold (sign_string neg). fold (frac_string s0).
    rewrite !string_app_assoc in Hclean. rewrite ?string_app_assoc.
    rewrite Hclean. reflexivity.
  - cbn [all_digits] in Hd |- *. apply andb_true_iff in Hd as [Hd0 _].
    now rewrite Hd0.
  - now apply int_ok_nonzero.
  - cbn [all_digits] in Hd. now apply andb_true_iff in Hd as [_ Hd].
  - assumption.
  - assumption.
  - rewrite string_app_cons, string_app_nil_l, Hv.
    cbn [exp_value]. rewrite Hval', Hval. f_equal.
    unfold ex in *. cbn [String.length] in *.
    destruct (Z.ltb_spec (Z.of_nat (S (String.length s0)) + k - 1) 0);
      cbn [cond_Zopp]; unfold mag; lia.
Qed.

Lemma round_decimal_finite (s : bool) (m : positive) (e c k : Z) :
  0 < c ->
  strconv.round_decimal false c k = S754_finite false m e ->
  strconv.round_decimal s c k = S754_finite s m e.
Proof.
  intros Hc H. destruct s; [|exact H].
  rewrite round_decimal_sign by lia. now rewrite H.
Qed.

(** Every finite binary64 number is written by the encoder as a
    literal that the decoder reads back as the number itself. *)
Theorem binary64_reads_back (f : float64) : binary64 f -> reads_back_number f.
Proof.
  intros [Hvalid Hfin]. unfold reads_back_number.
  destruct f as [s|s| |s m e]; try discriminate.
  - (* zero, of either sign *)
    destruct (literal_reads_back s "0" EmptyString None (S754_zero s))
      as (c & lit' & Heq & Hc & Hparse & Hscan);
      [repeat split|reflexivity|reflexivity|].
    exists (literal s "0" EmptyString None), c, lit'.
    repeat split; try assumption.
  - (* a finite number: its shortest digits *)
    cbn [valid_binary] in Hvalid.
    destruct (shortest_digits_spec m e Hvalid) as (c & k & Hc & Hds & Hround).
    pose proof (round_decimal_finite s m e c k Hc Hround) as Hround'.
    destruct (encodeFloat_finite s m e) as [Henc|Henc]; rewrite Henc;
      cbn [strconv.FormatFloat]; rewrite Hds.
    + destruct (fmtE_literal s c k Hc) as (int & fr & ex & -> & Hok & Hr).
      destruct (literal_reads_back s int fr ex (S754_finite s m e))
        as (c1 & lit' & Heq & Hc1 & Hparse & Hscan);
        [assumption|congruence|reflexivity|].
      exists (literal s int fr ex), c1, lit'. now repeat split.
    + destruct (fmtF_literal s c k Hc) as (int & fr & -> & Hok & Hr).
      destruct (literal_reads_back s int fr None (S754_finite s m e))
        as (c1 & lit' & Heq & Hc1 & Hparse & Hscan);
        [assumption|congruence|reflexivity|].
      exists (literal s int fr None), c1, lit'. now repeat split.
Qed.

Lemma reads_back_null (d : Z) : reads_back d JNull.
Proof.
  exists "null", "n"%char, "ull". repeat split; try discriminate.
  - cbn. lia.
  - intros fuel rest Hf _. cbn in Hf.
    destruct fuel as [|fuel]; [lia|].
    change ("null" +:+ rest) with (String "n" (String "u" (String "l" (String "l" rest)))).
    cbn [json.parse_value]. rewrite skip_space_head by reflexivity.
    cbn -[drop_string]. rewrite String_prefix_nil.
    change (drop_string 4 (String "n" (String "u" (String "l" (String "l" rest)))))
      with (drop_string (String.length "null") ("null" +:+ rest)).
    now rewrite drop_string_app.
Qed.

Lemma reads_back_bool (d : Z) (b : bool) : reads_back d (JBool b).
Proof.
  destruct b.
  - exists "true", "t"%char, "rue". repeat split; try discriminate.
    + cbn. lia.
    + intros fuel rest Hf _. cbn in Hf.
      destruct fuel as [|fuel]; [lia|].
      change ("true" +:+ rest)
        with (String "t" (String "r" (String "u" (String "e" rest)))).
      cbn [json.parse_value]. rewrite skip_space_head by reflexivity.
      cbn -[drop_string]. rewrite String_prefix_nil.
      change (drop_string 4 (String "t" (String "r" (String "u" (String "e" rest)))))
        with (drop_string (String.length "true") ("true" +:+ rest)).
      now rewrite drop_string_app.
  - exists "false", "f"%char, "alse". repeat split; try discriminate.
    + cbn. lia.
    + intros fuel rest Hf _. cbn in Hf.
      destruct fuel as [|fuel]; [lia|].
      change ("false" +:+ rest)
        with (String "f" (String "a" (String "l" (String "s" (String "e" rest))))).
      cbn [json.parse_value]. rewrite skip_space_head by reflexivity.
      cbn -[drop_string]. rewrite String_prefix_nil.
      change (drop_string 5
                (String "f" (String "a" (String "l" (String "s" (String "e" rest))))))
        with (drop_string (String.length "false") ("false" +:+ rest)).
      now rewrite drop_string_app.
Qed.

Lemma reads_back_string (d : Z) (s : string) :
  ValidString s -> reads_back d (JString s).
Proof.
  intros Hs.
  exists (json.appendString s), DQ,
    (json.escape_string (String.length s) s +:+ String DQ EmptyString).
  repeat split; try discriminate.
  - cbn [json.size]. unfold json.appendString.
    rewrite string_app_cons. cbn [String.length]. lia.
  - intros fuel rest Hf _. cbn in Hf.
    destruct fuel as [|fuel]; [lia|].
    unfold json.appendString. rewrite !string_app_cons.
    cbn [json.parse_value]. rewrite skip_space_head by reflexivity.
    change (code DQ =? 123) with false. change (code DQ =? 91) with false.
    change (code DQ =? 34) with true. cbv iota.
    rewrite string_app_assoc. rewrite string_app_cons, string_app_nil_l.
    rewrite (string_literal_escape_string s Hs); [reflexivity|lia|].
    rewrite string_app_length.
    pose proof (escape_string_length s Hs (String.length s) ltac:(lia)). lia.
Qed.

Lemma reads_back_of_number (d : Z) (f : float64) :
  binary64 f -> reads_back d (JNumber f).
Proof.
  intros Hf.
  destruct (binary64_reads_back f Hf)
    as (lit & c & lit' & Henc & -> & Hc & Hparse & Hscan).
  assert (json.isSpace c = false /\ c <> "]"%char /\ c <> "}"%char
          /\ (code c =? 123) = false /\ (code c =? 91) = false
          /\ (code c =? 34) = false
          /\ (forall t, String.prefix "true" (String c t) = false)
          /\ (forall t, String.prefix "false" (String c t) = false)
          /\ (forall t, String.prefix "null" (String c t) = false))
    as (Hsp & Hb1 & Hb2 & H123 & H91 & H34 & Ht & Hfa & Hnu).
  { clear -Hc.
    destruct c as [[] [] [] [] [] [] [] []];
      try (vm_compute in Hc; discriminate);
      repeat split; try discriminate; reflexivity. }
  exists (String c lit'), c, lit'. repeat split; try assumption.
  - cbn [json.size String.length]. lia.
  - intros fuel rest Hfuel Hrest. cbn in Hfuel.
    destruct fuel as [|fuel]; [lia|].
    destruct (Hscan rest Hrest) as (neg & int & fr & e & Hs).
    rewrite string_app_cons in *.
    cbn [json.parse_value]. rewrite skip_space_head by exact Hsp.
    rewrite H123, H91, H34, Ht, Hfa, Hnu, Hc, Hs.
    rewrite <- string_app_cons.
    replace (String.length (String c lit' +:+ rest) - String.length rest)%nat
      with (String.length (String c lit'))
      by (rewrite string_app_length; lia).
    rewrite substring_app_l, Hparse. reflexivity.
Qed.

Lemma list_sum_cons (x : nat) (l : list nat) :
  list_sum (x :: l) = (x + list_sum l)%nat.
Proof. reflexivity. Qed.

Ltac string_norm :=
  repeat (rewrite string_app_assoc || rewrite string_app_cons
          || rewrite string_app_nil_l).

Lemma size_pos (v : value) : (1 <= json.size v)%nat.
Proof. destruct v; cbn; lia. Qed.

Lemma join_encoded_cons (a : string) (y : option string) (l : list (option string)) :
  json.join_encoded (Some a :: y :: l)
  = match json.join_encoded (y :: l) with
    | Some b => Some (a +:+ "," +:+ b)
    | None => None
    end.
Proof. reflexivity. Qed.

(** The elements of an array, written with commas between them, are
    read back up to the closing bracket. *)
Lemma parse_elements_join (d : Z) (l : list value) :
  l <> [] ->
  (forall v, In v l -> reads_back d v) ->
  exists (s : string) (c : ascii) (s' : string),
    json.join_encoded (List.map json.encode l) = Some s
    /\ s = String c s'
    /\ json.isSpace c = false /\ c <> "]"%char
    /\ (list_sum (List.map json.size l) <= String.length s)%nat
    /\ forall fuel rest,
         (2 * list_sum (List.map json.size l) + 1 <= fuel)%nat ->
         json.parse_elements fuel d (s +:+ String "]" rest) = Some (l, rest).
Proof.
  induction l as [|v l IH]; intros Hne Hall; [contradiction|].
  destruct (Hall v (or_introl eq_refl))
    as (sv & c & sv' & Henc & -> & Hsp & Hb1 & Hb2 & Hlen & Hparse).
  destruct l as [|v' l].
  - exists (String c sv'), c, sv'. cbn [List.map json.join_encoded list_sum fold_right].
    repeat split; try assumption.
    + lia.
    + intros fuel rest Hf. destruct fuel as [|fuel]; [lia|].
      cbn [json.parse_elements].
      rewrite (Hparse fuel (String "]" rest)) by (try lia; cbn; auto).
      reflexivity.
  - destruct IH as (sl & c' & sl' & Hjoin & -> & _ & _ & Hlenl & Hparsel);
      [discriminate|intros x Hx; apply Hall; now right|].
    exists (String c sv' +:+ "," +:+ String c' sl'), c,
      (sv' +:+ "," +:+ String c' sl').
    change (List.map json.encode (v :: v' :: l))
      with (json.encode v :: List.map json.encode (v' :: l)).
    change (List.map json.encode (v' :: l))
      with (json.encode v' :: List.map json.encode l) in *.
    rewrite Henc, join_encoded_cons, Hjoin.
    repeat split; try assumption.
    + change (List.map json.size (v :: v' :: l))
        with (json.size v :: List.map json.size (v' :: l)).
      rewrite list_sum_cons, !string_app_length. lia.
    + intros fuel rest Hf.
      change (List.map json.size (v :: v' :: l))
        with (json.size v :: List.map json.size (v' :: l)) in Hf.
      rewrite list_sum_cons in Hf. pose proof (size_pos v).
      destruct fuel as [|fuel]; [lia|].
      cbn [json.parse_elements].
      rewrite !string_app_assoc.
      change ("," +:+ String c' sl' +:+ String "]" rest)
        with (String "," (String c' sl' +:+ String "]" rest)).
      rewrite (Hparse fuel (String "," (String c' sl' +:+ String "]" rest)))
        by (try lia; cbn; auto).
      rewrite skip_space_head by reflexivity.
      rewrite (Hparsel fuel rest) by lia. reflexivity.
Qed.

(** The members of an object, written in the order of [L] with
    commas between them, are read back up to the closing brace, each
    one stored in turn. *)
Lemma parse_members_join (d : Z) (w : string -> value -> value)
    (L : list (string * value)) :
  L <> [] ->
  (forall k v, In (k, v) L -> ValidString k /\ reads_as d v (w k v)) ->
  exists (s s' : string),
    json.join_encoded
      (List.map
         (fun kv : string * option string =>
            match snd kv with
            | Some s => Some (json.appendString (fst kv) +:+ ":" +:+ s)
            | None => None
            end)
         (List.map (prod_map id json.encode) L)) = Some s
    /\ s = String DQ s'
    /\ (list_sum (List.map (fun kv => json.size (snd kv)) L) <= String.length s)%nat
    /\ forall fuel rest acc,
         (2 * list_sum (List.map (fun kv => json.size (snd kv)) L) + 1 <= fuel)%nat ->
         json.parse_members fuel d (s +:+ String "}" rest) acc
         = Some (fold_left (fun a kv => <[fst kv := w (fst kv) (snd kv)]> a) L acc,
                 rest).
Proof.
  induction L as [|[k v] L IH]; intros Hne Hall; [contradiction|].
  destruct (Hall k v (or_introl eq_refl))
    as (Hk & sv & c & sv' & Henc & -> & Hsp & Hb1 & Hb2 & Hlen & Hparse).
  pose proof (escape_string_length k Hk (String.length k) ltac:(lia)) as Hesc.
  assert (forall fuel tail acc (K : gmap string value -> string -> option (gmap string value * string)),
            (2 * json.size v <= fuel)%nat -> delimited tail ->
            match json.skip_space
                    ((json.appendString k +:+ ":" +:+ String c sv') +:+ tail) with
            | String c0 rest0 =>
                if code c0 =? 34 then
                  match json.string_literal (S (String.length rest0)) rest0 with
                  | Some (key, rest1) =>
                      match json.skip_space rest1 with
                      | String ":" rest2 =>
                          match json.parse_value fuel d rest2 with
                          | Some (v0, rest3) => K (<[key := v0]> acc) rest3
                          | None => None
                          end
                      | _ => None
                      end
                  | None => None
                  end
                else None
            | _ => None
            end = K (<[k := w k v]> acc) tail) as Hmember.
  { intros fuel tail acc K Hf Htail.
    unfold json.appendString. rewrite !string_app_cons.
    rewrite skip_space_head by reflexivity.
    change (code DQ =? 34) with true. cbv iota.
    rewrite !string_app_assoc.
    rewrite string_app_cons, string_app_nil_l.
    rewrite (string_literal_escape_string k Hk);
      [|lia|rewrite string_app_length; lia].
    rewrite ?string_app_cons, ?string_app_nil_l.
    rewrite skip_space_head by reflexivity.
    now rewrite (Hparse fuel tail Hf Htail). }
  destruct L as [|kv' L].
  - exists (json.appendString k +:+ ":" +:+ String c sv'),
      (json.escape_string (String.length k) k +:+ String DQ EmptyString
         +:+ ":" +:+ String c sv').
    cbn [List.map json.join_encoded prod_map fst snd id].
    rewrite Henc, list_sum_cons. change (list_sum []) with 0%nat.
    repeat split.
    + unfold json.appendString. now string_norm.
    + rewrite !string_app_length. lia.
    + intros fuel rest acc Hf. destruct fuel as [|fuel]; [lia|].
      cbn [json.parse_members fold_left fst snd].
      rewrite (Hmember fuel (String "}" rest) acc
                 (fun acc' rest3 =>
                    match json.skip_space rest3 with
                    | String "," rest4 => json.parse_members fuel d rest4 acc'
                    | String "}" rest4 => Some (acc', rest4)
                    | _ => None
                    end)) by (try lia; cbn; auto).
      reflexivity.
  - destruct IH as (sl & sl' & Hjoin & -> & Hlenl & Hparsel);
      [discriminate|intros x y Hx; apply Hall; now right|].
    exists (json.appendString k +:+ ":" +:+ String c sv' +:+ "," +:+ String DQ sl'),
      (json.escape_string (String.length k) k +:+ String DQ EmptyString
         +:+ ":" +:+ String c sv' +:+ "," +:+ String DQ sl').
    change (List.map (prod_map id json.encode) ((k, v) :: kv' :: L))
      with ((k, json.encode v) :: List.map (prod_map id json.encode) (kv' :: L)).
    rewrite Henc.
    match goal with
    | |- json.join_encoded (List.map ?f (?x :: ?l)) = _ /\ _ =>
        change (List.map f (x :: l)) with (f x :: List.map f l)
    end.
    cbn [fst snd].
    match goal with
    | |- json.join_encoded (Some ?a :: List.map ?f (List.map ?g (?y :: ?l))) = _ /\ _ =>
        change (List.map f (List.map g (y :: l)))
          with (f (g y) :: List.map f (List.map g l)) in *
    end.
    rewrite join_encoded_cons, Hjoin.
    repeat split.
    + now rewrite !string_app_assoc.
    + unfold json.appendString. now string_norm.
    + change (List.map (fun kv => json.size (snd kv)) ((k, v) :: kv' :: L))
        with (json.size v :: List.map (fun kv => json.size (snd kv)) (kv' :: L)).
      rewrite list_sum_cons, !string_app_length. lia.
    + intros fuel rest acc Hf.
      change (List.map (fun kv => json.size (snd kv)) ((k, v) :: kv' :: L))
        with (json.size v :: List.map (fun kv => json.size (snd kv)) (kv' :: L)) in Hf.
      rewrite list_sum_cons in Hf. pose proof (size_pos v).
      destruct fuel as [|fuel]; [lia|].
      cbn [json.parse_members fold_left fst snd].
      replace ((json.appendString k +:+ ":" +:+ String c sv' +:+ "," +:+ String DQ sl')
                 +:+ String "}" rest)
        with ((json.appendString k +:+ ":" +:+ String c sv')
                +:+ String "," (String DQ sl' +:+ String "}" rest))
        by (now rewrite !string_app_assoc).
      rewrite (Hmember fuel (String "," (String DQ sl' +:+ String "}" rest)) acc
                 (fun acc' rest3 =>
                    match json.skip_space rest3 with
                    | String "," rest4 => json.parse_members fuel d rest4 acc'
                    | String "}" rest4 => Some (acc', rest4)
                    | _ => None
                    end)) by (try lia; cbn; auto).
      rewrite skip_space_head by reflexivity.
      now rewrite (Hparsel fuel rest (<[k := w k v]> acc)) by lia.
Qed.

Lemma insert_member_Permutation kv l : Permutation (json.insert_member kv l) (kv :: l).
Proof.
  induction l as [|kv' l IH]; cbn [json.insert_member]; [reflexivity|].
  destruct (String.leb (fst kv) (fst kv')); [reflexivity|].
  rewrite IH. apply perm_swap.
Qed.

Lemma sort_members_Permutation l : Permutation (json.sort_members l) l.
Proof.
  unfold json.sort_members.
  induction l as [|kv l IH]; cbn [fold_right]; [reflexivity|].
  now rewrite insert_member_Permutation, IH.
Qed.

Lemma list_sum_Permutation (l l' : list nat) :
  Permutation l l' -> list_sum l = list_sum l'.
Proof.
  induction 1; rewrite ?list_sum_cons; lia.
Qed.

(** Storing members one after the other, as the decoder does, gives
    the map whose entries they are when no key comes twice. *)
Lemma fold_left_insert (w : string -> value -> value)
    (L : list (string * value)) (acc : gmap string value) :
  NoDup (List.map fst L) ->
  fold_left (fun a kv => <[fst kv := w (fst kv) (snd kv)]> a) L acc
  = list_to_map (List.map (fun kv => (fst kv, w (fst kv) (snd kv))) L) ∪ acc.
Proof.
  revert acc. induction L as [|[k v] L IH]; intros acc Hnd.
  - cbn. now rewrite (left_id_L ∅ (∪)).
  - cbn [List.map fst] in Hnd. apply NoDup_cons in Hnd as [Hk Hnd].
    cbn [fold_left fst snd List.map]. rewrite IH by assumption.
    rewrite list_to_map_cons.
    rewrite <- insert_union_l. rewrite insert_union_r; [reflexivity|].
    apply not_elem_of_list_to_map_1.
    change (@fmap list _ _ _ fst
              (List.map (fun kv : string * value => (kv.1, w kv.1 kv.2)) L))
      with (List.map fst (List.map (fun kv : string * value => (kv.1, w kv.1 kv.2)) L)).
    now rewrite List.map_map.
Qed.

Lemma fold_left_insert_map_to_list (w : string -> value -> value)
    (m : gmap string value) (L : list (string * value)) :
  Permutation (map_to_list m) L ->
  fold_left (fun a kv => <[fst kv := w (fst kv) (snd kv)]> a) L ∅
  = map_imap (fun k v => Some (w k v)) m.
Proof.
  intros HL.
  assert (NoDup (List.map fst L)) as Hnd.
  { rewrite <- HL. apply NoDup_fst_map_to_list. }
  rewrite fold_left_insert by assumption.
  rewrite (right_id_L ∅ (∪)).
  apply map_eq. intros k. apply option_eq. intros x.
  rewrite map_lookup_imap, bind_Some.
  rewrite <- elem_of_list_to_map.
  2:{ change (NoDup (List.map fst (List.map (fun kv : string * value =>
                                               (kv.1, w kv.1 kv.2)) L))).
      now rewrite List.map_map. }
  rewrite list_elem_of_In, in_map_iff. split.
  - intros ([k' v] & [= <- <-] & Hin). exists v. split; [|reflexivity].
    apply elem_of_map_to_list. rewrite HL. now apply list_elem_of_In.
  - intros (v & Hv & [= <-]). exists (k, v). split; [reflexivity|].
    apply list_elem_of_In. rewrite <- HL. now apply elem_of_map_to_list.
Qed.

Lemma map_imap_id (m : gmap string value) :
  map_imap (fun (_ : string) (v : value) => Some v) m = m.
Proof.
  apply map_eq. intros k. rewrite map_lookup_imap.
  now destruct (m !! k).
Qed.

Lemma decoded_elements (l : list value) (d : Z) :
  fold_right and True (List.map (fun v => decoded v d) l) ->
  forall v, In v l -> decoded v d.
Proof.
  induction l as [|x l IH]; cbn; [tauto|].
  intros [Hx Hl] v [<-|Hv]; auto.
Qed.

(** An object is read as the object of what its members are read
    as. *)
Lemma object_reads_as (d : Z) (w : string -> value -> value)
    (m : gmap string value) :
  d + 1 <= json.maxNestingDepth ->
  (forall k v, m !! k = Some v ->
     ValidString k /\ reads_as (d + 1) v (w k v)) ->
  reads_as d (JObject m) (JObject (map_imap (fun k v => Some (w k v)) m)).
Proof.
  intros Hd Hall.
  assert ((json.maxNestingDepth <? d + 1) = false) as Hdepth
    by (apply Z.ltb_ge; lia).
  destruct (Permutation_map_inv (prod_map id json.encode)
              (l1 := json.sort_members (map_to_list (json.encode <$> m)))
              (map_to_list m)) as (L & HL & Hperm).
  { rewrite sort_members_Permutation, map_to_list_fmap. reflexivity. }
  assert (list_sum (List.map snd (map_to_list (json.size <$> m)))
          = list_sum (List.map (fun kv => json.size (snd kv)) L)) as Hsize.
  { apply list_sum_Permutation.
    rewrite map_to_list_fmap, Hperm.
    change (@fmap list _ _ _ (prod_map id json.size) L)
      with (List.map (prod_map id json.size) L).
    rewrite List.map_map. reflexivity. }
  unfold reads_as. cbn [json.size json.encode]. rewrite Hsize, HL.
  destruct L as [|kv L].
  - exists "{}", "{"%char, "}". repeat split; try discriminate.
    + cbn. lia.
    + intros fuel rest Hf _. cbn in Hf.
      destruct fuel as [|fuel]; [lia|].
      assert (m = ∅) as ->.
      { apply map_to_list_empty_iff. now apply Permutation_nil_r. }
      change ("{}" +:+ rest) with (String "{" (String "}" rest)).
      cbn [json.parse_value]. rewrite skip_space_head by reflexivity.
      change (code "{" =? 123) with true.
      cbv iota. rewrite Hdepth.
      now rewrite skip_space_head by reflexivity.
  - destruct (parse_members_join (d + 1) w (kv :: L))
      as (sl & sl' & Hjoin & -> & Hlen & Hparse); [discriminate| |].
    { intros k v Hin. apply Hall.
      apply elem_of_map_to_list. rewrite Hperm. now apply list_elem_of_In. }
    rewrite Hjoin.
    exists ("{" +:+ String DQ sl' +:+ "}"), "{"%char, (String DQ sl' +:+ "}").
    repeat split; try discriminate.
    + rewrite !string_app_length.
      change (String.length "{") with 1%nat. lia.
    + intros fuel rest Hf _.
      destruct fuel as [|fuel]; [lia|].
      replace (("{" +:+ String DQ sl' +:+ "}") +:+ rest)
        with (String "{" (String DQ sl' +:+ String "}" rest))
        by (now string_norm).
      cbn [json.parse_value]. rewrite skip_space_head by reflexivity.
      change (code "{" =? 123) with true.
      cbv iota. rewrite Hdepth.
      rewrite string_app_cons, skip_space_head, <- string_app_cons by reflexivity.
      rewrite Hparse by lia.
      rewrite (fold_left_insert_map_to_list w m) by assumption.
      reflexivity.
Qed.

(** What [json.Marshal] writes for a decoded value is read back by
    [json.Unmarshal] as the value itself, up to what delimits it. *)
Theorem decoded_reads_back (v : value) : forall d, decoded v d -> reads_back d v.
Proof.
  induction v as [|b|f|s|l IH|m IH] using value_ind; intros d Hv.
  - apply reads_back_null.
  - apply reads_back_bool.
  - now apply reads_back_of_number.
  - now apply reads_back_string.
  - cbn [decoded] in Hv. destruct Hv as [Hd Hl].
    pose proof (decoded_elements l (d + 1) Hl) as Hall.
    assert ((json.maxNestingDepth <? d + 1) = false) as Hdepth
      by (apply Z.ltb_ge; lia).
    destruct l as [|v l].
    + exists "[]", "["%char, "]". repeat split; try discriminate.
      * cbn. lia.
      * intros fuel rest Hf _. cbn in Hf.
        destruct fuel as [|fuel]; [lia|].
        change ("[]" +:+ rest) with (String "[" (String "]" rest)).
        cbn [json.parse_value]. rewrite skip_space_head by reflexivity.
        change (code "[" =? 123) with false. change (code "[" =? 91) with true.
        cbv iota. rewrite Hdepth.
        now rewrite skip_space_head by reflexivity.
    + destruct (parse_elements_join (d + 1) (v :: l))
        as (sl & c & sl' & Hjoin & -> & Hsp & Hb & Hlen & Hparse);
        [discriminate|intros x Hx; apply IH; auto|].
      exists ("[" +:+ String c sl' +:+ "]"), "["%char, (String c sl' +:+ "]").
      cbn [json.encode]. rewrite Hjoin. repeat split; try discriminate.
      * cbn [json.size]. rewrite !string_app_length.
        change (String.length "[") with 1%nat. lia.
      * intros fuel rest Hf _. cbn [json.size] in Hf.
        destruct fuel as [|fuel]; [lia|].
        replace (("[" +:+ String c sl' +:+ "]") +:+ rest)
          with (String "[" (String c sl' +:+ String "]" rest))
          by (now string_norm).
        cbn [json.parse_value]. rewrite skip_space_head by reflexivity.
        change (code "[" =? 123) with false. change (code "[" =? 91) with true.
        cbv iota. rewrite Hdepth.
        rewrite string_app_cons, skip_space_head, <- string_app_cons by exact Hsp.
        rewrite Hparse by lia.
        clear -Hb. destruct c as [[] [] [] [] [] [] [] []]; try reflexivity.
        now contradiction Hb.
  - cbn [decoded] in Hv. destruct Hv as [Hd Hm].
    assert (forall k v, m !! k = Some v -> ValidString k /\ decoded v (d + 1)) as Hall.
    { intros k v Hkv. apply (Hm k (decoded v (d + 1))).
      now rewrite lookup_fmap, Hkv. }
    unfold reads_back. rewrite <- (map_imap_id m) at 2.
    apply object_reads_as; [assumption|].
    intros k v Hkv. split; [apply (Hall k v Hkv)|].
    apply (IH k v Hkv), (Hall k v Hkv).
Qed.

(** A string of any bytes is written as a literal that is read as a
    string: the string itself when it is well-formed UTF-8. *)
Lemma reads_as_string (d : Z) (s : string) :
  exists s', reads_as d (JString s) (JString s')
             /\ (ValidString s -> s' = s).
Proof.
  destruct (string_literal_escape_any (String.length s) s (le_n _))
    as (Hlen & s' & Hs').
  exists s'. split.
  - exists (json.appendString s), DQ,
      (json.escape_string (String.length s) s +:+ String DQ EmptyString).
    repeat split; try discriminate.
    + cbn [json.size]. unfold json.appendString.
      rewrite string_app_cons. cbn [String.length]. lia.
    + intros fuel rest Hf _. cbn in Hf.
      destruct fuel as [|fuel]; [lia|].
      unfold json.appendString. rewrite !string_app_cons.
      cbn [json.parse_value]. rewrite skip_space_head by reflexivity.
      change (code DQ =? 123) with false. change (code DQ =? 91) with false.
      change (code DQ =? 34) with true. cbv iota.
      rewrite string_app_assoc. rewrite string_app_cons, string_app_nil_l.
      rewrite Hs'; [reflexivity|].
      rewrite string_app_length. lia.
  - intros Hvalid.
    pose proof (string_literal_escape_string s Hvalid (S (String.length s))
                  (String.length s) EmptyString (le_n _) (le_n _)) as H1.
    rewrite (Hs' (S (String.length s)) EmptyString (le_n _)) in H1.
    now injection H1.
Qed.

(** ** What the decoder makes *)

Lemma span_digits_all (s d r : string) :
  span_digits s = (d, r) -> all_digits d = true.
Proof.
  revert d r. induction s as [|c s IH]; intros d r H.
  - now injection H as <- _.
  - cbn [span_digits] in H. destruct (is_digit c) eqn:Hc.
    + destruct (span_digits s) as [d' r'] eqn:Hs. injection H as <- _.
      cbn [all_digits]. now rewrite Hc, (IH d' r' eq_refl).
    + now injection H as <- _.
Qed.

Lemma scan_unsigned_digits (neg : bool) (s : string)
    (neg' : bool) (int fr : string) (e : Z) (r : string) :
  scan_unsigned neg s = Some (neg', int, fr, e, r) ->
  all_digits int = true /\ all_digits fr = true.
Proof.
  unfold scan_unsigned.
  destruct (span_digits s) as [int0 s1] eqn:Hint.
  destruct (negb (int_ok int0)); [discriminate|].
  unfold scan_frac.
  assert (forall o : option (string * string),
            (o = Some (EmptyString, s1)
             \/ exists s2 fr0 s3, span_digits s2 = (fr0, s3)
                                  /\ o = match fr0 with
                                         | EmptyString => None
                                         | _ => Some (fr0, s3)
                                         end) ->
            match o with
            | None => None
            | Some (fr, s) =>
                match s with
                | String "e" s' | String "E" s' =>
                    match scan_exp_part s' with
                    | Some (e, r) => Some (neg, int0, fr, e, r)
                    | None => None
                    end
                | _ => Some (neg, int0, fr, 0, s)
                end
            end = Some (neg', int, fr, e, r) ->
            all_digits int = true /\ all_digits fr = true) as Hgen.
  { intros o Ho H.
    assert (exists fr0 s0, o = Some (fr0, s0) /\ all_digits fr0 = true)
      as (fr0 & s0 & -> & Hfr0).
    { destruct Ho as [->|(s2 & fr0 & s3 & Hsp & ->)]; [now eexists _, _|].
      pose proof (span_digits_all _ _ _ Hsp).
      destruct fr0; [discriminate|]. now eexists _, _. }
    pose proof (span_digits_all _ _ _ Hint) as Hint0.
    repeat case_match; simplify_eq; now split. }
  intros H. eapply Hgen; [|exact H].
  destruct s1 as [|c s1']; [now left|].
  destruct c as [[] [] [] [] [] [] [] []]; try (now left).
  right. destruct (span_digits s1') as [fr0 s3] eqn:Hfr.
  exists s1', fr0, s3. now split.
Qed.

Lemma ParseFloat_binary64 (s : string) (f : float64) :
  strconv.ParseFloat s = inl f -> binary64 f.
Proof.
  intros H. split; [|exact (ParseFloat_finite s f H)].
  unfold strconv.ParseFloat in H.
  destruct (strconv.scan_number s) as [[[[[neg int] fr] e] r]|] eqn:Hscan;
    [|discriminate].
  assert (all_digits int = true /\ all_digits fr = true) as [Hint Hfr].
  { rewrite scan_number_eq in Hscan.
    destruct s as [|c s']; [discriminate|].
    destruct c as [[] [] [] [] [] [] [] []];
      exact (scan_unsigned_digits _ _ _ _ _ _ _ Hscan). }
  destruct r; [|discriminate].
  assert (0 <= digits_value 0 (int +:+ fr)) as Hpos.
  { apply digits_value_bound. now rewrite all_digits_app, Hint, Hfr. }
  pose proof (round_decimal_valid neg _ (e - Z.of_nat (String.length fr)) Hpos)
    as Hvalid.
  destruct (strconv.round_decimal neg _ _); now simplify_eq.
Qed.

Lemma decoded_array (l : list value) (d : Z) :
  decoded (JArray l) d
  <-> d + 1 <= json.maxNestingDepth /\ forall v, In v l -> decoded v (d + 1).
Proof.
  cbn [decoded]. split; intros [Hd Hl]; (split; [exact Hd|]).
  - now apply decoded_elements.
  - induction l as [|x l IH]; cbn; [exact I|].
    split; [apply Hl; now left|]. apply IH. intros v Hv. apply Hl. now right.
Qed.

Lemma decoded_object (m : gmap string value) (d : Z) :
  decoded (JObject m) d
  <-> d + 1 <= json.maxNestingDepth
      /\ forall k v, m !! k = Some v -> ValidString k /\ decoded v (d + 1).
Proof.
  cbn [decoded]. split; intros [Hd Hm]; (split; [exact Hd|]).
  - intros k v Hkv. apply (Hm k (decoded v (d + 1))).
    now rewrite lookup_fmap, Hkv.
  - intros k P. rewrite lookup_fmap.
    destruct (m !! k) as [v|] eqn:Hkv; [|discriminate].
    intros [= <-]. now apply Hm.
Qed.

Lemma decoded_insert (acc : gmap string value) (key : string) (v : value) (d : Z) :
  ValidString key -> decoded v d ->
  (forall k x, acc !! k = Some x -> ValidString k /\ decoded x d) ->
  forall k x, <[key := v]> acc !! k = Some x -> ValidString k /\ decoded x d.
Proof.
  intros Hkey Hv Hacc k x. rewrite lookup_insert.
  case_decide; [intros [= <-]; subst; now split | apply Hacc].
Qed.

(** Every value the parser decodes is a decoded value: its numbers
    are finite and in canonical form, its strings and keys well-formed
    UTF-8, its nesting within the limit. *)
Lemma parse_decoded (fuel : nat) :
  (forall depth s v r,
     json.parse_value fuel depth s = Some (v, r) -> decoded v depth)
  /\ (forall depth s acc m r,
        (forall k x, acc !! k = Some x -> ValidString k /\ decoded x depth) ->
        json.parse_members fuel depth s acc = Some (m, r) ->
        forall k x, m !! k = Some x -> ValidString k /\ decoded x depth)
  /\ (forall depth s l r,
        json.parse_elements fuel depth s = Some (l, r) ->
        forall v, In v l -> decoded v depth).
Proof.
  induction fuel as [|fuel (IHv & IHm & IHe)];
    [repeat split; intros; discriminate|].
  split; [|split].
  - intros depth s v r H. cbn [json.parse_value] in H.
    repeat case_match; simplify_eq; try exact I.
    all: try match goal with
         | H : (json.maxNestingDepth <? _) = false |- _ => apply Z.ltb_ge in H
         end.
    all: try (apply decoded_object; split; [assumption|];
              first [ intros k x Hk; now rewrite lookup_empty in Hk
                    | eapply IHm; [|eassumption];
                      intros k x Hk; now rewrite lookup_empty in Hk ]).
    all: try (apply decoded_array; split; [assumption|];
              first [ intros x [] | eapply IHe; eassumption ]).
    all: try (cbn [decoded]; eapply string_literal_valid; eassumption).
    cbn [decoded]. eapply ParseFloat_binary64. eassumption.
  - intros depth s acc m r Hacc H. cbn [json.parse_members] in H.
    repeat case_match; simplify_eq.
    all: try (eapply IHm; [|eassumption]).
    all: apply decoded_insert;
      [eapply string_literal_valid; eassumption
      |eapply IHv; eassumption
      |exact Hacc].
  - intros depth s l r H. cbn [json.parse_elements] in H.
    repeat case_match; simplify_eq.
    all: intros v' [<-|Hin]; [eapply IHv; eassumption|].
    all: try contradiction.
    all: eapply IHe; eassumption.
Qed.

Lemma Unmarshal_decoded (b : string) (data : gmap string value) :
  json.Unmarshal b = inl data ->
  forall k v, data !! k = Some v -> ValidString k /\ decoded v 1.
Proof.
  unfold json.Unmarshal. intros H.
  repeat case_match; simplify_eq.
  - intros k v Hk. now rewrite lookup_empty in Hk.
  - match goal with
    | H : json.parse_value _ _ _ = Some _ |- _ =>
        apply (proj1 (parse_decoded _)) in H; apply decoded_object in H
    end.
    tauto.
Qed.

(** ** Encoding and decoding again *)

(** What [json.Marshal] writes for an object is decoded by
    [json.Unmarshal] as the object of what its members are read as. *)
Lemma Unmarshal_Marshal_as (w : string -> value -> value)
    (m : gmap string value) :
  (forall k v, m !! k = Some v -> ValidString k /\ reads_as 1 v (w k v)) ->
  exists out,
    json.Marshal m = inl out
    /\ json.Unmarshal out = inl (map_imap (fun k v => Some (w k v)) m).
Proof.
  intros Hall.
  destruct (object_reads_as 0 w m) as (s & c & s' & Henc & -> & Hsp & _ & _ & Hlen & Hparse);
    [unfold json.maxNestingDepth; lia|exact Hall|].
  exists (String c s'). unfold json.Marshal. rewrite Henc. split; [reflexivity|].
  unfold json.Unmarshal.
  rewrite <- (string_app_nil_r (String c s')) at 2.
  rewrite Hparse by (cbn [delimited]; try exact I; lia).
  reflexivity.
Qed.

(** The decoded object of a body, with one entry set to a string, is
    written by [json.Marshal] as a body that [json.Unmarshal] decodes
    to the same object with the same entry set: to the string itself
    when it is well-formed UTF-8, and else to the string with its
    ill-formed bytes replaced. *)
Theorem Unmarshal_Marshal_insert
    (b : string) (data : gmap string value) (key s : string) :
  json.Unmarshal b = inl data -> ValidString key ->
  exists out s',
    json.Marshal (<[key := JString s]> data) = inl out
    /\ json.Unmarshal out = inl (<[key := JString s']> data)
    /\ (ValidString s -> s' = s).
Proof.
  intros Hb Hkey.
  pose proof (Unmarshal_decoded b data Hb) as Hdata.
  destruct (reads_as_string 1 s) as (s' & Hs' & Hvalid).
  destruct (Unmarshal_Marshal_as
              (fun k v => if decide (k = key) then JString s' else v)
              (<[key := JString s]> data)) as (out & Hout & Hback).
  { intros k v. destruct (decide (k = key)) as [->|Hk].
    - rewrite lookup_insert_eq. intros [= <-]. split; [exact Hkey|exact Hs'].
    - rewrite lookup_insert_ne by congruence.
      intros Hkv. split; [apply (Hdata k v Hkv)|].
      apply decoded_reads_back, (Hdata k v Hkv). }
  exists out, s'. split; [exact Hout|]. split; [|exact Hvalid].
  rewrite Hback. f_equal. apply map_eq. intros k.
  rewrite map_lookup_imap.
  destruct (decide (k = key)) as [->|Hk].
  - now rewrite !lookup_insert_eq.
  - rewrite !lookup_insert_ne by congruence. now destruct (data !! k).
Qed.

(** ** The transport *)

Lemma atoi_itoa (n : Z) : atoi (itoa n) = Some n.
Proof.
  unfold atoi, itoa. rewrite NilEmpty.isi. simpl. now rewrite DecimalZ.of_to.
Qed.

Section Transport.

Variable stream : Type.
Variable stream_ReadAll : stream -> string * option error * stream.
Variable json_Unmarshal : string -> gmap string value + error.
Variable json_Marshal : gmap string value -> string + error.
Variable http_DefaultTransport : RoundTripper stream.

Local Abbreviation ReadAll := (io_ReadAll stream_ReadAll).
Local Abbreviation remap := (remapModel json_Unmarshal json_Marshal).
Local Abbreviation process := (processResponse stream_ReadAll json_Unmarshal).
Local Abbreviation forward :=
  (exchange stream_ReadAll json_Unmarshal http_DefaultTransport).
Local Abbreviation roundTrip :=
  (RoundTrip stream_ReadAll json_Unmarshal json_Marshal http_DefaultTransport).
Local Abbreviation fix_body := (fixStreamingResponse json_Unmarshal).

Implicit Types (c : loggingTransport stream) (req : Request stream)
  (resp : Response stream) (body : string) (rest : ReadCloser stream).

(** Once the request body is read, [RoundTrip] forwards the request
    the remapper leaves and treats the response. *)
Lemma RoundTrip_read c req body rest :
  ReadAll (req_Body req) = Returns (body, None, rest) ->
  roundTrip c req
  = forward c (remap c (setBody req (NopCloser_Buffer body)) body).
Proof. intros H. unfold RoundTrip. now rewrite H. Qed.

(** A request body that cannot be read: the request goes to the
    upstream with the body as the read left it, and the answer of the
    upstream comes back as it is, whatever its status. *)
Lemma RoundTrip_read_error c req body e rest :
  ReadAll (req_Body req) = Returns (body, Some e, rest) ->
  roundTrip c req = transport http_DefaultTransport c (setBody req rest).
Proof. intros H. unfold RoundTrip. now rewrite H. Qed.

(** A request without body: [io.ReadAll] is called on the nil [Body]
    and [RoundTrip] panics before anything is forwarded. *)
Lemma RoundTrip_nil_body c req :
  req_Body req = nilReadCloser -> roundTrip c req = Panics.
Proof. intros H. unfold RoundTrip. now rewrite H. Qed.

Lemma exchange_response c req resp :
  transport http_DefaultTransport c req = Returns (inl resp) ->
  forward c req = process c resp.
Proof. intros H. unfold exchange. now rewrite H. Qed.

Lemma exchange_error c req e :
  transport http_DefaultTransport c req = Returns (inr e) ->
  forward c req = Returns (inr e).
Proof. intros H. unfold exchange. now rewrite H. Qed.

Lemma Header_lookup_Some (m : gmap string (list string)) (key : string) :
  (Some m : Header) !! key = m !! key.
Proof. reflexivity. Qed.

Lemma Header_lookup_nil (key : string) : (None : Header) !! key = None.
Proof. reflexivity. Qed.

(** [replaceBody] panics on a response without header map, and on
    no other. *)
Lemma replaceBody_nil resp body :
  resp_Header resp = None -> replaceBody resp body = Panics.
Proof. intros H. unfold replaceBody. now rewrite H. Qed.

Lemma replaceBody_returns resp body :
  resp_Header resp <> None -> exists resp', replaceBody resp body = Returns resp'.
Proof.
  intros H. unfold replaceBody.
  destruct (resp_Header resp); [now eexists|contradiction].
Qed.

(** What [replaceBody] leaves: the new body in a fresh buffer, its
    length in the field and in the header, no transfer encoding, and
    every other header as it was. *)
Lemma replaceBody_spec resp body resp' :
  replaceBody resp body = Returns resp' ->
  resp_Body resp' = NopCloser_Buffer body
  /\ resp_ContentLength resp' = Z.of_nat (String.length body)
  /\ resp_Header resp' !! "Content-Length"
     = Some [Sprintf_d (Z.of_nat (String.length body))]
  /\ atoi (Header_Get (resp_Header resp') "Content-Length")
     = Some (Z.of_nat (String.length body))
  /\ resp_Header resp' !! "Transfer-Encoding" = None
  /\ (forall k, k <> "Content-Length" -> k <> "Transfer-Encoding" ->
        resp_Header resp' !! k = resp_Header resp !! k)
  /\ StatusCode resp' = StatusCode resp
  /\ Status resp' = Status resp.
Proof.
  unfold replaceBody.
  destruct (resp_Header resp) as [h|] eqn:Hh; [|discriminate].
  intros [= <-]. unfold Header_Get.
  cbn [resp_Body resp_ContentLength resp_Header StatusCode Status Header_Del].
  rewrite !Header_lookup_Some.
  assert ("Transfer-Encoding" <> "Content-Length") as Hne by discriminate.
  repeat split.
  - rewrite lookup_delete_ne by congruence. apply lookup_insert_eq.
  - rewrite lookup_delete_ne by congruence. rewrite lookup_insert_eq.
    apply atoi_itoa.
  - apply lookup_delete_eq.
  - intros k H1 H2. rewrite !Header_lookup_Some.
    rewrite lookup_delete_ne by congruence.
    now rewrite lookup_insert_ne by congruence.
Qed.

(** A response whose content type is read as an event stream has a
    header map. *)
Lemma isContentType_header resp (expected : string) :
  expected <> EmptyString ->
  isContentType (Header_Get (resp_Header resp) "Content-Type") expected = true ->
  resp_Header resp <> None.
Proof.
  intros Hne Hct Hnil. rewrite Hnil in Hct.
  destruct expected as [|x expected]; [contradiction|].
  cbn in Hct. discriminate.
Qed.

Lemma processResponse_stream c resp :
  200 <= StatusCode resp < 300 ->
  filterTextSnapshot c = true ->
  isContentType (Header_Get (resp_Header resp) "Content-Type")
    "text/event-stream" = true ->
  process c resp
  = match ReadAll (resp_Body resp) with
    | Panics => Panics
    | Returns (_, Some e, rest) => Returns (inl (setResponseBody resp rest))
    | Returns (respBody, None, _) =>
        match replaceBody resp (fix_body respBody) with
        | Panics => Panics
        | Returns resp' => Returns (inl resp')
        end
    end.
Proof.
  intros [Hlo Hhi] Hflag Hct. unfold processResponse.
  rewrite (proj2 (Z.leb_le _ _) Hlo), (proj2 (Z.ltb_lt _ _) Hhi), Hflag, Hct.
  reflexivity.
Qed.

Lemma processResponse_error_status c resp :
  300 <= StatusCode resp ->
  process c resp
  = match ReadAll (resp_Body resp) with
    | Panics => Panics
    | Returns (_, Some e, _) => Returns (inr e)
    | Returns (body, None, _) =>
        match replaceBody resp body with
        | Panics => Panics
        | Returns resp' => Returns (inl resp')
        end
    end.
Proof.
  intros H. unfold processResponse.
  assert ((StatusCode resp <? 300) = false) as -> by (apply Z.ltb_ge; lia).
  rewrite andb_false_r, (proj2 (Z.leb_le _ _) H). reflexivity.
Qed.

(** Every other response goes back as the upstream gave it, its body
    unread. *)
Lemma processResponse_other c resp :
  StatusCode resp < 200
  \/ 200 <= StatusCode resp < 300
     /\ (filterTextSnapshot c = false
         \/ isContentType (Header_Get (resp_Header resp) "Content-Type")
              "text/event-stream" = false) ->
  process c resp = Returns (inl resp).
Proof.
  intros H. unfold processResponse.
  destruct H as [H | [[Hlo Hhi] H]].
  - assert ((200 <=? StatusCode resp) = false) as -> by (apply Z.leb_gt; lia).
    assert ((300 <=? StatusCode resp) = false) as -> by (apply Z.leb_gt; lia).
    reflexivity.
  - rewrite (proj2 (Z.leb_le _ _) Hlo), (proj2 (Z.ltb_lt _ _) Hhi). cbn [andb].
    destruct H as [-> | ->]; [reflexivity|].
    destruct (filterTextSnapshot c); reflexivity.
Qed.

(** *** The request side *)

Lemma remapModel_condition req :
  String.eqb (Method req) "POST"
  && (String.eqb (Header_Get (req_Header req) "Content-Type") "application/json"
      || strings.HasPrefix (Header_Get (req_Header req) "Content-Type")
           "application/json;") = true
  <-> Method req = "POST"
      /\ (Header_Get (req_Header req) "Content-Type" = "application/json"
          \/ strings.HasPrefix (Header_Get (req_Header req) "Content-Type")
               "application/json;" = true).
Proof.
  rewrite andb_true_iff, orb_true_iff, !String.eqb_eq. reflexivity.
Qed.

Lemma remapModel_applies c req body data model newModel modifiedBody :
  Method req = "POST" ->
  (Header_Get (req_Header req) "Content-Type" = "application/json"
   \/ strings.HasPrefix (Header_Get (req_Header req) "Content-Type")
        "application/json;" = true) ->
  json_Unmarshal body = inl data ->
  data !! "model" = Some (JString model) ->
  modelMap c !! model = Some newModel ->
  json_Marshal (<["model" := JString newModel]> data) = inl modifiedBody ->
  remap c req body
  = setContentLength (setBody req (NopCloser_Buffer modifiedBody))
      (Z.of_nat (String.length modifiedBody)).
Proof.
  intros Hm Hct Hu Hd Hmap Hmar. unfold remapModel.
  rewrite (proj2 (remapModel_condition req) (conj Hm Hct)).
  rewrite Hu, Hd. cbn [assert_string]. now rewrite Hmap, Hmar.
Qed.

Lemma remapModel_skips c req body :
  ~ remap_applies json_Unmarshal c req body -> remap c req body = req.
Proof.
  intros Hno. unfold remapModel.
  destruct (String.eqb (Method req) "POST" && _) eqn:Hc; [|reflexivity].
  apply remapModel_condition in Hc as [Hm Hct].
  destruct (json_Unmarshal body) as [data|err] eqn:Hu; [|reflexivity].
  destruct (data !! "model") as [[| | |model| |]|] eqn:Hd; try reflexivity.
  cbn [assert_string].
  destruct (modelMap c !! model) as [newModel|] eqn:Hmap; [|reflexivity].
  exfalso. apply Hno. split; [exact Hm|]. split; [exact Hct|].
  exists data, model, newModel. auto.
Qed.

(** The remapper never touches method, URL or headers. *)
Lemma remapModel_envelope c req body :
  Method (remap c req body) = Method req
  /\ URL (remap c req body) = URL req
  /\ req_Header (remap c req body) = req_Header req.
Proof.
  unfold remapModel.
  destruct (String.eqb (Method req) "POST" && _); [|auto].
  destruct (json_Unmarshal body) as [data|err]; [|auto].
  destruct (assert_string (data !! "model")) as [model|]; [|auto].
  destruct (modelMap c !! model) as [newModel|]; [|auto].
  destruct (json_Marshal _); auto.
Qed.

(** C3: for a POST request whose content type is [application/json],
    bare or with parameters, and whose body parses as a JSON object with
    a string [model] that is a key of the mapping table, the body
    forwarded is the JSON encoding of the object with [model] replaced
    by the mapped value and every other field as it was, and the content
    length of the request is the length of that body. *)
Theorem RoundTrip_remaps_model
    c req body rest data model newModel modifiedBody :
  ReadAll (req_Body req) = Returns (body, None, rest) ->
  Method req = "POST" ->
  (Header_Get (req_Header req) "Content-Type" = "application/json"
   \/ strings.HasPrefix (Header_Get (req_Header req) "Content-Type")
        "application/json;" = true) ->
  json_Unmarshal body = inl data ->
  data !! "model" = Some (JString model) ->
  modelMap c !! model = Some newModel ->
  json_Marshal (<["model" := JString newModel]> data) = inl modifiedBody ->
  roundTrip c req
  = forward c
      {| Method := Method req; URL := URL req; req_Header := req_Header req;
         req_Body := NopCloser_Buffer modifiedBody;
         req_ContentLength := Z.of_nat (String.length modifiedBody) |}
  /\ (<["model" := JString newModel]> data) !! "model" = Some (JString newModel)
  /\ (forall k, k <> "model" ->
        (<["model" := JString newModel]> data) !! k = data !! k).
Proof.
  intros Hr Hm Hct Hu Hd Hmap Hmar. split; [|split].
  - rewrite (RoundTrip_read _ _ _ _ Hr).
    rewrite (remapModel_applies c (setBody req (NopCloser_Buffer body)) body
               data model newModel modifiedBody Hm Hct Hu Hd Hmap Hmar).
    reflexivity.
  - apply lookup_insert_eq.
  - intros k Hk. now apply lookup_insert_ne.
Qed.

(** The part of C4 that holds, for a request whose body has been
    read: when the preconditions of the remapper fail (the method is not
    POST, the content type is neither [application/json] nor starts with
    [application/json;], the body is not a JSON object, [model] is
    missing or not a string, or its value is not a key of the mapping
    table), the body forwarded is the input body, byte for byte, the
    content length is left as it was, and the request is forwarded, not
    rejected. *)
Theorem RoundTrip_forwards_unchanged c req body rest :
  ReadAll (req_Body req) = Returns (body, None, rest) ->
  ~ remap_applies json_Unmarshal c req body ->
  remap c (setBody req (NopCloser_Buffer body)) body
  = setBody req (NopCloser_Buffer body)
  /\ roundTrip c req
     = forward c
         {| Method := Method req; URL := URL req; req_Header := req_Header req;
            req_Body := NopCloser_Buffer body;
            req_ContentLength := req_ContentLength req |}.
Proof.
  intros Hr Hno.
  assert (remap c (setBody req (NopCloser_Buffer body)) body
          = setBody req (NopCloser_Buffer body)) as Hskip
    by (apply remapModel_skips; exact Hno).
  split; [exact Hskip|].
  rewrite (RoundTrip_read _ _ _ _ Hr), Hskip. reflexivity.
Qed.

(** *** The response side *)


(** C7: after each replacement of a body by the post-processor, on a
    filtered 2xx event stream and on a response of status 300 or more,
    the [Content-Length] header is the decimal length of the new body,
    the content length field is that length, and there is no
    [Transfer-Encoding] header; for status 300 or more the new body is
    the body read.  The replacement is carried out on every response
    that has a header map; on one that has none [replaceBody] panics and
    no response is left to speak of. *)
Theorem processResponse_replaced_framing c resp body rest newBody :
  ReadAll (resp_Body resp) = Returns (body, None, rest) ->
  (200 <= StatusCode resp < 300
   /\ filterTextSnapshot c = true
   /\ isContentType (Header_Get (resp_Header resp) "Content-Type")
        "text/event-stream" = true
   /\ newBody = fix_body body)
  \/ (300 <= StatusCode resp /\ newBody = body) ->
  (resp_Header resp <> None ->
   exists resp',
     process c resp = Returns (inl resp')
     /\ resp_Body resp' = NopCloser_Buffer newBody
     /\ resp_ContentLength resp' = Z.of_nat (String.length newBody)
     /\ resp_Header resp' !! "Content-Length"
        = Some [Sprintf_d (Z.of_nat (String.length newBody))]
     /\ atoi (Header_Get (resp_Header resp') "Content-Length")
        = Some (Z.of_nat (String.length newBody))
     /\ resp_Header resp' !! "Transfer-Encoding" = None)
  /\ (resp_Header resp = None -> process c resp = Panics)
  /\ (200 <= StatusCode resp < 300 -> resp_Header resp <> None).
Proof.
  intros Hr Hcase.
  assert (process c resp
          = match replaceBody resp newBody with
            | Panics => Panics
            | Returns resp' => Returns (inl resp')
            end) as Hp.
  { destruct Hcase as [(Hsc & Hflag & Hct & ->) | (Hsc & ->)].
    - rewrite (processResponse_stream c resp Hsc Hflag Hct). now rewrite Hr.
    - rewrite (processResponse_error_status c resp Hsc). now rewrite Hr. }
  split; [|split].
  - intros Hh. destruct (replaceBody_returns resp newBody Hh) as [resp' Hrep].
    exists resp'.
    destruct (replaceBody_spec resp newBody resp' Hrep)
      as (Hb & Hl & Hcl & Hat & Hte & _).
    rewrite Hp, Hrep. auto 6.
  - intros Hh. now rewrite Hp, (replaceBody_nil resp newBody Hh).
  - intros Hsc. destruct Hcase as [(_ & _ & Hct & _) | (Hge & _)]; [|lia].
    apply (isContentType_header resp "text/event-stream"); [discriminate|exact Hct].
Qed.

(** The part of C9 that holds: the post-processor reads the body of
    a response of status 300 or more in full and, when the response has
    a header map, replaces it by the same bytes; when the read fails
    with an error, the error is returned and no response.  So does
    [RoundTrip], once it has read the request body and the upstream has
    answered.  On a response without header map whose body was read,
    [replaceBody] panics. *)
Theorem RoundTrip_error_status c resp :
  300 <= StatusCode resp ->
  (forall body rest,
     ReadAll (resp_Body resp) = Returns (body, None, rest) ->
     (resp_Header resp <> None ->
      exists resp',
        replaceBody resp body = Returns resp'
        /\ process c resp = Returns (inl resp')
        /\ resp_Body resp' = NopCloser_Buffer body)
     /\ (resp_Header resp = None -> process c resp = Panics))
  /\ (forall body e rest,
        ReadAll (resp_Body resp) = Returns (body, Some e, rest) ->
        process c resp = Returns (inr e))
  /\ (forall req reqBody reqRest,
        ReadAll (req_Body req) = Returns (reqBody, None, reqRest) ->
        transport http_DefaultTransport c
          (remap c (setBody req (NopCloser_Buffer reqBody)) reqBody)
        = Returns (inl resp) ->
        roundTrip c req = process c resp).
Proof.
  intros Hsc. split; [|split].
  - intros body rest Hr.
    rewrite (processResponse_error_status c resp Hsc), Hr. split.
    + intros Hh. destruct (replaceBody_returns resp body Hh) as [resp' Hrep].
      exists resp'. rewrite Hrep. repeat split.
      now destruct (replaceBody_spec resp body resp' Hrep) as (Hb & _).
    + intros Hh. now rewrite (replaceBody_nil resp body Hh).
  - intros body e rest Hr.
    now rewrite (processResponse_error_status c resp Hsc), Hr.
  - intros req reqBody reqRest Hr Ht.
    now rewrite (RoundTrip_read _ _ _ _ Hr), (exchange_response _ _ _ Ht).
Qed.

(** C10: on a 2xx event stream with the filter on, a failure to read
    the response body is swallowed: the post-processor returns the
    response without error, with its headers and content length
    untouched and its body the upstream's stream as the failed read left
    it, not a buffer; and so does [RoundTrip], once it has read the
    request body and the upstream has answered. *)
Theorem RoundTrip_stream_read_error c resp respBody e rest' :
  200 <= StatusCode resp < 300 ->
  filterTextSnapshot c = true ->
  isContentType (Header_Get (resp_Header resp) "Content-Type")
    "text/event-stream" = true ->
  ReadAll (resp_Body resp) = Returns (respBody, Some e, rest') ->
  let resp' :=
    {| Status := Status resp; StatusCode := StatusCode resp;
       resp_Header := resp_Header resp; resp_Body := rest';
       resp_ContentLength := resp_ContentLength resp |} in
  process c resp = Returns (inl resp')
  /\ (exists s, resp_Body resp = Stream s
                /\ rest' = Stream (snd (stream_ReadAll s)))
  /\ (forall req reqBody reqRest,
        ReadAll (req_Body req) = Returns (reqBody, None, reqRest) ->
        transport http_DefaultTransport c
          (remap c (setBody req (NopCloser_Buffer reqBody)) reqBody)
        = Returns (inl resp) ->
        roundTrip c req = Returns (inl resp')).
Proof.
  intros Hsc Hflag Hct Hrr resp'.
  assert (process c resp = Returns (inl resp')) as Hp.
  { rewrite (processResponse_stream c resp Hsc Hflag Hct). now rewrite Hrr. }
  split; [exact Hp|split].
  - destruct (resp_Body resp) as [s|b|]; [|discriminate|discriminate].
    exists s. split; [reflexivity|].
    cbn in Hrr. destruct (stream_ReadAll s) as [[b' e'] s'].
    now inversion Hrr.
  - intros req reqBody reqRest Hr Ht.
    now rewrite (RoundTrip_read _ _ _ _ Hr), (exchange_response _ _ _ Ht).
Qed.

End Transport.

(** ** The transport with the codec of the Go library *)

Lemma ValidString_model : ValidString "model".
Proof.
  repeat (apply Valid_ascii; [vm_compute; reflexivity|]). apply Valid_empty.
Qed.

Section CodecTransport.

Variable stream : Type.
Variable stream_ReadAll : stream -> string * option error * stream.
Variable http_DefaultTransport : RoundTripper stream.

(** C6, as the code has it: on a rewrite of [model], the body
    forwarded is the encoding of the decoded input with the entry of
    [model] replaced, and decoding the forwarded bytes gives back every
    other field of the input as [json.Unmarshal] decodes it from the
    input bytes: the same keys, and for every key other than [model] the
    same value.  The entry of [model] decodes to the new name when that
    is well-formed UTF-8.  (The values are decoded in full, numbers to
    [float64], and encoded again; their text is not carried over.) *)
Theorem RoundTrip_remap_keeps_decoded_fields
    (c : loggingTransport stream) (req : Request stream)
    (body : string) (rest : ReadCloser stream)
    (data : gmap string value) (model newModel : string) :
  io_ReadAll stream_ReadAll (req_Body req) = Returns (body, None, rest) ->
  Method req = "POST" ->
  (Header_Get (req_Header req) "Content-Type" = "application/json"
   \/ strings.HasPrefix (Header_Get (req_Header req) "Content-Type")
        "application/json;" = true) ->
  json.Unmarshal body = inl data ->
  data !! "model" = Some (JString model) ->
  modelMap c !! model = Some newModel ->
  exists (modifiedBody : string) (forwarded : gmap string value),
    json.Marshal (<["model" := JString newModel]> data) = inl modifiedBody
    /\ RoundTrip stream_ReadAll json.Unmarshal json.Marshal
         http_DefaultTransport c req
       = exchange stream_ReadAll json.Unmarshal http_DefaultTransport c
           {| Method := Method req; URL := URL req; req_Header := req_Header req;
              req_Body := NopCloser_Buffer modifiedBody;
              req_ContentLength := Z.of_nat (String.length modifiedBody) |}
    /\ json.Unmarshal modifiedBody = inl forwarded
    /\ (forall k, k <> "model" -> forwarded !! k = data !! k)
    /\ dom forwarded = dom data
    /\ (ValidString newModel -> forwarded !! "model" = Some (JString newModel)).
Proof.
  intros Hr Hm Hct Hu Hd Hmap.
  destruct (Unmarshal_Marshal_insert body data "model" newModel Hu ValidString_model)
    as (modifiedBody & s' & Hmar & Hback & Hvalid).
  exists modifiedBody, (<["model" := JString s']> data).
  split; [exact Hmar|]. split; [|split; [exact Hback|split; [|split]]].
  - rewrite (RoundTrip_read _ _ _ _ _ _ _ _ _ Hr).
    now rewrite (remapModel_applies _ json.Unmarshal json.Marshal c
                   (setBody req (NopCloser_Buffer body)) body
                   data model newModel modifiedBody Hm Hct Hu Hd Hmap Hmar).
  - intros k Hk. now apply lookup_insert_ne.
  - rewrite dom_insert_L.
    assert ("model" ∈ dom data) as Hin by (apply elem_of_dom; eauto).
    apply set_eq. intros k. rewrite elem_of_union, elem_of_singleton.
    split; [intros [->|Hk]; assumption | auto].
  - intros Hnew. rewrite (Hvalid Hnew). apply lookup_insert_eq.
Qed.

End CodecTransport.

(** On the codec of [encoding/json] the encoding cannot fail: a POST
    with a JSON content type whose body decodes to an object with a
    mapped string [model] is always forwarded rewritten. *)
Theorem RoundTrip_remaps_model_json
    (stream : Type) (stream_ReadAll : stream -> string * option error * stream)
    (http_DefaultTransport : RoundTripper stream)
    (c : loggingTransport stream) (req : Request stream)
    (body : string) (rest : ReadCloser stream)
    (data : gmap string value) (model newModel : string) :
  io_ReadAll stream_ReadAll (req_Body req) = Returns (body, None, rest) ->
  Method req = "POST" ->
  (Header_Get (req_Header req) "Content-Type" = "application/json"
   \/ strings.HasPrefix (Header_Get (req_Header req) "Content-Type")
        "application/json;" = true) ->
  json.Unmarshal body = inl data ->
  data !! "model" = Some (JString model) ->
  modelMap c !! model = Some newModel ->
  exists modifiedBody,
    json.Marshal (<["model" := JString newModel]> data) = inl modifiedBody
    /\ RoundTrip stream_ReadAll json.Unmarshal json.Marshal
         http_DefaultTransport c req
       = exchange stream_ReadAll json.Unmarshal http_DefaultTransport c
           {| Method := Method req; URL := URL req;
              req_Header := req_Header req;
              req_Body := NopCloser_Buffer modifiedBody;
              req_ContentLength := Z.of_nat (String.length modifiedBody) |}.
Proof.
  intros Hr Hm Hct Hu Hd Hmap.
  destruct (Marshal_after_Unmarshal body data "model" newModel Hu)
    as [modifiedBody Hmar].
  exists modifiedBody. split; [exact Hmar|].
  rewrite (RoundTrip_read _ _ _ _ _ _ _ _ _ Hr).
  now rewrite (remapModel_applies _ _ _ c
                 (setBody req (NopCloser_Buffer body)) body data model newModel
                 modifiedBody Hm Hct Hu Hd Hmap Hmar).
Qed.

(** ** The theorems at work on the concrete runtime *)

Import Testbed.

(** The cases of [TestLoggingTransport_RoundTrip]: what reaches the
    mock upstream, which answers with the body it received. *)
Example test_Should_modify_dangerous_model :
  runRoundTrip testTransport (testRequest "application/json" dangerousBody)
  = echo lessSafeBody.
Proof. vm_compute. reflexivity. Qed.

Example test_Should_modify_dangerous_model_with_charset :
  runRoundTrip testTransport
    (testRequest "application/json; charset=utf-8" dangerousBody)
  = echo lessSafeBody.
Proof. vm_compute. reflexivity. Qed.

Example test_Should_not_modify_other_models :
  runRoundTrip testTransport (testRequest "application/json" otherModelBody)
  = echo otherModelBody.
Proof. vm_compute. reflexivity. Qed.

Example test_Should_not_modify_if_model_is_not_a_string :
  runRoundTrip testTransport (testRequest "application/json" numberModelBody)
  = echo numberModelBody.
Proof. vm_compute. reflexivity. Qed.

Example test_Should_not_modify_if_model_field_is_not_present :
  runRoundTrip testTransport (testRequest "application/json" otherFieldBody)
  = echo otherFieldBody.
Proof. vm_compute. reflexivity. Qed.

Example test_Should_not_modify_if_content_type_is_invalid :
  runRoundTrip testTransport invalidTypeRequest = echo dangerousBody.
Proof. vm_compute. reflexivity. Qed.

(** Malformed JSON is forwarded as it came. *)
Example malformed_json_is_forwarded :
  runRoundTrip testTransport (testRequest "application/json" (dq "{'model':"))
  = echo (dq "{'model':").
Proof. vm_compute. reflexivity. Qed.

(** The scenarios of the specification for the line filter. *)
Example snapshot_frame_is_dropped :
  fixStreamingResponse json.Unmarshal snapshotBody = doneBody
  /\ snd (fixStreamingResponse_loop json.Unmarshal
            (strings.Split snapshotBody LF)) = true.
Proof. split; vm_compute; reflexivity. Qed.

Example text_frame_without_snapshot_is_kept :
  fixStreamingResponse json.Unmarshal textBody = textBody
  /\ snd (fixStreamingResponse_loop json.Unmarshal
            (strings.Split textBody LF)) = false.
Proof. split; vm_compute; reflexivity. Qed.

(** Neither sentinel is JSON: under this codec the frames the filter
    drops are the [data:] frames whose payload parses as an object that
    the drop predicate matches, and nothing more need be said. *)
Example sentinels_do_not_parse :
  (exists e, json.Unmarshal "[DONE]" = inr e)
  /\ (exists e, json.Unmarshal EmptyString = inr e).
Proof. split; eexists; vm_compute; reflexivity. Qed.

Lemma spec_dropped_json (line : string) :
  spec_dropped json.Unmarshal line
  = isDataFrame line
    && match json.Unmarshal (payload line) with
       | inl data => skipTextContainingSnapshot data
       | inr _ => false
       end.
Proof.
  unfold spec_dropped.
  destruct (isDataFrame line); [cbn [andb]|reflexivity].
  destruct (String.eqb_spec (payload line) "[DONE]") as [->|_]; [reflexivity|].
  destruct (String.eqb_spec (payload line) EmptyString) as [->|_]; reflexivity.
Qed.

(** C4 at a request without body: the preconditions of the remapper
    fail, the method being GET, and the request ought to be forwarded
    as it is; but [io.ReadAll] is called on the nil [Body] and
    [RoundTrip] panics before anything is forwarded.  A GET whose body
    is there and empty is forwarded. *)
Lemma RoundTrip_bodiless_request_panics :
  ~ remap_applies json.Unmarshal testTransport bodilessRequest EmptyString
  /\ runRoundTrip testTransport bodilessRequest = Panics
  /\ runRoundTrip testTransport getRequest = echo EmptyString.
Proof.
  split; [|split].
  - intros (H & _). discriminate.
  - reflexivity.
  - vm_compute. reflexivity.
Qed.

Lemma RoundTrip_remaps_model_witness :
  RoundTrip canned_ReadAll json.Unmarshal json.Marshal (mockRoundTripper 200)
    testTransport dangerousRequest
  = exchange canned_ReadAll json.Unmarshal (mockRoundTripper 200) testTransport
      {| Method := Method dangerousRequest; URL := URL dangerousRequest;
         req_Header := req_Header dangerousRequest;
         req_Body := NopCloser_Buffer lessSafeBody;
         req_ContentLength := Z.of_nat (String.length lessSafeBody) |}
  /\ (<["model" := JString "less-safe-model"]>
        ({[ "model" := JString "some-dangerous-model" ]} : gmap string value))
       !! "model" = Some (JString "less-safe-model")
  /\ (forall k, k <> "model" ->
        (<["model" := JString "less-safe-model"]>
           ({[ "model" := JString "some-dangerous-model" ]} : gmap string value))
          !! k
        = ({[ "model" := JString "some-dangerous-model" ]} : gmap string value) !! k).
Proof.
  apply (RoundTrip_remaps_model canned canned_ReadAll json.Unmarshal json.Marshal
           (mockRoundTripper 200) testTransport dangerousRequest dangerousBody
           drained {[ "model" := JString "some-dangerous-model" ]}
           "some-dangerous-model" "less-safe-model" lessSafeBody).
  - reflexivity.
  - reflexivity.
  - left. reflexivity.
  - vm_compute. reflexivity.
  - vm_compute. reflexivity.
  - vm_compute. reflexivity.
  - vm_compute. reflexivity.
Defined.

Lemma RoundTrip_forwards_unchanged_witness :
  remapModel json.Unmarshal json.Marshal testTransport
    (setBody invalidTypeRequest (NopCloser_Buffer dangerousBody)) dangerousBody
  = setBody invalidTypeRequest (NopCloser_Buffer dangerousBody)
  /\ RoundTrip canned_ReadAll json.Unmarshal json.Marshal (mockRoundTripper 200)
       testTransport invalidTypeRequest
     = exchange canned_ReadAll json.Unmarshal (mockRoundTripper 200) testTransport
         {| Method := Method invalidTypeRequest; URL := URL invalidTypeRequest;
            req_Header := req_Header invalidTypeRequest;
            req_Body := NopCloser_Buffer dangerousBody;
            req_ContentLength := req_ContentLength invalidTypeRequest |}.
Proof.
  apply (RoundTrip_forwards_unchanged canned canned_ReadAll json.Unmarshal
           json.Marshal (mockRoundTripper 200) testTransport invalidTypeRequest
           dangerousBody drained).
  - reflexivity.
  - intros (_ & [H|H] & _); vm_compute in H; discriminate.
Defined.

Lemma RoundTrip_remap_keeps_decoded_fields_witness :
  exists (modifiedBody : string) (forwarded : gmap string value),
    json.Marshal
      (<["model" := JString "less-safe-model"]>
         ({[ "model" := JString "some-dangerous-model";
             "id" := JNumber (S754_finite false 4503599627370496 1) ]}
          : gmap string value)) = inl modifiedBody
    /\ RoundTrip canned_ReadAll json.Unmarshal json.Marshal (mockRoundTripper 200)
         testTransport (testRequest "application/json" oddIdBody)
       = exchange canned_ReadAll json.Unmarshal (mockRoundTripper 200)
           testTransport
           {| Method := "POST"; URL := "/";
              req_Header := Some {[ "Content-Type" := ["application/json"] ]};
              req_Body := NopCloser_Buffer modifiedBody;
              req_ContentLength := Z.of_nat (String.length modifiedBody) |}
    /\ json.Unmarshal modifiedBody = inl forwarded
    /\ (forall k, k <> "model" ->
          forwarded !! k
          = ({[ "model" := JString "some-dangerous-model";
                "id" := JNumber (S754_finite false 4503599627370496 1) ]}
             : gmap string value) !! k)
    /\ dom forwarded
       = dom ({[ "model" := JString "some-dangerous-model";
                 "id" := JNumber (S754_finite false 4503599627370496 1) ]}
              : gmap string value)
    /\ (ValidString "less-safe-model" ->
        forwarded !! "model" = Some (JString "less-safe-model")).
Proof.
  apply (RoundTrip_remap_keeps_decoded_fields canned canned_ReadAll
           (mockRoundTripper 200) testTransport
           (testRequest "application/json" oddIdBody) oddIdBody drained
           {[ "model" := JString "some-dangerous-model";
              "id" := JNumber (S754_finite false 4503599627370496 1) ]}
           "some-dangerous-model" "less-safe-model").
  - reflexivity.
  - reflexivity.
  - left. reflexivity.
  - vm_compute. reflexivity.
  - vm_compute. reflexivity.
  - vm_compute. reflexivity.
Defined.

(** C6 fails as stated: the integer 9007199254740993 of the field [id]
    reaches the upstream as 9007199254740992, and a request that carries
    9007199254740992 is forwarded with the very same body, so that the
    upstream cannot tell which of the two the client sent. *)
Lemma RoundTrip_remap_rounds_numbers :
  runRoundTrip testTransport (testRequest "application/json" oddIdBody)
  = echo forwardedIdBody
  /\ runRoundTrip testTransport (testRequest "application/json" evenIdBody)
     = echo forwardedIdBody
  /\ oddIdBody <> evenIdBody.
Proof.
  split; [|split].
  - vm_compute. reflexivity.
  - vm_compute. reflexivity.
  - intros H. vm_compute in H. discriminate.
Qed.



Lemma processResponse_replaced_framing_witness :
  exists resp',
    processResponse canned_ReadAll json.Unmarshal
      (proxyBefore false notFoundResponse) notFoundResponse
    = Returns (inl resp')
    /\ resp_Body resp' = NopCloser_Buffer notFoundBody
    /\ resp_ContentLength resp' = Z.of_nat (String.length notFoundBody)
    /\ resp_Header resp' !! "Content-Length"
       = Some [Sprintf_d (Z.of_nat (String.length notFoundBody))]
    /\ atoi (Header_Get (resp_Header resp') "Content-Length")
       = Some (Z.of_nat (String.length notFoundBody))
    /\ resp_Header resp' !! "Transfer-Encoding" = None.
Proof.
  destruct (processResponse_replaced_framing canned canned_ReadAll json.Unmarshal
              (proxyBefore false notFoundResponse) notFoundResponse notFoundBody
              drained notFoundBody) as (H & _ & _).
  - reflexivity.
  - right. split; [cbn; lia|reflexivity].
  - apply H. discriminate.
Defined.


Lemma RoundTrip_error_status_witness :
  processResponse canned_ReadAll json.Unmarshal
    (proxyBefore false brokenErrorResponse) brokenErrorResponse
  = Returns (inr "unexpected EOF")
  /\ RoundTrip canned_ReadAll json.Unmarshal json.Marshal (mockRoundTripper 200)
       (proxyBefore false brokenErrorResponse) getRequest
     = Returns (inr "unexpected EOF").
Proof.
  destruct (RoundTrip_error_status canned canned_ReadAll json.Unmarshal
              json.Marshal (mockRoundTripper 200)
              (proxyBefore false brokenErrorResponse) brokenErrorResponse
              ltac:(cbn; lia)) as (_ & Herr & Hround).
  pose proof (Herr "data: " "unexpected EOF"
                (Stream {| pending := EmptyString;
                           fault := Some "unexpected EOF" |}) eq_refl) as H.
  split; [exact H|].
  rewrite (Hround getRequest EmptyString drained eq_refl eq_refl). exact H.
Defined.

Lemma RoundTrip_stream_read_error_witness :
  let resp' :=
    {| Status := Status brokenResponse;
       StatusCode := StatusCode brokenResponse;
       resp_Header := resp_Header brokenResponse;
       resp_Body :=
         Stream {| pending := EmptyString; fault := Some "unexpected EOF" |};
       resp_ContentLength := resp_ContentLength brokenResponse |} in
  processResponse canned_ReadAll json.Unmarshal (proxyBefore true brokenResponse)
    brokenResponse = Returns (inl resp')
  /\ RoundTrip canned_ReadAll json.Unmarshal json.Marshal (mockRoundTripper 200)
       (proxyBefore true brokenResponse) getRequest
     = Returns (inl resp').
Proof.
  destruct (RoundTrip_stream_read_error canned canned_ReadAll json.Unmarshal
              json.Marshal (mockRoundTripper 200)
              (proxyBefore true brokenResponse) brokenResponse "data: "
              "unexpected EOF"
              (Stream {| pending := EmptyString;
                         fault := Some "unexpected EOF" |})
              ltac:(cbn; lia) eq_refl ltac:(vm_compute; reflexivity) eq_refl)
    as (Hp & _ & Hround).
  split; [exact Hp|].
  exact (Hround getRequest EmptyString drained eq_refl eq_refl).
Defined.

(** * Further properties *)

(** ** Strings *)

Lemma String_prefix_app (p s : string) :
  String.prefix p s = true <-> exists t, s = p +:+ t.
Proof.
  revert s. induction p as [|x p IH]; intros s.
  - destruct s; (split; [intros _; eexists; reflexivity | reflexivity]).
  - destruct s as [|y s]; simpl.
    + split; [discriminate | intros [t Ht]; discriminate].
    + destruct (ascii_dec x y) as [->|Hxy].
      * rewrite IH. split; intros [t Ht]; exists t.
        -- change (String y s = String y (p +:+ t)). now rewrite Ht.
        -- now injection Ht.
      * split; [discriminate | intros [t Ht]; injection Ht; congruence].
Qed.

Lemma Contains_spec (s substr : string) :
  strings.Contains s substr = true
  <-> exists pre post, s = pre +:+ substr +:+ post.
Proof.
  induction s as [|c s IH]; cbn [strings.Contains].
  - rewrite orb_false_r, String_prefix_app. split.
    + intros [t Ht]. now exists EmptyString, t.
    + intros ([|x pre] & post & H); [now exists post | discriminate].
  - rewrite orb_true_iff, String_prefix_app, IH. split.
    + intros [[t Ht] | (pre & post & H)].
      * now exists EmptyString, t.
      * exists (String c pre), post.
        change (String c s = String c (pre +:+ substr +:+ post)). now rewrite H.
    + intros ([|x pre] & post & H).
      * left. now exists post.
      * right. injection H as _ H. now exists pre, post.
Qed.

(** The content type test is a test for a substring: the expected
    type may stand anywhere in the header value, and the test for the
    prefix followed by a semicolon adds nothing. *)
Theorem isContentType_substring (contentType expected : string) :
  isContentType contentType expected = strings.Contains contentType expected
  /\ (isContentType contentType expected = true
      <-> exists pre post, contentType = pre +:+ expected +:+ post).
Proof.
  assert (isContentType contentType expected
          = strings.Contains contentType expected) as Heq.
  { unfold isContentType, strings.HasPrefix.
    destruct (strings.Contains contentType expected) eqn:Hc; [reflexivity|].
    destruct (String.prefix (expected +:+ ";") contentType) eqn:Hp;
      [|reflexivity].
    apply String_prefix_app in Hp as [t Ht].
    assert (strings.Contains contentType expected = true) as Hc'.
    { apply Contains_spec. exists EmptyString, (";" +:+ t).
      rewrite Ht. apply (string_app_assoc expected ";" t). }
    congruence. }
  split; [exact Heq|]. rewrite Heq. apply Contains_spec.
Qed.

(** ** More on the line filter *)

Section LineFilterMore.

Variable json_Unmarshal : string -> gmap string value + error.

Local Abbreviation dropped := (spec_dropped json_Unmarshal).
Local Abbreviation kept_of lines :=
  (List.filter (fun line => negb (spec_dropped json_Unmarshal line)) lines).
Local Abbreviation fix_body := (fixStreamingResponse json_Unmarshal).

(** The bytes of lines, each counted with a line feed. *)
Local Abbreviation weight lines :=
  (list_sum (List.map (fun l : string => S (String.length l)) lines)).

Lemma Join_weight (ls : list string) :
  ls <> [] -> S (String.length (strings.Join ls nl)) = weight ls.
Proof.
  induction ls as [|l ls IH]; intros Hne; [contradiction|].
  destruct ls as [|l' ls]; [simpl; lia|].
  change (strings.Join (l :: l' :: ls) nl)
    with (l +:+ String LF (strings.Join (l' :: ls) nl)).
  specialize (IH ltac:(discriminate)).
  change (weight (l :: l' :: ls))
    with (S (String.length l) + weight (l' :: ls))%nat.
  rewrite <- IH, string_app_length. cbn [String.length]. lia.
Qed.

Lemma weight_cons (l : string) (ls : list string) :
  weight (l :: ls) = (S (String.length l) + weight ls)%nat.
Proof. reflexivity. Qed.

Lemma kept_weight (lines : list string) :
  (weight (kept_of lines) <= weight lines)%nat
  /\ (existsb dropped lines = true ->
      (weight (kept_of lines) + 7 <= weight lines)%nat).
Proof.
  induction lines as [|line lines [IH1 IH2]]; [split; [simpl; lia|discriminate]|].
  cbn [List.filter existsb]. rewrite weight_cons.
  destruct (dropped line) eqn:E; cbn [negb orb].
  - split; [lia|]. intros _.
    assert (6 <= String.length line)%nat.
    { unfold spec_dropped, isDataFrame, strings.HasPrefix in E.
      destruct (String.prefix "data: " line) eqn:Hp; [|discriminate].
      apply String_prefix_app in Hp as [t ->]. rewrite string_app_length. simpl. lia. }
    lia.
  - rewrite weight_cons. split; [lia|]. intros H. specialize (IH2 H). lia.
Qed.

(** The filter never makes a body longer; it gives back the very
    bytes it was given exactly when it dropped no line, and fewer bytes
    when it dropped one. *)
Theorem fixStreamingResponse_shrinks (body : string) :
  (String.length (fix_body body) <= String.length body)%nat
  /\ (fix_body body = body
      <-> snd (fixStreamingResponse_loop json_Unmarshal
                 (strings.Split body LF)) = false)
  /\ (snd (fixStreamingResponse_loop json_Unmarshal (strings.Split body LF))
      = true ->
      (String.length (fix_body body) < String.length body)%nat).
Proof.
  pose proof (Join_weight (strings.Split body LF) (Split_nonempty body LF)) as Hb.
  rewrite Join_Split in Hb.
  destruct (kept_weight (strings.Split body LF)) as [Hle Hlt].
  rewrite fixStreamingResponse_loop_spec. cbn [snd].
  assert (existsb dropped (strings.Split body LF) = true ->
          (String.length (fix_body body) < String.length body)%nat) as Hstrict.
  { intros H. specialize (Hlt H). rewrite fixStreamingResponse_spec.
    unfold spec_filter.
    destruct (kept_of (strings.Split body LF)) as [|l ls] eqn:Ek.
    - simpl in *. lia.
    - pose proof (Join_weight (l :: ls)) as Hk.
      specialize (Hk ltac:(discriminate)). lia. }
  destruct (existsb dropped (strings.Split body LF)) eqn:E.
  - specialize (Hstrict eq_refl). split; [lia|]. split; [|auto].
    split; [intros Heq; rewrite Heq in Hstrict; lia|discriminate].
  - assert (fix_body body = body) as Heq.
    { unfold fixStreamingResponse.
      now rewrite fixStreamingResponse_loop_spec, E. }
    rewrite Heq. split; [lia|]. split; [split; auto|discriminate].
Qed.

(** No line of the output is a frame the filter drops: a [data:]
    frame of the output that is no sentinel and parses as an object of
    type ["text"] carries no snapshot. *)
Theorem fixStreamingResponse_clean (body line : string) (data : gmap string value) :
  In line (strings.Split (fix_body body) LF) ->
  strings.HasPrefix line "data: " = true ->
  strings.TrimPrefix line "data: " <> "[DONE]" ->
  strings.TrimPrefix line "data: " <> EmptyString ->
  json_Unmarshal (strings.TrimPrefix line "data: ") = inl data ->
  data !! "type" = Some (JString "text") ->
  data !! "snapshot" = None.
Proof.
  intros Hin Hp Hdone Hempty Hu Ht.
  assert (dropped line = false) as Hd.
  { rewrite fixStreamingResponse_lines in Hin.
    destruct (kept_of (strings.Split body LF)) as [|l ls] eqn:Ek.
    - destruct Hin as [<-|[]]. discriminate.
    - rewrite <- Ek in Hin. apply List.filter_In in Hin as [_ Hn].
      now apply negb_true_iff in Hn. }
  unfold spec_dropped, isDataFrame, payload in Hd.
  rewrite Hp, Hu in Hd. cbn [andb] in Hd.
  apply String.eqb_neq in Hdone, Hempty. rewrite Hdone, Hempty in Hd.
  cbn in Hd. unfold skipTextContainingSnapshot in Hd.
  rewrite Ht in Hd. cbn in Hd.
  destruct (data !! "snapshot"); [discriminate|reflexivity].
Qed.

End LineFilterMore.

(** ** The line filter on a body made of two chunks *)

Lemma Split_app (a b : string) :
  strings.Split (a +:+ String LF b) LF
  = strings.Split a LF ++ strings.Split b LF.
Proof.
  induction a as [|c a IH].
  - reflexivity.
  - change (String c a +:+ String LF b) with (String c (a +:+ String LF b)).
    cbn [strings.Split]. rewrite IH.
    destruct (Ascii.eqb c LF); [reflexivity|].
    pose proof (Split_nonempty a LF) as Hne.
    destruct (strings.Split a LF) as [|l ls]; [contradiction|reflexivity].
Qed.

Lemma Join_app (x y : list string) :
  x <> [] -> y <> [] ->
  strings.Join (x ++ y) nl = strings.Join x nl +:+ nl +:+ strings.Join y nl.
Proof.
  intros Hx Hy. induction x as [|e x IH]; [contradiction|].
  destruct x as [|e' x].
  - destruct y as [|e' y]; [contradiction|reflexivity].
  - change (strings.Join ((e :: e' :: x) ++ y) nl)
      with (e +:+ nl +:+ strings.Join ((e' :: x) ++ y) nl).
    change (strings.Join (e :: e' :: x) nl)
      with (e +:+ nl +:+ strings.Join (e' :: x) nl).
    rewrite IH by discriminate.
    now rewrite !string_app_assoc.
Qed.

Section LineFilterChunks.

Variable json_Unmarshal : string -> gmap string value + error.

Local Abbreviation loop := (fixStreamingResponse_loop json_Unmarshal).
Local Abbreviation fix_body := (fixStreamingResponse json_Unmarshal).

(** The loop over the lines of two chunks set one after the other
    keeps what it keeps of each, and has dropped a line when it drops
    one of either. *)
Lemma fixStreamingResponse_loop_app (a b : string) :
  loop (strings.Split (a +:+ nl +:+ b) LF)
  = (fst (loop (strings.Split a LF)) ++ fst (loop (strings.Split b LF)),
     snd (loop (strings.Split a LF)) || snd (loop (strings.Split b LF))).
Proof.
  change (a +:+ nl +:+ b) with (a +:+ String LF b).
  rewrite Split_app, !fixStreamingResponse_loop_spec. cbn [fst snd].
  now rewrite List.filter_app, existsb_app.
Qed.

(** The filter works line by line: of two chunks that each keep a
    line, set one after the other with a line feed between them, it
    makes what it makes of each, with the line feed between them. *)
Theorem fixStreamingResponse_chunks (a b : string) :
  fst (loop (strings.Split a LF)) <> [] ->
  fst (loop (strings.Split b LF)) <> [] ->
  fix_body (a +:+ nl +:+ b) = fix_body a +:+ nl +:+ fix_body b.
Proof.
  intros Ha Hb.
  rewrite !fixStreamingResponse_spec. unfold spec_filter.
  rewrite fixStreamingResponse_loop_spec in Ha, Hb. cbn [fst] in Ha, Hb.
  change (a +:+ nl +:+ b) with (a +:+ String LF b).
  rewrite Split_app, List.filter_app.
  now apply Join_app.
Qed.

End LineFilterChunks.

(** ** More on the transport *)

Section TransportMore.

Variable stream : Type.
Variable stream_ReadAll : stream -> string * option error * stream.
Variable json_Unmarshal : string -> gmap string value + error.
Variable json_Marshal : gmap string value -> string + error.
Variable http_DefaultTransport : RoundTripper stream.

Local Abbreviation ReadAll := (io_ReadAll stream_ReadAll).
Local Abbreviation remap := (remapModel json_Unmarshal json_Marshal).
Local Abbreviation process := (processResponse stream_ReadAll json_Unmarshal).
Local Abbreviation forward :=
  (exchange stream_ReadAll json_Unmarshal http_DefaultTransport).
Local Abbreviation roundTrip :=
  (RoundTrip stream_ReadAll json_Unmarshal json_Marshal http_DefaultTransport).
Local Abbreviation legacyRoundTrip :=
  (legacy_RoundTrip stream_ReadAll json_Unmarshal json_Marshal
     http_DefaultTransport).
Local Abbreviation fix_body := (fixStreamingResponse json_Unmarshal).

Implicit Types (c : loggingTransport stream) (req : Request stream)
  (resp : Response stream) (body : string) (rest : ReadCloser stream).

Lemma replaceBody_headers (h : gmap string (list string)) (v1 v2 : string) :
  delete "Transfer-Encoding"
    (<["Content-Length" := [v2]]>
       (delete "Transfer-Encoding" (<["Content-Length" := [v1]]> h)))
  = delete "Transfer-Encoding" (<["Content-Length" := [v2]]> h).
Proof.
  apply map_eq. intros k.
  destruct (decide (k = "Transfer-Encoding")) as [->|Hte].
  - now rewrite !lookup_delete_eq.
  - rewrite !lookup_delete_ne by congruence.
    destruct (decide (k = "Content-Length")) as [->|Hcl].
    + now rewrite !lookup_insert_eq.
    + rewrite !lookup_insert_ne by congruence.
      rewrite lookup_delete_ne by congruence.
      now rewrite lookup_insert_ne by congruence.
Qed.

Lemma replaceBody_twice resp (resp1 : Response stream) (body1 body2 : string) :
  replaceBody resp body1 = Returns resp1 ->
  replaceBody resp1 body2 = replaceBody resp body2.
Proof.
  unfold replaceBody.
  destruct (resp_Header resp) as [h|]; [|discriminate].
  intros [= <-]. cbn. now rewrite replaceBody_headers.
Qed.

(** Replacing the body twice is replacing it by the second body: no
    trace of the first is left, in the body, the content length or the
    headers; and on a response without header map the first call
    panics as the only call would. *)
Theorem replaceBody_overwrites resp (body1 body2 : string) :
  match replaceBody resp body1 with
  | Panics => Panics
  | Returns resp1 => replaceBody resp1 body2
  end
  = replaceBody resp body2.
Proof.
  destruct (replaceBody resp body1) as [resp1|] eqn:H1.
  - exact (replaceBody_twice resp resp1 body1 body2 H1).
  - unfold replaceBody in *.
    destruct (resp_Header resp); [discriminate|reflexivity].
Qed.

(** Whatever the post-processor does to a response it returns, the
    status line, the status code and every header but [Content-Length]
    and [Transfer-Encoding] are as the upstream gave them; and either
    the headers and the content length are untouched, or the response
    is what [replaceBody] makes of it. *)
Theorem processResponse_keeps_status_and_headers c resp (resp' : Response stream) :
  process c resp = Returns (inl resp') ->
  Status resp' = Status resp
  /\ StatusCode resp' = StatusCode resp
  /\ (forall k, k <> "Content-Length" -> k <> "Transfer-Encoding" ->
        resp_Header resp' !! k = resp_Header resp !! k)
  /\ (resp_Header resp' = resp_Header resp
      /\ resp_ContentLength resp' = resp_ContentLength resp
      \/ exists body, replaceBody resp body = Returns resp').
Proof.
  assert (forall body,
            replaceBody resp body = Returns resp' ->
            Status resp' = Status resp
            /\ StatusCode resp' = StatusCode resp
            /\ (forall k, k <> "Content-Length" -> k <> "Transfer-Encoding" ->
                  resp_Header resp' !! k = resp_Header resp !! k)
            /\ (resp_Header resp' = resp_Header resp
                /\ resp_ContentLength resp' = resp_ContentLength resp
                \/ exists body', replaceBody resp body' = Returns resp'))
    as Hreplaced.
  { intros body Hrep.
    destruct (replaceBody_spec _ resp body resp' Hrep)
      as (_ & _ & _ & _ & _ & Hk & Hsc & Hst).
    repeat split; auto. right. now exists body. }
  assert (Status resp' = Status resp -> StatusCode resp' = StatusCode resp ->
          resp_Header resp' = resp_Header resp ->
          resp_ContentLength resp' = resp_ContentLength resp ->
          Status resp' = Status resp
          /\ StatusCode resp' = StatusCode resp
          /\ (forall k, k <> "Content-Length" -> k <> "Transfer-Encoding" ->
                resp_Header resp' !! k = resp_Header resp !! k)
          /\ (resp_Header resp' = resp_Header resp
              /\ resp_ContentLength resp' = resp_ContentLength resp
              \/ exists body, replaceBody resp body = Returns resp'))
    as Hsame.
  { intros H1 H2 H3 H4. repeat split; auto. intros k _ _. now rewrite H3. }
  unfold processResponse.
  destruct ((200 <=? StatusCode resp) && (StatusCode resp <? 300)).
  - destruct (filterTextSnapshot c);
      [|intros [= <-]; now apply Hsame].
    destruct (isContentType _ _);
      [|intros [= <-]; now apply Hsame].
    destruct (ReadAll (resp_Body resp)) as [[[respBody [e|]] rest]|];
      [| |discriminate].
    + intros [= <-]. now apply Hsame.
    + destruct (replaceBody resp _) as [r|] eqn:Hrep; [|discriminate].
      intros [= <-]. now apply (Hreplaced _ Hrep).
  - destruct (300 <=? StatusCode resp);
      [|intros [= <-]; now apply Hsame].
    destruct (ReadAll (resp_Body resp)) as [[[body [e|]] rest]|];
      [discriminate| |discriminate].
    destruct (replaceBody resp body) as [r|] eqn:Hrep; [|discriminate].
    intros [= <-]. now apply (Hreplaced _ Hrep).
Qed.

(** No line of the filter's output is a frame the filter drops. *)
Lemma fixStreamingResponse_output_kept (body : string) :
  existsb (spec_dropped json_Unmarshal) (strings.Split (fix_body body) LF)
  = false.
Proof.
  rewrite fixStreamingResponse_lines.
  destruct (List.filter _ (strings.Split body LF)) as [|l ls] eqn:Ek.
  - reflexivity.
  - rewrite <- Ek. apply kept_not_dropped.
Qed.

(** The post-processor leaves its own work alone: a response it
    returned with its body in a buffer, given to it once more, comes
    back as it is. *)
Theorem processResponse_again c resp (resp' : Response stream) (body : string) :
  process c resp = Returns (inl resp') ->
  resp_Body resp' = NopCloser_Buffer body ->
  process c resp' = Returns (inl resp').
Proof.
  intros Hp Hb.
  assert (forall b r, replaceBody resp b = Returns r ->
            Header_Get (resp_Header r) "Content-Type"
            = Header_Get (resp_Header resp) "Content-Type"
            /\ StatusCode r = StatusCode resp
            /\ ReadAll (resp_Body r)
               = Returns (b, None, NopCloser_Buffer EmptyString)
            /\ replaceBody r b = Returns r) as Hrep.
  { intros b r Hr.
    destruct (replaceBody_spec _ resp b r Hr) as (Hbody & _ & _ & _ & _ & Hk & Hsc & _).
    split; [|split; [exact Hsc|split]].
    - unfold Header_Get. now rewrite Hk by discriminate.
    - now rewrite Hbody.
    - now rewrite (replaceBody_twice resp r b b Hr). }
  assert (forall b, fix_body (fix_body b) = fix_body b) as Hfix.
  { intros b. unfold fixStreamingResponse at 1.
    now rewrite fixStreamingResponse_loop_spec,
      fixStreamingResponse_output_kept. }
  revert Hp. unfold processResponse at 1.
  destruct ((200 <=? StatusCode resp) && (StatusCode resp <? 300)) eqn:H2xx.
  - destruct (filterTextSnapshot c) eqn:Hflag.
    + destruct (isContentType _ _) eqn:Hit.
      * destruct (ReadAll (resp_Body resp)) as [[[respBody [e|]] rest]|] eqn:Hr;
          [| |discriminate].
        -- (* a read that failed leaves a stream, not a buffer *)
           intros [= <-]. cbn [resp_Body setResponseBody] in Hb. exfalso.
           destruct (resp_Body resp) as [s|b|]; cbn [io_ReadAll] in Hr;
             [destruct (stream_ReadAll s) as [[? ?] ?]|..]; simplify_eq.
        -- destruct (replaceBody resp (fix_body respBody)) as [r|] eqn:Hrr;
             [|discriminate].
           intros [= <-].
           destruct (Hrep _ _ Hrr) as (Hct & Hsc & Hread & Htwice).
           unfold processResponse.
           rewrite Hct, Hsc, H2xx, Hflag, Hit, Hread.
           cbv beta iota. now rewrite Hfix, Htwice.
      * intros [= <-]. unfold processResponse. now rewrite H2xx, Hflag, Hit.
    + intros [= <-]. unfold processResponse. now rewrite H2xx, Hflag.
  - destruct (300 <=? StatusCode resp) eqn:H3xx.
    + destruct (ReadAll (resp_Body resp)) as [[[b [e|]] rest]|];
        [discriminate| |discriminate].
      destruct (replaceBody resp b) as [r|] eqn:Hrr; [|discriminate].
      intros [= <-].
      destruct (Hrep _ _ Hrr) as (Hct & Hsc & Hread & Htwice).
      unfold processResponse. rewrite Hsc, H2xx, H3xx, Hread.
      cbv beta iota. now rewrite Htwice.
    + intros [= <-]. unfold processResponse. now rewrite H2xx, H3xx.
Qed.

(** *** Where the errors of [RoundTrip] come from *)

(** [RoundTrip] makes no error of its own.  The error it returns is
    the error of the upstream for the request it forwarded, or the
    error of reading the body of an answer of status 300 or more; a
    request body or an event stream that cannot be read is never
    reported as an error.  The request forwarded has the method, the
    URL and the headers of the request received. *)
Theorem RoundTrip_error_origin c req (e : error) :
  roundTrip c req = Returns (inr e) ->
  exists fwd : Request stream,
    Method fwd = Method req /\ URL fwd = URL req
    /\ req_Header fwd = req_Header req
    /\ (transport http_DefaultTransport c fwd = Returns (inr e)
        \/ exists resp b rest,
             transport http_DefaultTransport c fwd = Returns (inl resp)
             /\ 300 <= StatusCode resp
             /\ ReadAll (resp_Body resp) = Returns (b, Some e, rest)).
Proof.
  unfold RoundTrip.
  destruct (ReadAll (req_Body req)) as [[[body [e'|]] rest]|]; [| |discriminate].
  - intros H. exists (setBody req rest). repeat split. now left.
  - intros H.
    exists (remap c (setBody req (NopCloser_Buffer body)) body).
    destruct (remapModel_envelope _ json_Unmarshal json_Marshal c
                (setBody req (NopCloser_Buffer body)) body) as (Hm & Hu & Hh).
    split; [exact Hm|]. split; [exact Hu|]. split; [exact Hh|].
    revert H. unfold exchange.
    destruct (transport http_DefaultTransport c _) as [[resp|e']|];
      [|intros [= ->]; now left|discriminate].
    intros H. right. revert H. unfold processResponse.
    destruct ((200 <=? StatusCode resp) && (StatusCode resp <? 300)).
    + destruct (filterTextSnapshot c); [|discriminate].
      destruct (isContentType _ _); [|discriminate].
      destruct (ReadAll (resp_Body resp)) as [[[? [?|]] ?]|];
        [discriminate| |discriminate].
      destruct (replaceBody resp _); discriminate.
    + destruct (300 <=? StatusCode resp) eqn:H3; [|discriminate].
      destruct (ReadAll (resp_Body resp)) as [[[b [e'|]] rest']|] eqn:Hr;
        [| |discriminate].
      2: destruct (replaceBody resp b); discriminate.
      intros [= ->]. exists resp, b, rest'.
      split; [reflexivity|]. split; [now apply Z.leb_le|exact Hr].
Qed.

(** *** What reaches the upstream *)

(** Once the body of the request is read, what [RoundTrip] hands to
    the upstream has the method, the URL and every header of the
    request received, the [Content-Length] header included, and its
    body is a fresh buffer: of the bytes read, with the content length
    as it was, or of other bytes, with their length as content
    length. *)
Theorem RoundTrip_forwarded_request c req body rest :
  ReadAll (req_Body req) = Returns (body, None, rest) ->
  exists (fwd : Request stream) (b : string),
    roundTrip c req = forward c fwd
    /\ Method fwd = Method req /\ URL fwd = URL req
    /\ req_Header fwd = req_Header req
    /\ req_Body fwd = NopCloser_Buffer b
    /\ (b = body /\ req_ContentLength fwd = req_ContentLength req
        \/ req_ContentLength fwd = Z.of_nat (String.length b)).
Proof.
  intros Hr. unfold RoundTrip. rewrite Hr.
  unfold remapModel.
  destruct (String.eqb (Method _) "POST" && _);
    [|exists (setBody req (NopCloser_Buffer body)), body; repeat split; auto].
  destruct (json_Unmarshal body) as [data|err];
    [|exists (setBody req (NopCloser_Buffer body)), body; repeat split; auto].
  destruct (assert_string (data !! "model")) as [model|];
    [|exists (setBody req (NopCloser_Buffer body)), body; repeat split; auto].
  destruct (modelMap c !! model) as [newModel|];
    [|exists (setBody req (NopCloser_Buffer body)), body; repeat split; auto].
  destruct (json_Marshal _) as [modifiedBody|err];
    [|exists (setBody req (NopCloser_Buffer body)), body; repeat split; auto].
  eexists _, modifiedBody. repeat split. now right.
Qed.

(** *** The two versions of [RoundTrip] *)

(** The later [RoundTrip] is the earlier one followed by the treatment
    of the response: both forward the same request to the same
    upstream, both panic or fail together, and both hand the answer
    back untreated when the request body could not be read. *)
Theorem RoundTrip_after_legacy c req :
  roundTrip c req
  = match legacyRoundTrip (legacy_of c) req with
    | Panics => Panics
    | Returns (inr e) => Returns (inr e)
    | Returns (inl resp) =>
        match ReadAll (req_Body req) with
        | Returns (_, None, _) => process c resp
        | _ => Returns (inl resp)
        end
    end.
Proof.
  unfold RoundTrip, legacy_RoundTrip.
  change (legacy_transport http_DefaultTransport (legacy_of c))
    with (transport http_DefaultTransport c).
  destruct (ReadAll (req_Body req)) as [[[body [e|]] rest]|]; [| |reflexivity].
  - destruct (transport http_DefaultTransport c _) as [[resp|e']|]; reflexivity.
  - cbv zeta. unfold exchange.
    change (legacy_modelMap (legacy_of c)) with (modelMap c).
    fold (remap c (setBody req (NopCloser_Buffer body)) body).
    destruct (transport http_DefaultTransport c _) as [[resp|e']|]; reflexivity.
Qed.

(** *** When [RoundTrip] returns *)

Lemma io_ReadAll_returns (r : ReadCloser stream) :
  r <> nilReadCloser -> exists res, ReadAll r = Returns res.
Proof.
  intros Hr. destruct r as [s|b|]; cbn [io_ReadAll].
  - destruct (stream_ReadAll s) as [[b err] s']. now eexists.
  - now eexists.
  - contradiction.
Qed.

(** [RoundTrip] returns, with a response or with an error, whenever
    the request has a body, the upstream does not panic, and the
    responses of the upstream have a body and a header map. *)
Theorem RoundTrip_returns c req :
  req_Body req <> nilReadCloser ->
  (forall fwd, transport http_DefaultTransport c fwd <> Panics) ->
  (forall fwd resp,
     transport http_DefaultTransport c fwd = Returns (inl resp) ->
     resp_Body resp <> nilReadCloser /\ resp_Header resp <> None) ->
  exists res, roundTrip c req = Returns res.
Proof.
  intros Hbody Hup Hresp.
  assert (forall fwd, exists res, forward c fwd = Returns res) as Hforward.
  { intros fwd. unfold exchange. specialize (Hup fwd). specialize (Hresp fwd).
    destruct (transport http_DefaultTransport c fwd) as [[resp|e]|];
      [|now eexists|contradiction].
    destruct (Hresp resp eq_refl) as [Hb Hh].
    destruct (io_ReadAll_returns (resp_Body resp) Hb) as [[[b err] rest] Hr].
    assert (forall b', exists res,
              match replaceBody resp b' with
              | Panics => Panics
              | Returns resp' => Returns (inl resp')
              end = Returns res :> outcome (Response stream + error)) as Hrep.
    { intros b'. destruct (replaceBody_returns _ resp b' Hh) as [r ->].
      now eexists. }
    unfold processResponse. rewrite Hr.
    destruct ((200 <=? StatusCode resp) && (StatusCode resp <? 300)).
    - destruct (filterTextSnapshot c); [|now eexists].
      destruct (isContentType _ _); [|now eexists].
      destruct err; [now eexists|apply Hrep].
    - destruct (300 <=? StatusCode resp); [|now eexists].
      destruct err; [now eexists|apply Hrep]. }
  unfold RoundTrip.
  destruct (io_ReadAll_returns (req_Body req) Hbody) as [[[body err] rest] ->].
  destruct err as [e|].
  - specialize (Hup (setBody req rest)).
    destruct (transport http_DefaultTransport c (setBody req rest));
      [now eexists|contradiction].
  - apply Hforward.
Qed.

End TransportMore.

(** ** The settings *)

(** *** Splitting a mapping at its first ["="] *)

Lemma Contains_char (c x : ascii) (s : string) :
  strings.Contains (String c s) (String x EmptyString)
  = Ascii.eqb x c || strings.Contains s (String x EmptyString).
Proof.
  cbn [strings.Contains String.prefix].
  destruct (ascii_dec x c) as [->|Hne].
  - rewrite String_prefix_nil. now destruct (Ascii.eqb_spec c c).
  - now destruct (Ascii.eqb_spec x c).
Qed.

(** [strings.SplitN(s, sep, 2)]: [s] whole when [sep] does not occur
    in it, and else what stands before the first [sep] and what stands
    after it. *)
Lemma SplitN_2 (s : string) (sep : ascii) :
  strings.Contains s (String sep EmptyString) = false
  /\ strings.SplitN s sep 2 = [s]
  \/ exists k v,
       s = k +:+ String sep v
       /\ strings.Contains k (String sep EmptyString) = false
       /\ strings.SplitN s sep 2 = [k; v].
Proof.
  induction s as [|c s IH].
  - left. split; reflexivity.
  - rewrite Contains_char. cbn [strings.SplitN].
    destruct (Ascii.eqb_spec c sep) as [->|Hc].
    + right. exists EmptyString, s. repeat split. now destruct s.
    + assert (Ascii.eqb sep c = false) as -> by (apply Ascii.eqb_neq; congruence).
      cbn [orb].
      destruct IH as [[Hno Hs] | (k & v & Hs & Hno & Hkv)].
      * left. split; [exact Hno|]. now rewrite Hs.
      * right. exists (String c k), v. split; [|split].
        -- change (String c s = String c (k +:+ String sep v)). now rewrite Hs.
        -- rewrite Contains_char.
           assert (Ascii.eqb sep c = false) as ->
               by (apply Ascii.eqb_neq; congruence).
           exact Hno.
        -- now rewrite Hkv.
Qed.

Lemma Contains_sep_app (k v : string) (sep : ascii) :
  strings.Contains (k +:+ String sep v) (String sep EmptyString) = true.
Proof. apply Contains_spec. now exists k, v. Qed.

(** A mapping with a field before its ["="] splits into the field and
    the rest, whatever the rest holds. *)
Lemma SplitN_2_app (k v : string) (sep : ascii) :
  strings.Contains k (String sep EmptyString) = false ->
  strings.SplitN (k +:+ String sep v) sep 2 = [k; v].
Proof.
  induction k as [|c k IH]; intros Hk.
  - change (EmptyString +:+ String sep v) with (String sep v).
    cbn [strings.SplitN]. rewrite Ascii.eqb_refl. now destruct v.
  - rewrite Contains_char in Hk. apply orb_false_iff in Hk as [Hc Hk].
    change (String c k +:+ String sep v) with (String c (k +:+ String sep v)).
    cbn [strings.SplitN].
    assert (Ascii.eqb c sep = false) as ->.
    { apply Ascii.eqb_neq. apply Ascii.eqb_neq in Hc. congruence. }
    now rewrite (IH Hk).
Qed.

Lemma find_app_or {A : Type} (p : A -> bool) (l l' : list A) :
  List.find p (l ++ l')
  = match List.find p l with
    | Some x => Some x
    | None => List.find p l'
    end.
Proof.
  induction l as [|x l IH]; [reflexivity|].
  cbn [List.find app]. now destruct (p x).
Qed.

(** *** The mapping table *)

Lemma Handle_modelMap_cons_invalid (m : string) (rest : list string)
    (modelMap : gmap string string) :
  strings.Contains m "=" = false ->
  Handle_modelMap (m :: rest) modelMap = inr ("invalid model mapping: " +:+ m).
Proof.
  intros Hm. cbn [Handle_modelMap].
  destruct (SplitN_2 m "=") as [[_ ->] | (k & v & -> & _ & _)]; [reflexivity|].
  now rewrite Contains_sep_app in Hm.
Qed.

Lemma Handle_modelMap_cons_valid (k v : string) (rest : list string)
    (modelMap : gmap string string) :
  strings.Contains k "=" = false ->
  Handle_modelMap ((k +:+ "=" +:+ v) :: rest) modelMap
  = Handle_modelMap rest (<[k := v]> modelMap).
Proof.
  intros Hk. cbn [Handle_modelMap].
  change (k +:+ "=" +:+ v) with (k +:+ String "=" v).
  now rewrite (SplitN_2_app k v "=" Hk).
Qed.

Lemma Contains_eq_split (m : string) :
  strings.Contains m "=" = true ->
  exists k v, m = k +:+ "=" +:+ v /\ strings.Contains k "=" = false.
Proof.
  intros Hm.
  destruct (SplitN_2 m "=") as [[Hno _] | (k & v & -> & Hk & _)].
  - congruence.
  - now exists k, v.
Qed.

(** The loop goes through the whole list, or it stops at the first
    mapping without ["="]. *)
Lemma Handle_modelMap_cases (modelMappings : list string)
    (modelMap : gmap string string) :
  Forall (fun m => strings.Contains m "=" = true) modelMappings
  /\ (exists modelMap', Handle_modelMap modelMappings modelMap = inl modelMap')
  \/ exists pre m post,
       modelMappings = pre ++ m :: post
       /\ Forall (fun m => strings.Contains m "=" = true) pre
       /\ strings.Contains m "=" = false
       /\ Handle_modelMap modelMappings modelMap
          = inr ("invalid model mapping: " +:+ m).
Proof.
  revert modelMap.
  induction modelMappings as [|m rest IH]; intros modelMap.
  - left. split; [constructor|]. now exists modelMap.
  - destruct (strings.Contains m "=") eqn:Hm.
    + destruct (Contains_eq_split m Hm) as (k & v & -> & Hk).
      rewrite (Handle_modelMap_cons_valid k v rest modelMap Hk).
      destruct (IH (<[k := v]> modelMap))
        as [[Hall Hok] | (pre & m & post & -> & Hpre & Hbad & Herr)].
      * left. split; [now constructor|exact Hok].
      * right. exists ((k +:+ "=" +:+ v) :: pre), m, post.
        split; [reflexivity|]. split; [now constructor|]. now split.
    + right. exists [], m, rest. split; [reflexivity|].
      split; [constructor|]. split; [exact Hm|].
      now apply Handle_modelMap_cons_invalid.
Qed.

Lemma Handle_modelMap_first_invalid (pre post : list string) (m : string)
    (modelMap : gmap string string) :
  Forall (fun m => strings.Contains m "=" = true) pre ->
  strings.Contains m "=" = false ->
  Handle_modelMap (pre ++ m :: post) modelMap
  = inr ("invalid model mapping: " +:+ m).
Proof.
  intros Hpre Hbad. revert modelMap.
  induction Hpre as [|x pre Hx Hpre IH]; intros modelMap.
  - now apply Handle_modelMap_cons_invalid.
  - destruct (Contains_eq_split x Hx) as (k & v & -> & Hk).
    change (((k +:+ "=" +:+ v) :: pre) ++ m :: post)
      with ((k +:+ "=" +:+ v) :: (pre ++ m :: post)).
    rewrite (Handle_modelMap_cons_valid k v _ modelMap Hk). apply IH.
Qed.

(** The mapping table is built exactly when every [--model] flag
    holds an ["="]; if not, the error names the first flag that holds
    none, whatever the flags after it. *)
Theorem Handle_modelMap_valid_iff (modelMappings : list string)
    (modelMap : gmap string string) :
  (Forall (fun m => strings.Contains m "=" = true) modelMappings
   <-> exists modelMap', Handle_modelMap modelMappings modelMap = inl modelMap')
  /\ (forall pre m post,
        modelMappings = pre ++ m :: post ->
        Forall (fun m => strings.Contains m "=" = true) pre ->
        strings.Contains m "=" = false ->
        Handle_modelMap modelMappings modelMap
        = inr ("invalid model mapping: " +:+ m)).
Proof.
  split.
  - destruct (Handle_modelMap_cases modelMappings modelMap)
      as [[Hall Hok] | (pre & m & post & -> & Hpre & Hbad & Herr)].
    + split; auto.
    + split.
      * intros Hall. apply List.Forall_app in Hall as [_ Hall].
        inversion Hall; congruence.
      * intros [mm Hmm]. congruence.
  - intros pre m post -> Hpre Hbad.
    now apply Handle_modelMap_first_invalid.
Qed.

(** Every entry of the table that the loop adds comes from a
    [--model] flag, cut at its first ["="]: the key holds no ["="], and
    key, ["="] and value together are the flag. *)
Theorem Handle_modelMap_entries (modelMappings : list string)
    (modelMap modelMap' : gmap string string) (k v : string) :
  Handle_modelMap modelMappings modelMap = inl modelMap' ->
  modelMap' !! k = Some v ->
  modelMap !! k = Some v
  \/ In (k +:+ "=" +:+ v) modelMappings /\ strings.Contains k "=" = false.
Proof.
  revert modelMap.
  induction modelMappings as [|m rest IH]; intros modelMap Hm Hk.
  - injection Hm as <-. now left.
  - destruct (strings.Contains m "=") eqn:Hc.
    + destruct (Contains_eq_split m Hc) as (k0 & v0 & -> & Hk0).
      rewrite (Handle_modelMap_cons_valid k0 v0 rest modelMap Hk0) in Hm.
      destruct (IH _ Hm Hk) as [Hin | [Hin Hno]].
      * destruct (decide (k0 = k)) as [->|Hne].
        -- rewrite lookup_insert_eq in Hin. injection Hin as ->.
           right. split; [now left|exact Hk0].
        -- rewrite lookup_insert_ne in Hin by exact Hne. now left.
      * right. split; [now right|exact Hno].
    + rewrite (Handle_modelMap_cons_invalid m rest modelMap Hc) in Hm.
      discriminate.
Qed.

(** Flags written from pairs are read back as these pairs, values
    that hold an ["="] included; of two flags for one key the later
    wins, and a key without flag keeps what the table held. *)
Theorem Handle_modelMap_pairs (pairs : list (string * string))
    (modelMap : gmap string string) :
  Forall (fun kv => strings.Contains (fst kv) "=" = false) pairs ->
  exists modelMap',
    Handle_modelMap (List.map (fun kv => fst kv +:+ "=" +:+ snd kv) pairs) modelMap
    = inl modelMap'
    /\ forall k,
         modelMap' !! k
         = match List.find (fun kv => String.eqb (fst kv) k) (rev pairs) with
           | Some kv => Some (snd kv)
           | None => modelMap !! k
           end.
Proof.
  intros Hall. revert modelMap.
  induction Hall as [|[k0 v0] pairs Hk0 Hall IH]; intros modelMap.
  - exists modelMap. split; reflexivity.
  - cbn [List.map fst snd] in *.
    rewrite (Handle_modelMap_cons_valid k0 v0 _ modelMap Hk0).
    destruct (IH (<[k0 := v0]> modelMap)) as (mm & Hmm & Hlook).
    exists mm. split; [exact Hmm|]. intros k. rewrite Hlook.
    cbn [rev]. rewrite find_app_or.
    destruct (List.find _ (rev pairs)); [reflexivity|].
    cbn [List.find fst snd].
    destruct (String.eqb_spec k0 k) as [->|Hne].
    + apply lookup_insert_eq.
    + now apply lookup_insert_ne.
Qed.

(** *** [Handle] *)

Section SettingsProperties.

Variable URL : Type.
Variable url_Parse : string -> URL + error.

Local Abbreviation settings_of := (Handle_settings url_Parse).

Lemma length_zero_iff {A : Type} (l : list A) :
  (0 <? length l)%nat = false <-> l = [].
Proof. destruct l; cbn; split; congruence. Qed.

(** When [Handle] gets as far as to start the proxy, no argument was
    left over, the base URL was given and is the URL the proxy targets,
    the proxy listens on the port given, or on 8080 when none was, the
    filter flag is handed on as it is, every [--model] flag holds an
    ["="], and the mapping table is the one the loop builds from the
    empty table. *)
Theorem Handle_settings_started (args : list string) (baseUrl : string)
    (modelMappings : list string) (port : string) (filterTextSnapshot : bool)
    (s : settings URL) :
  settings_of args baseUrl modelMappings port filterTextSnapshot = inl s ->
  args = []
  /\ baseUrl <> EmptyString
  /\ url_Parse baseUrl = inl (set_target s)
  /\ set_filterTextSnapshot s = filterTextSnapshot
  /\ (port = EmptyString /\ set_addr s = ":8080"
      \/ port <> EmptyString /\ set_addr s = ":" +:+ port)
  /\ Forall (fun m => strings.Contains m "=" = true) modelMappings
  /\ Handle_modelMap modelMappings ∅ = inl (set_modelMap s).
Proof.
  unfold Handle_settings.
  destruct (0 <? length args)%nat eqn:Hargs; [discriminate|].
  apply length_zero_iff in Hargs.
  destruct (String.eqb_spec baseUrl EmptyString) as [|Hbase]; [discriminate|].
  destruct (Handle_modelMap modelMappings ∅) as [mm|e] eqn:Hmm; [|discriminate].
  destruct (url_Parse baseUrl) as [target|e]; [|discriminate].
  intros [= <-]. cbn [set_target set_filterTextSnapshot set_addr set_modelMap].
  split; [exact Hargs|]. split; [exact Hbase|]. split; [reflexivity|].
  split; [reflexivity|]. split; [|split].
  - destruct (String.eqb_spec port EmptyString) as [->|Hport]; [left|right]; auto.
  - destruct (Handle_modelMap_cases modelMappings ∅)
      as [[Hall _] | (pre & m & post & _ & _ & _ & Herr)]; [exact Hall|congruence].
  - reflexivity.
Qed.

(** The errors of [Handle] before the proxy starts, and their order:
    arguments left over, then a missing base URL, then the first
    [--model] flag without ["="], and only then a base URL that does not
    parse. *)
Theorem Handle_settings_errors (args : list string) (baseUrl : string)
    (modelMappings : list string) (port : string) (filterTextSnapshot : bool)
    (e : error) :
  settings_of args baseUrl modelMappings port filterTextSnapshot = inr e
  <-> args <> []
      /\ e = "unrecognized extra arguments: " +:+ strings.Join args " "
      \/ args = [] /\ baseUrl = EmptyString /\ e = "missing --base-url"
      \/ args = [] /\ baseUrl <> EmptyString
         /\ (exists pre m post,
               modelMappings = pre ++ m :: post
               /\ Forall (fun m => strings.Contains m "=" = true) pre
               /\ strings.Contains m "=" = false
               /\ e = "invalid model mapping: " +:+ m)
      \/ args = [] /\ baseUrl <> EmptyString
         /\ Forall (fun m => strings.Contains m "=" = true) modelMappings
         /\ exists err, url_Parse baseUrl = inr err
                        /\ e = "invalid --base-url: " +:+ err.
Proof.
  unfold Handle_settings.
  destruct args as [|a args].
  - cbn [length Nat.ltb Nat.leb].
    destruct (String.eqb_spec baseUrl EmptyString) as [Hbase|Hbase].
    + split.
      * intros [= <-]. right. left. auto.
      * intros [[H _] | [(_ & _ & ->) | [(_ & H & _) | (_ & H & _)]]];
          [contradiction|reflexivity|contradiction|contradiction].
    + destruct (Handle_modelMap_cases modelMappings ∅)
        as [[Hall [mm Hok]] | (pre & m & post & Hms & Hpre & Hbad & Herr)].
      * rewrite Hok. split.
        -- destruct (url_Parse baseUrl) as [target|err]; [discriminate|].
           intros [= <-]. right. right. right.
           split; [reflexivity|]. split; [exact Hbase|]. split; [exact Hall|].
           now exists err.
        -- intros [[H _] | [(_ & H & _) | [(_ & _ & H) | (_ & _ & _ & H)]]];
             [contradiction|contradiction| |].
           ++ destruct H as (pre & m & post & -> & _ & Hbad & _).
              apply List.Forall_app in Hall as [_ Hall].
              inversion Hall; congruence.
           ++ destruct H as (err & -> & ->). reflexivity.
      * rewrite Herr. split.
        -- intros [= <-]. right. right. left.
           split; [reflexivity|]. split; [exact Hbase|].
           now exists pre, m, post.
        -- intros [[H _] | [(_ & H & _) | [(_ & _ & H) | (_ & _ & H & _)]]];
             [contradiction|contradiction| |].
           ++ destruct H as (pre' & m' & post' & Hms' & Hpre' & Hbad' & ->).
              rewrite Hms' in Herr.
              rewrite (Handle_modelMap_first_invalid pre' post' m' ∅ Hpre' Hbad')
                in Herr.
              injection Herr as Herr. change (m' = m) in Herr. now subst.
           ++ rewrite Hms in H. apply List.Forall_app in H as [_ H].
              inversion H; congruence.
  - cbn [length Nat.ltb Nat.leb]. split.
    + intros [= <-]. left. split; [discriminate|reflexivity].
    + intros [[_ ->] | [(H & _) | [(H & _) | (H & _)]]];
        [reflexivity|discriminate..].
Qed.

End SettingsProperties.

(** ** From the command line to the upstream *)

Lemma Handle_modelMap_app (pre post : list string) (modelMap : gmap string string) :
  Handle_modelMap (pre ++ post) modelMap
  = match Handle_modelMap pre modelMap with
    | inl modelMap' => Handle_modelMap post modelMap'
    | inr err => inr err
    end.
Proof.
  revert modelMap. induction pre as [|m pre IH]; intros modelMap; [reflexivity|].
  change ((m :: pre) ++ post) with (m :: (pre ++ post)).
  cbn [Handle_modelMap].
  destruct (strings.SplitN m "=" 2) as [|from [|to [|? ?]]]; try reflexivity.
  apply IH.
Qed.

(** Flags for other keys leave the entry of a key as it is. *)
Lemma Handle_modelMap_other_keys (modelMappings : list string)
    (modelMap modelMap' : gmap string string) (k : string) :
  Handle_modelMap modelMappings modelMap = inl modelMap' ->
  Forall (fun m => strings.HasPrefix m (k +:+ "=") = false) modelMappings ->
  modelMap' !! k = modelMap !! k.
Proof.
  intros Hm Hall. revert modelMap Hm.
  induction Hall as [|m rest Hp Hall IH]; intros modelMap Hm.
  - now injection Hm as <-.
  - destruct (strings.Contains m "=") eqn:Hc.
    + destruct (Contains_eq_split m Hc) as (k0 & v0 & -> & Hk0).
      rewrite (Handle_modelMap_cons_valid k0 v0 rest modelMap Hk0) in Hm.
      rewrite (IH _ Hm). apply lookup_insert_ne. intros ->.
      assert (strings.HasPrefix (k +:+ "=" +:+ v0) (k +:+ "=") = true) as Ht.
      { apply String_prefix_app. exists v0. symmetry. apply string_app_assoc. }
      congruence.
    + rewrite (Handle_modelMap_cons_invalid m rest modelMap Hc) in Hm.
      discriminate.
Qed.

Section CommandLine.

Variable stream : Type.
Variable stream_ReadAll : stream -> string * option error * stream.
Variable json_Unmarshal : string -> gmap string value + error.
Variable json_Marshal : gmap string value -> string + error.
Variable http_DefaultTransport : RoundTripper stream.
Variable url_URL : Type.
Variable url_Parse : string -> url_URL + error.

(** What [--model FROM=TO] is for.  When [Handle] starts the proxy
    with such a flag, [FROM] holding no ["="] and no later flag being
    one for [FROM], a POST of a JSON object whose [model] is the string
    [FROM] reaches [http.DefaultTransport] with the encoding of the
    object with [model] set to [TO] as body, and the length of that as
    content length. *)
Theorem Handle_model_flag_remaps
    (args pre post : list string) (baseUrl port from to : string)
    (filterTextSnapshot : bool) (s : settings url_URL)
    (req : Request stream) (body modifiedBody : string)
    (rest : ReadCloser stream) (data : gmap string value) :
  Handle_settings url_Parse args baseUrl (pre ++ (from +:+ "=" +:+ to) :: post)
    port filterTextSnapshot = inl s ->
  strings.Contains from "=" = false ->
  Forall (fun m => strings.HasPrefix m (from +:+ "=") = false) post ->
  io_ReadAll stream_ReadAll (req_Body req) = Returns (body, None, rest) ->
  Method req = "POST" ->
  (Header_Get (req_Header req) "Content-Type" = "application/json"
   \/ strings.HasPrefix (Header_Get (req_Header req) "Content-Type")
        "application/json;" = true) ->
  json_Unmarshal body = inl data ->
  data !! "model" = Some (JString from) ->
  json_Marshal (<["model" := JString to]> data) = inl modifiedBody ->
  let c := newProxy_Transport (set_modelMap s) (set_filterTextSnapshot s) in
  modelMap c !! from = Some to
  /\ RoundTrip stream_ReadAll json_Unmarshal json_Marshal http_DefaultTransport
       c req
     = match http_DefaultTransport
               {| Method := Method req; URL := URL req;
                  req_Header := req_Header req;
                  req_Body := NopCloser_Buffer modifiedBody;
                  req_ContentLength := Z.of_nat (String.length modifiedBody) |}
       with
       | Panics => Panics
       | Returns (inr err) => Returns (inr err)
       | Returns (inl resp) =>
           processResponse stream_ReadAll json_Unmarshal c resp
       end.
Proof.
  intros Hs Hfrom Hpost Hr Hm Hct Hu Hd Hmar c.
  assert (modelMap c !! from = Some to) as Hmap.
  { subst c. cbn [modelMap newProxy_Transport].
    revert Hs. unfold Handle_settings.
    destruct (0 <? length args)%nat; [discriminate|].
    destruct (String.eqb baseUrl EmptyString); [discriminate|].
    destruct (Handle_modelMap _ ∅) as [mm|e] eqn:Hmm; [|discriminate].
    destruct (url_Parse baseUrl) as [target|e]; [|discriminate].
    intros [= <-]. cbn [set_modelMap].
    rewrite Handle_modelMap_app in Hmm.
    destruct (Handle_modelMap pre ∅) as [mm1|e]; [|discriminate].
    rewrite (Handle_modelMap_cons_valid from to post mm1 Hfrom) in Hmm.
    rewrite (Handle_modelMap_other_keys post _ mm from Hmm Hpost).
    apply lookup_insert_eq. }
  split; [exact Hmap|].
  rewrite (RoundTrip_read _ _ _ _ _ _ _ _ _ Hr).
  rewrite (remapModel_applies _ json_Unmarshal json_Marshal c
             (setBody req (NopCloser_Buffer body)) body
             data from to modifiedBody Hm Hct Hu Hd Hmap Hmar).
  reflexivity.
Qed.

End CommandLine.

(** ** The further properties at work on the concrete runtime *)

Lemma fixStreamingResponse_clean_witness :
  textData !! "snapshot" = None.
Proof.
  apply (fixStreamingResponse_clean json.Unmarshal mixedBody textLine textData).
  - vm_compute. right. left. reflexivity.
  - reflexivity.
  - intros H. vm_compute in H. discriminate.
  - intros H. vm_compute in H. discriminate.
  - vm_compute. reflexivity.
  - vm_compute. reflexivity.
Defined.

Lemma fixStreamingResponse_chunks_witness :
  fixStreamingResponse json.Unmarshal (snapshotBody +:+ nl +:+ textBody)
  = fixStreamingResponse json.Unmarshal snapshotBody +:+ nl
    +:+ fixStreamingResponse json.Unmarshal textBody.
Proof.
  apply (fixStreamingResponse_chunks json.Unmarshal snapshotBody textBody).
  - intros H. vm_compute in H. discriminate.
  - intros H. vm_compute in H. discriminate.
Defined.

Lemma processResponse_keeps_status_and_headers_witness :
  Status filteredResponse = Status snapshotResponse
  /\ StatusCode filteredResponse = StatusCode snapshotResponse
  /\ (forall k, k <> "Content-Length" -> k <> "Transfer-Encoding" ->
        resp_Header filteredResponse !! k = resp_Header snapshotResponse !! k)
  /\ (resp_Header filteredResponse = resp_Header snapshotResponse
      /\ resp_ContentLength filteredResponse
         = resp_ContentLength snapshotResponse
      \/ exists body, replaceBody snapshotResponse body = Returns filteredResponse).
Proof.
  apply (processResponse_keeps_status_and_headers canned canned_ReadAll
           json.Unmarshal (proxyBefore true snapshotResponse) snapshotResponse
           filteredResponse).
  vm_compute. reflexivity.
Defined.

Lemma processResponse_again_witness :
  processResponse canned_ReadAll json.Unmarshal
    (proxyBefore true snapshotResponse) filteredResponse
  = Returns (inl filteredResponse).
Proof.
  apply (processResponse_again canned canned_ReadAll json.Unmarshal
           (proxyBefore true snapshotResponse) snapshotResponse
           filteredResponse doneBody).
  - vm_compute. reflexivity.
  - reflexivity.
Defined.

Lemma RoundTrip_error_origin_witness :
  exists fwd : Request canned,
    Method fwd = Method getRequest /\ URL fwd = URL getRequest
    /\ req_Header fwd = req_Header getRequest
    /\ (transport (mockRoundTripper 200) (proxyBefore false brokenErrorResponse)
          fwd = Returns (inr "unexpected EOF")
        \/ exists resp b rest,
             transport (mockRoundTripper 200)
               (proxyBefore false brokenErrorResponse) fwd
             = Returns (inl resp)
             /\ 300 <= StatusCode resp
             /\ io_ReadAll canned_ReadAll (resp_Body resp)
                = Returns (b, Some "unexpected EOF", rest)).
Proof.
  apply (RoundTrip_error_origin canned canned_ReadAll json.Unmarshal
           json.Marshal (mockRoundTripper 200)
           (proxyBefore false brokenErrorResponse) getRequest "unexpected EOF").
  vm_compute. reflexivity.
Defined.

Lemma RoundTrip_forwarded_request_witness :
  exists (fwd : Request canned) (b : string),
    RoundTrip canned_ReadAll json.Unmarshal json.Marshal (mockRoundTripper 200)
      testTransport dangerousRequest
    = exchange canned_ReadAll json.Unmarshal (mockRoundTripper 200)
        testTransport fwd
    /\ Method fwd = Method dangerousRequest /\ URL fwd = URL dangerousRequest
    /\ req_Header fwd = req_Header dangerousRequest
    /\ req_Body fwd = NopCloser_Buffer b
    /\ (b = dangerousBody
        /\ req_ContentLength fwd = req_ContentLength dangerousRequest
        \/ req_ContentLength fwd = Z.of_nat (String.length b)).
Proof.
  apply (RoundTrip_forwarded_request canned canned_ReadAll json.Unmarshal
           json.Marshal (mockRoundTripper 200) testTransport dangerousRequest
           dangerousBody drained).
  reflexivity.
Defined.

Lemma RoundTrip_returns_witness :
  exists res,
    RoundTrip canned_ReadAll json.Unmarshal json.Marshal (mockRoundTripper 200)
      (proxyBefore true snapshotResponse) dangerousRequest
    = Returns res.
Proof.
  apply (RoundTrip_returns canned canned_ReadAll json.Unmarshal json.Marshal
           (mockRoundTripper 200) (proxyBefore true snapshotResponse)
           dangerousRequest).
  - discriminate.
  - intros fwd. discriminate.
  - intros fwd resp [= <-]. split; discriminate.
Defined.

Lemma Handle_modelMap_entries_witness :
  (∅ : gmap string string) !! "a" = Some "b=c"
  \/ In ("a" +:+ "=" +:+ "b=c") readmeMappings
     /\ strings.Contains "a" "=" = false.
Proof.
  apply (Handle_modelMap_entries readmeMappings ∅ readmeModelMap "a" "b=c").
  - vm_compute. reflexivity.
  - vm_compute. reflexivity.
Defined.

Lemma Handle_modelMap_pairs_witness :
  exists modelMap',
    Handle_modelMap
      (List.map (fun kv => fst kv +:+ "=" +:+ snd kv)
         [("a", "b=c"); ("a", "d")]) ∅
    = inl modelMap'
    /\ forall k,
         modelMap' !! k
         = match List.find (fun kv => String.eqb (fst kv) k)
                   (rev [("a", "b=c"); ("a", "d")]) with
           | Some kv => Some (snd kv)
           | None => (∅ : gmap string string) !! k
           end.
Proof.
  apply (Handle_modelMap_pairs [("a", "b=c"); ("a", "d")] ∅).
  repeat constructor.
Defined.

Lemma Handle_settings_started_witness :
  let s := {| set_target := "http://localhost:8081";
              set_modelMap := readmeModelMap;
              set_filterTextSnapshot := true;
              set_addr := ":8080" |} in
  ([] : list string) = []
  /\ "http://localhost:8081" <> EmptyString
  /\ keepURL "http://localhost:8081" = inl (set_target s)
  /\ set_filterTextSnapshot s = true
  /\ (EmptyString = EmptyString /\ set_addr s = ":8080"
      \/ EmptyString <> EmptyString /\ set_addr s = ":" +:+ EmptyString)
  /\ Forall (fun m => strings.Contains m "=" = true) readmeMappings
  /\ Handle_modelMap readmeMappings ∅ = inl (set_modelMap s).
Proof.
  apply (Handle_settings_started string keepURL [] "http://localhost:8081"
           readmeMappings EmptyString true
           {| set_target := "http://localhost:8081";
              set_modelMap := readmeModelMap;
              set_filterTextSnapshot := true;
              set_addr := ":8080" |}).
  vm_compute. reflexivity.
Defined.

Lemma Handle_model_flag_remaps_witness :
  let c : loggingTransport canned :=
    newProxy_Transport (set_modelMap testSettings)
      (set_filterTextSnapshot testSettings) in
  modelMap c !! "some-dangerous-model" = Some "less-safe-model"
  /\ RoundTrip canned_ReadAll json.Unmarshal json.Marshal (mockRoundTripper 200)
       c dangerousRequest
     = match mockRoundTripper 200
               {| Method := Method dangerousRequest;
                  URL := URL dangerousRequest;
                  req_Header := req_Header dangerousRequest;
                  req_Body := NopCloser_Buffer lessSafeBody;
                  req_ContentLength := Z.of_nat (String.length lessSafeBody) |}
       with
       | Panics => Panics
       | Returns (inr err) => Returns (inr err)
       | Returns (inl resp) =>
           processResponse canned_ReadAll json.Unmarshal c resp
       end.
Proof.
  apply (Handle_model_flag_remaps canned canned_ReadAll json.Unmarshal
           json.Marshal (mockRoundTripper 200) string keepURL
           [] [] ["a=b=c"] "http://localhost:8081" EmptyString
           "some-dangerous-model" "less-safe-model" false testSettings
           dangerousRequest dangerousBody lessSafeBody drained
           {[ "model" := JString "some-dangerous-model" ]}).
  - vm_compute. reflexivity.
  - reflexivity.
  - repeat constructor.
  - reflexivity.
  - reflexivity.
  - left. reflexivity.
  - vm_compute. reflexivity.
  - vm_compute. reflexivity.
  - vm_compute. reflexivity.
Defined.
